(** * Flowchart editor: graph model and canvas geometry

    A shallow embedding of the two classes of the flowchart collaborator,
    [FlowchartEditor] (the graph model) and [FlowchartCanvas] (edge and
    viewport geometry), together with the properties of its specification.

    The editor keeps its diagram in [this.data], a plain JavaScript object
    that [loadFromJSON] replaces by whatever the caller passes in.  The
    model therefore keeps [data] as an untyped JavaScript value and gives
    every property read, property write and array method the behaviour it
    has in strict-mode JavaScript, including the [TypeError]s. *)

From Stdlib Require Import List String Ascii Bool Arith NArith ZArith QArith Qabs Lia Lqa.
From Stdlib Require Import Decimal DecimalString DecimalN.
From Stdlib Require Import Floats.
Import ListNotations.
Close Scope Q_scope.
Open Scope string_scope.

(** ** JavaScript values *)

Module JS.

(** Objects and arrays carry the address of the heap cell they live in:
    two occurrences with the same address are the same mutable object.
    The store the editor works on is tree shaped (it is built by object
    literals and by [JSON.parse]), so a value is written as the tree
    below the cell.  Numbers are the finite ones, kept exact. *)
Definition addr := nat.

#[warnings="-register-all"]
Inductive value : Type :=
| VUndef
| VNull
| VBool (b : bool)
| VNum (q : Q)
| VStr (s : string)
| VArr (a : addr) (elems : list value) (props : list (string * value))
| VObj (a : addr) (props : list (string * value)).

Definition fields := list (string * value).

(** The text produced by [JSON.stringify], as a syntax tree. *)
#[warnings="-register-all"]
Inductive json : Type :=
| JNull
| JBool (b : bool)
| JNum (q : Q)
| JStr (s : string)
| JArr (elems : list json)
| JObj (members : list (string * json)).

Inductive error := TypeError | SyntaxError.

Inductive outcome (A : Type) : Type :=
| Ok (a : A)
| Throw (e : error).
Arguments Ok {A} a.
Arguments Throw {A} e.

Definition obind {A B} (o : outcome A) (k : A -> outcome B) : outcome B :=
  match o with
  | Ok a => k a
  | Throw e => Throw e
  end.

Definition isOk {A} (o : outcome A) : bool :=
  match o with Ok _ => true | Throw _ => false end.

(** Own properties, in insertion order. *)
Fixpoint lookup {V} (k : string) (ps : list (string * V)) : option V :=
  match ps with
  | [] => None
  | (k', v) :: rest => if String.eqb k k' then Some v else lookup k rest
  end.

Fixpoint assocSet {V} (k : string) (x : V) (ps : list (string * V))
  : list (string * V) :=
  match ps with
  | [] => [(k, x)]
  | (k', v) :: rest =>
      if String.eqb k k' then (k, x) :: rest else (k', v) :: assocSet k x rest
  end.

Definition orUndef (o : option value) : value :=
  match o with Some v => v | None => VUndef end.

Definition showN (n : N) : string := NilZero.string_of_uint (N.to_uint n).

Definition truthy (v : value) : bool :=
  match v with
  | VUndef | VNull => false
  | VBool b => b
  | VNum q => negb (Qeq_bool q 0%Q)
  | VStr s => negb (String.eqb s "")
  | VArr _ _ _ | VObj _ _ => true
  end.

(** [v === w]: objects are compared by identity. *)
Definition strictEq (v w : value) : bool :=
  match v, w with
  | VUndef, VUndef => true
  | VNull, VNull => true
  | VBool a, VBool b => Bool.eqb a b
  | VNum a, VNum b => Qeq_bool a b
  | VStr a, VStr b => String.eqb a b
  | VArr a _ _, VArr b _ _ => Nat.eqb a b
  | VObj a _, VObj b _ => Nat.eqb a b
  | _, _ => false
  end.

Definition strictNeq (v w : value) : bool := negb (strictEq v w).

(** [v.k] for the property names the program reads ([length] apart, no
    inherited property is among them). *)
Definition getProp (k : string) (v : value) : outcome value :=
  match v with
  | VUndef | VNull => Throw TypeError
  | VObj _ ps => Ok (orUndef (lookup k ps))
  | VArr _ es ps =>
      if String.eqb k "length" then Ok (VNum (inject_Z (Z.of_nat (List.length es))))
      else Ok (orUndef (lookup k ps))
  | VStr s =>
      if String.eqb k "length" then Ok (VNum (inject_Z (Z.of_nat (String.length s))))
      else Ok VUndef
  | VBool _ | VNum _ => Ok VUndef
  end.

(** [v[i]]. *)
Definition getIndex (i : nat) (v : value) : outcome value :=
  match v with
  | VUndef | VNull => Throw TypeError
  | VArr _ es _ => Ok (nth i es VUndef)
  | VObj _ ps => Ok (orUndef (lookup (showN (N.of_nat i)) ps))
  | VStr s =>
      match String.get i s with
      | Some c => Ok (VStr (String c EmptyString))
      | None => Ok VUndef
      end
  | VBool _ | VNum _ => Ok VUndef
  end.

(** [v.k = x] in strict mode (class bodies are strict): a write to a
    primitive throws.  The program writes no [length] and no index key. *)
Definition setProp (k : string) (x : value) (v : value) : outcome value :=
  match v with
  | VObj a ps => Ok (VObj a (assocSet k x ps))
  | VArr a es ps => Ok (VArr a es (assocSet k x ps))
  | _ => Throw TypeError
  end.

(** Receiver of an array method ([map], [filter], [find], [push],
    [forEach]): anything but an array has no such method. *)
Definition arrayElems (v : value) : outcome (list value) :=
  match v with
  | VArr _ es _ => Ok es
  | _ => Throw TypeError
  end.

Fixpoint mapO {A B} (f : A -> outcome B) (l : list A) : outcome (list B) :=
  match l with
  | [] => Ok []
  | x :: rest =>
      obind (f x) (fun y => obind (mapO f rest) (fun ys => Ok (y :: ys)))
  end.

Fixpoint filterO {A} (p : A -> outcome bool) (l : list A) : outcome (list A) :=
  match l with
  | [] => Ok []
  | x :: rest =>
      obind (p x) (fun b =>
      obind (filterO p rest) (fun ys => Ok (if b then x :: ys else ys)))
  end.

(** [Array.prototype.find], returning the position of the element. *)
Fixpoint findO {A} (p : A -> outcome bool) (l : list A) (i : nat)
  : outcome (option nat) :=
  match l with
  | [] => Ok None
  | x :: rest =>
      obind (p x) (fun b => if b then Ok (Some i) else findO p rest (S i))
  end.

(** *** References

    A reference to an object inside [this.data] is the access path that
    leads to it. *)
Inductive key := KProp (k : string) | KIdx (i : nat).
Definition ref := list key.

Definition getKey (k : key) (v : value) : outcome value :=
  match k with
  | KProp s => getProp s v
  | KIdx i => getIndex i v
  end.

Fixpoint deref (p : ref) (v : value) : outcome value :=
  match p with
  | [] => Ok v
  | k :: rest => obind (getKey k v) (deref rest)
  end.

Fixpoint setNth {A} (i : nat) (x : A) (l : list A) : list A :=
  match l, i with
  | [], _ => []
  | _ :: rest, O => x :: rest
  | y :: rest, S j => y :: setNth j x rest
  end.

(** Replace the child below key [k]; the cell of [v] itself is kept. *)
Definition putKey (k : key) (x : value) (v : value) : value :=
  match k, v with
  | KProp s, VObj a ps => VObj a (assocSet s x ps)
  | KProp s, VArr a es ps => VArr a es (assocSet s x ps)
  | KIdx i, VArr a es ps => VArr a (setNth i x es) ps
  | KIdx i, VObj a ps => VObj a (assocSet (showN (N.of_nat i)) x ps)
  | _, _ => v
  end.

Definition child (k : key) (v : value) : value :=
  match getKey k v with
  | Ok c => c
  | Throw _ => VUndef
  end.

(** The store after the object at path [p] has been replaced by [x]. *)
Fixpoint storeAt (p : ref) (x : value) (v : value) : value :=
  match p with
  | [] => x
  | k :: rest => putKey k (storeAt rest x (child k v)) v
  end.

(** *** JSON *)

(** [JSON.stringify]: [None] is the result [undefined]. *)
Fixpoint stringify (v : value) : option json :=
  match v with
  | VUndef => None
  | VNull => Some JNull
  | VBool b => Some (JBool b)
  | VNum q => Some (JNum q)
  | VStr s => Some (JStr s)
  | VArr _ es _ =>
      Some (JArr (map (fun e => match stringify e with
                                | Some j => j
                                | None => JNull
                                end) es))
  | VObj _ ps =>
      let fix members (l : fields) : list (string * json) :=
        match l with
        | [] => []
        | (k, x) :: rest =>
            match stringify x with
            | Some j => (k, j) :: members rest
            | None => members rest
            end
        end in
      Some (JObj (members ps))
  end.

(** [JSON.parse]: every array and object is a new cell, taken from the
    allocation pointer [n]. *)
Fixpoint parse (j : json) (n : addr) : value * addr :=
  match j with
  | JNull => (VNull, n)
  | JBool b => (VBool b, n)
  | JNum q => (VNum q, n)
  | JStr s => (VStr s, n)
  | JArr js =>
      let fix elems (l : list json) (m : addr) : list value * addr :=
        match l with
        | [] => ([], m)
        | x :: rest =>
            let (v, m1) := parse x m in
            let (vs, m2) := elems rest m1 in
            (v :: vs, m2)
        end in
      let (vs, m) := elems js (S n) in
      (VArr n vs [], m)
  | JObj ms =>
      let fix members (l : list (string * json)) (m : addr) : fields * addr :=
        match l with
        | [] => ([], m)
        | (k, x) :: rest =>
            let (v, m1) := parse x m in
            let (vs, m2) := members rest m1 in
            ((k, v) :: vs, m2)
        end in
      let (ps, m) := members ms (S n) in
      (VObj n ps, m)
  end.

(** The value with its addresses forgotten: two values are equal by value
    when their erasures are equal. *)
Fixpoint erase (v : value) : value :=
  match v with
  | VArr _ es ps =>
      VArr 0 (map erase es) (map (fun p => (fst p, erase (snd p))) ps)
  | VObj _ ps => VObj 0 (map (fun p => (fst p, erase (snd p))) ps)
  | _ => v
  end.

Definition sameValue (v w : value) : Prop := erase v = erase w.

(** The cells of a value. *)
Fixpoint addrs (v : value) : list addr :=
  match v with
  | VArr a es ps =>
      a :: (flat_map addrs es ++ flat_map (fun p => addrs (snd p)) ps)%list
  | VObj a ps => a :: flat_map (fun p => addrs (snd p)) ps
  | _ => []
  end.

(** Values that [JSON.stringify] writes out in full: no [undefined] and
    no named property on an array. *)
Fixpoint clean (v : value) : bool :=
  match v with
  | VUndef => false
  | VArr _ es ps => forallb clean es && match ps with [] => true | _ => false end
  | VObj _ ps => forallb (fun p => clean (snd p)) ps
  | _ => true
  end.

(** The members that [stringify] writes for the properties of an object,
    and the elements and members that [parse] builds, by name. *)
Definition stringifyMembers : fields -> list (string * json) :=
  fix members (l : fields) : list (string * json) :=
    match l with
    | [] => []
    | (k, x) :: rest =>
        match stringify x with
        | Some j => (k, j) :: members rest
        | None => members rest
        end
    end.

Definition parseElems : list json -> addr -> list value * addr :=
  fix elems (l : list json) (m : addr) : list value * addr :=
    match l with
    | [] => ([], m)
    | x :: rest =>
        let (v, m1) := parse x m in
        let (vs, m2) := elems rest m1 in
        (v :: vs, m2)
    end.

Definition parseMembers : list (string * json) -> addr -> fields * addr :=
  fix members (l : list (string * json)) (m : addr) : fields * addr :=
    match l with
    | [] => ([], m)
    | (k, x) :: rest =>
        let (v, m1) := parse x m in
        let (vs, m2) := members rest m1 in
        ((k, v) :: vs, m2)
    end.

(** [clean] values whose cells all lie below the allocation pointer
    [n]. *)
Fixpoint cleanBelow (n : addr) (v : value) : bool :=
  match v with
  | VUndef => false
  | VArr a es ps =>
      (a <? n)%nat && forallb (cleanBelow n) es
      && match ps with [] => true | _ => false end
  | VObj a ps => (a <? n)%nat && forallb (fun p => cleanBelow n (snd p)) ps
  | _ => true
  end.

(** The values of JSON that are not objects: [null], booleans, numbers
    and strings. *)
Definition isAtom (v : value) : bool :=
  match v with
  | VNull | VBool _ | VNum _ | VStr _ => true
  | _ => false
  end.

(** *** Identifier numbers *)

Definition isDigit (c : ascii) : bool :=
  let n := nat_of_ascii c in (48 <=? n)%nat && (n <=? 57)%nat.

Fixpoint takeDigits (s : string) : string :=
  match s with
  | String c rest => if isDigit c then String c (takeDigits rest) else ""
  | EmptyString => ""
  end.

Fixpoint dropPrefix (pre s : string) : option string :=
  match pre, s with
  | EmptyString, _ => Some s
  | String c pre', String d s' =>
      if Ascii.eqb c d then dropPrefix pre' s' else None
  | String _ _, EmptyString => None
  end.

(** [s.match(/<pre>(\d+)/)]: the digits captured by the leftmost match. *)
Fixpoint matchDigits (pre s : string) : option string :=
  let here :=
    match dropPrefix pre s with
    | Some rest =>
        match takeDigits rest with
        | EmptyString => None
        | ds => Some ds
        end
    | None => None
    end in
  match here with
  | Some ds => Some ds
  | None =>
      match s with
      | EmptyString => None
      | String _ rest => matchDigits pre rest
      end
  end.

(** [parseInt] of a string of decimal digits, as the integer the digits
    denote.  It is the number that JavaScript computes when that integer
    is below [2^53]; a larger one is rounded to a double there. *)
Definition parseInt (ds : string) : N :=
  match NilEmpty.uint_of_string ds with
  | Some d => N.of_uint d
  | None => 0%N
  end.

(** The integers that a counter of the editor can hold and step over
    without rounding: the doubles are exact on them and on their
    successor. *)
Definition safeInteger (n : N) : bool := (n <? 2 ^ 53)%N.

(** *** Names outside the model *)

(** The names that every object inherits from [Object.prototype].  An
    object literal indexed by one of them gives the inherited member (a
    function, or the prototype itself), and the model has no such
    value: the tables of the editor are modelled for the other names. *)
Definition inherited (k : string) : bool :=
  existsb (String.eqb k)
    ["constructor"; "hasOwnProperty"; "isPrototypeOf"; "propertyIsEnumerable";
     "toLocaleString"; "toString"; "valueOf";
     "__defineGetter__"; "__defineSetter__";
     "__lookupGetter__"; "__lookupSetter__"; "__proto__"].

(** The identifiers that the canvas can write between the quotes of the
    attribute selectors [[data-node-id=...]] and
    [[data-connection-id=...]] and get a well-formed selector: the text
    of the identifier holds no double quote, backslash or line break.
    The model takes the selections of the canvas to succeed, which they
    do for these identifiers; for others [querySelector] may throw a
    [SyntaxError]. *)
Definition selectorChar (c : ascii) : bool :=
  let n := nat_of_ascii c in
  negb ((n =? 34)%nat || (n =? 92)%nat || (n =? 10)%nat || (n =? 12)%nat || (n =? 13)%nat).

Definition selectorSafe (id : value) : bool :=
  match id with
  | VStr s => forallb selectorChar (list_ascii_of_string s)
  | VUndef | VNull | VBool _ | VNum _ => true
  | VArr _ _ _ | VObj _ _ => false
  end.

End JS.

(** ** The editor object and its store *)

Module EditorState.
Import JS.

(** The fields of a [FlowchartEditor] instance.  [heapNext] is the
    allocation pointer of the store; [notifier] tells whether the page
    defines [showNotification]; [notifications] and [console] record what
    was shown to the user and written by [console.error].  The counters
    are the integers they count; the code keeps them in doubles, which
    are these integers as long as they stay below [2^53]
    ([safeInteger]). *)
Record editor := mkEditor {
  data : value;
  selectedElement : value;
  connectionInProgress : value;
  nextNodeId : N;
  nextConnectionId : N;
  nextQuestionId : N;
  heapNext : addr;
  notifier : bool;
  notifications : list (string * string);
  console : list string
}.

Definition withData (d : value) (s : editor) : editor :=
  mkEditor d (selectedElement s) (connectionInProgress s) (nextNodeId s)
    (nextConnectionId s) (nextQuestionId s) (heapNext s) (notifier s)
    (notifications s) (console s).

Definition withSelectedElement (v : value) (s : editor) : editor :=
  mkEditor (data s) v (connectionInProgress s) (nextNodeId s)
    (nextConnectionId s) (nextQuestionId s) (heapNext s) (notifier s)
    (notifications s) (console s).

Definition withConnectionInProgress (v : value) (s : editor) : editor :=
  mkEditor (data s) (selectedElement s) v (nextNodeId s)
    (nextConnectionId s) (nextQuestionId s) (heapNext s) (notifier s)
    (notifications s) (console s).

Definition withNextNodeId (n : N) (s : editor) : editor :=
  mkEditor (data s) (selectedElement s) (connectionInProgress s) n
    (nextConnectionId s) (nextQuestionId s) (heapNext s) (notifier s)
    (notifications s) (console s).

Definition withNextConnectionId (n : N) (s : editor) : editor :=
  mkEditor (data s) (selectedElement s) (connectionInProgress s) (nextNodeId s)
    n (nextQuestionId s) (heapNext s) (notifier s)
    (notifications s) (console s).

Definition withNextQuestionId (n : N) (s : editor) : editor :=
  mkEditor (data s) (selectedElement s) (connectionInProgress s) (nextNodeId s)
    (nextConnectionId s) n (heapNext s) (notifier s)
    (notifications s) (console s).

Definition withHeapNext (a : addr) (s : editor) : editor :=
  mkEditor (data s) (selectedElement s) (connectionInProgress s) (nextNodeId s)
    (nextConnectionId s) (nextQuestionId s) a (notifier s)
    (notifications s) (console s).

Definition withNotifications (l : list (string * string)) (s : editor) : editor :=
  mkEditor (data s) (selectedElement s) (connectionInProgress s) (nextNodeId s)
    (nextConnectionId s) (nextQuestionId s) (heapNext s) (notifier s)
    l (console s).

Definition withConsole (l : list string) (s : editor) : editor :=
  mkEditor (data s) (selectedElement s) (connectionInProgress s) (nextNodeId s)
    (nextConnectionId s) (nextQuestionId s) (heapNext s) (notifier s)
    (notifications s) l.

(** Methods run in a state monad over the editor that may end in an
    exception; the state reached when the exception is raised is kept,
    as the writes made before it stay made. *)
Definition M (A : Type) : Type := editor -> outcome A * editor.

Definition ret {A} (a : A) : M A := fun s => (Ok a, s).

Definition bind {A B} (m : M A) (k : A -> M B) : M B :=
  fun s =>
    match m s with
    | (Ok a, s') => k a s'
    | (Throw e, s') => (Throw e, s')
    end.

Declare Scope editor_scope.
Delimit Scope editor_scope with editor.
Notation "x <- m ;; k" := (bind m (fun x => k))
  (at level 61, m at next level, right associativity) : editor_scope.
Notation "m ;; k" := (bind m (fun _ => k))
  (at level 61, right associativity) : editor_scope.
Open Scope editor_scope.

Definition liftO {A} (o : outcome A) : M A := fun s => (o, s).
Definition gets {A} (f : editor -> A) : M A := fun s => (Ok (f s), s).
Definition modify (f : editor -> editor) : M unit := fun s => (Ok tt, f s).

(** [try { body } catch (error) { handler }]. *)
Definition tryCatch (body : M unit) (handler : error -> M unit) : M unit :=
  fun s =>
    match body s with
    | (Ok a, s') => (Ok a, s')
    | (Throw e, s') => handler e s'
    end.

Fixpoint forEach {A} (f : A -> M unit) (l : list A) : M unit :=
  match l with
  | [] => ret tt
  | x :: rest => f x ;; forEach f rest
  end.

(** A new cell. *)
Definition alloc : M addr :=
  a <- gets heapNext ;;
  modify (withHeapNext (S a)) ;;
  ret a.

Definition readAt (r : ref) : M value :=
  d <- gets data ;;
  liftO (deref r d).

Definition readProp (r : ref) (k : string) : M value :=
  v <- readAt r ;;
  liftO (getProp k v).

(** [r.k = x]: the object at [r] is updated in place. *)
Definition writeProp (r : ref) (k : string) (x : value) : M unit :=
  v <- readAt r ;;
  v' <- liftO (setProp k x v) ;;
  modify (fun s => withData (storeAt r v' (data s)) s).

(** [r.push(x)]. *)
Definition push (r : ref) (x : value) : M unit :=
  v <- readAt r ;;
  match v with
  | VArr a es ps =>
      modify (fun s => withData (storeAt r (VArr a (es ++ [x])%list ps) (data s)) s)
  | _ => liftO (Throw TypeError)
  end.

(** [r.filter(p)]: the result is a new array. *)
Definition filterArr (r : ref) (p : value -> outcome bool) : M value :=
  v <- readAt r ;;
  es <- liftO (arrayElems v) ;;
  kept <- liftO (filterO p es) ;;
  a <- alloc ;;
  ret (VArr a kept []).

(** [r.find(n => n.k === id)]: a reference to the element found. *)
Definition findBy (r : ref) (k : string) (id : value) : M (option ref) :=
  v <- readAt r ;;
  es <- liftO (arrayElems v) ;;
  i <- liftO (findO (fun n => obind (getProp k n) (fun x => Ok (strictEq x id))) es 0) ;;
  ret (option_map (fun i => (r ++ [KIdx i])%list) i).

(** [if (node) { ... }] on the result of a [find]. *)
Definition whenFound (o : option ref) (body : ref -> M unit) : M unit :=
  match o with
  | None => ret tt
  | Some r =>
      v <- readAt r ;;
      if truthy v then body r else ret tt
  end.

(** The utility methods of [FlowchartEditor] that the canvas calls back
    through [window.flowchartEditor]. *)
Definition getCurrentFlowchart : M ref :=
  d <- gets data ;;
  fcs <- liftO (getProp "flowcharts" d) ;;
  _ <- liftO (getIndex 0 fcs) ;;
  ret [KProp "flowcharts"; KIdx 0].

Definition findNodeById (nodeId : value) : M (option ref) :=
  fc <- getCurrentFlowchart ;;
  findBy (fc ++ [KProp "nodes"])%list "id" nodeId.

Definition findConnectionById (connectionId : value) : M (option ref) :=
  fc <- getCurrentFlowchart ;;
  findBy (fc ++ [KProp "connections"])%list "id" connectionId.

End EditorState.

(** ** The canvas *)

Module FlowchartCanvas.
Import JS EditorState.

(** *** What the canvas reads from the model

    The canvas draws with d3 into the page; the calls into d3 and the DOM
    are taken to succeed.  What is kept of a drawing method is the
    sequence of reads it makes of the model, which decides whether it
    raises a [TypeError].  The selections by identifier
    ([[data-node-id=...]], [[data-connection-id=...]]) do succeed for
    the identifiers of [selectorSafe]; the properties that state how a
    call with a given identifier returns assume such an identifier. *)

(** [createNodeShape] reads [style.backgroundColor] in each branch. *)
Definition renderNode (nodeData : value) : M unit :=
  style <- liftO (getProp "style" nodeData) ;;
  _ <- liftO (getProp "backgroundColor" style) ;;
  ret tt.

Definition renderConnection (connectionData : value) : M unit :=
  from <- liftO (getProp "from" connectionData) ;;
  _ <- findNodeById from ;;
  to <- liftO (getProp "to" connectionData) ;;
  _ <- findNodeById to ;;
  ret tt.

Definition updateConnection (connectionData : value) : M unit :=
  from <- liftO (getProp "from" connectionData) ;;
  _ <- findNodeById from ;;
  to <- liftO (getProp "to" connectionData) ;;
  _ <- findNodeById to ;;
  ret tt.

Definition updateNodeConnections (nodeId : value) : M unit :=
  fc <- getCurrentFlowchart ;;
  v <- readProp fc "connections" ;;
  es <- liftO (arrayElems v) ;;
  connections <- liftO (filterO (fun c =>
      obind (getProp "from" c) (fun f =>
        if strictEq f nodeId then Ok true
        else obind (getProp "to" c) (fun t => Ok (strictEq t nodeId)))) es) ;;
  forEach updateConnection connections.

Definition updateNodePosition (nodeData : value) : M unit :=
  id <- liftO (getProp "id" nodeData) ;;
  updateNodeConnections id.

(** [removeNode] followed by [renderNode]. *)
Definition updateNode (nodeData : value) : M unit := renderNode nodeData.

(** With a label to place, [getConnectionMidPoint] reads [x] of both
    end nodes, which fails on an end that was not found. *)
Definition updateConnectionLabel (connectionData : value) : M unit :=
  label <- liftO (getProp "label" connectionData) ;;
  if truthy label then
    from <- liftO (getProp "from" connectionData) ;;
    sourceNode <- findNodeById from ;;
    to <- liftO (getProp "to" connectionData) ;;
    targetNode <- findNodeById to ;;
    match sourceNode, targetNode with
    | Some _, Some _ => ret tt
    | _, _ => liftO (Throw TypeError)
    end
  else ret tt.

(** *** Numbers of the geometry

    The canvas computes with the numbers of JavaScript: IEEE 754
    binary64 values, every operation rounded to the nearest value, ties
    to even.  They are the primitive floats of Rocq, with the same
    infinities, signed zeros and [NaN]. *)

(** [a > b]; a comparison with [NaN] is false. *)
Definition ngt (a b : float) : bool := (b <? a)%float.

(** [Math.min(a, b)] and [Math.max(a, b)]: [NaN] when an argument is
    [NaN], and [-0] counts as smaller than [+0]. *)
Definition nmin (a b : float) : float :=
  if is_nan a || is_nan b then nan
  else if (b <? a)%float then b
  else if (a <? b)%float then a
  else if get_sign a then a else b.

Definition nmax (a b : float) : float :=
  if is_nan a || is_nan b then nan
  else if (a <? b)%float then b
  else if (b <? a)%float then a
  else if get_sign a then b else a.

(** [Math.min(...l)] and [Math.max(...l)]. *)
Definition minOf (l : list float) : float := fold_left nmin l infinity.
Definition maxOf (l : list float) : float := fold_left nmax l neg_infinity.

(** What the geometry reads of a node. *)
Record node := mkNode {
  x : float;
  y : float;
  width : float;
  height : float;
  type : string
}.

Record point := mkPoint { px : float; py : float }.

Record bounds := mkBounds {
  minX : float;
  minY : float;
  bwidth : float;
  bheight : float
}.

(** A transform of d3-zoom, and its methods [translate] and [scale] as
    that library defines them. *)
Record transform := mkTransform { tx : float; ty : float; k : float }.

Definition zoomIdentity : transform := mkTransform 0 0 1.

Definition translate (t : transform) (dx dy : float) : transform :=
  mkTransform (tx t + k t * dx) (ty t + k t * dy) (k t).

Definition scale (t : transform) (f : float) : transform :=
  mkTransform (tx t) (ty t) (k t * f).

Section Geometry.

(** [Math.atan2], [Math.cos] and [Math.sin], as the platform computes
    them. *)
Variable atan2 : float -> float -> float.
Variable cos : float -> float.
Variable sin : float -> float.

Definition getNodeEdgePoint (n : node) (targetX targetY : float) : point :=
  let centerX := (x n + width n / 2)%float in
  let centerY := (y n + height n / 2)%float in
  let dx := (targetX - centerX)%float in
  let dy := (targetY - centerY)%float in
  if (String.eqb (type n) "start" || String.eqb (type n) "end")%bool then
    let a := (width n / 2)%float in
    let b := (height n / 2)%float in
    let angle := atan2 dy dx in
    mkPoint (centerX + a * cos angle) (centerY + b * sin angle)
  else if String.eqb (type n) "decision" then
    let halfWidth := (width n / 2)%float in
    let halfHeight := (height n / 2)%float in
    let slope := (dy / dx)%float in
    if ngt (abs dx) (abs dy) then
      let ex := if ngt dx 0 then (centerX + halfWidth)%float
                else (centerX - halfWidth)%float in
      let ey := (centerY + slope * (ex - centerX))%float in
      mkPoint ex (nmax (centerY - halfHeight) (nmin (centerY + halfHeight) ey))
    else
      let ey := if ngt dy 0 then (centerY + halfHeight)%float
                else (centerY - halfHeight)%float in
      let ex := (centerX + (ey - centerY) / slope)%float in
      mkPoint (nmax (centerX - halfWidth) (nmin (centerX + halfWidth) ex)) ey
  else
    let rectHalfWidth := (width n / 2)%float in
    let rectHalfHeight := (height n / 2)%float in
    if ngt (abs dx * rectHalfHeight) (abs dy * rectHalfWidth) then
      let ex := if ngt dx 0 then (centerX + rectHalfWidth)%float
                else (centerX - rectHalfWidth)%float in
      let ey := (centerY + dy * rectHalfWidth / abs dx)%float in
      mkPoint ex ey
    else
      let ey := if ngt dy 0 then (centerY + rectHalfHeight)%float
                else (centerY - rectHalfHeight)%float in
      let ex := (centerX + dx * rectHalfHeight / abs dy)%float in
      mkPoint ex ey.

(** The four points of the cubic curve that [calculateConnectionPath]
    writes into the path string: start, two control points, end. *)
Definition calculateConnectionPath (sourceNode targetNode : node)
  : point * point * point * point :=
  let sourceCenterX := (x sourceNode + width sourceNode / 2)%float in
  let sourceCenterY := (y sourceNode + height sourceNode / 2)%float in
  let targetCenterX := (x targetNode + width targetNode / 2)%float in
  let targetCenterY := (y targetNode + height targetNode / 2)%float in
  let sourcePoint := getNodeEdgePoint sourceNode targetCenterX targetCenterY in
  let targetPoint := getNodeEdgePoint targetNode sourceCenterX sourceCenterY in
  let controlOffset :=
    (abs (px targetPoint - px sourcePoint) * 0x1.3333333333333p-2)%float in
  (sourcePoint,
   mkPoint (px sourcePoint + controlOffset) (py sourcePoint),
   mkPoint (px targetPoint - controlOffset) (py targetPoint),
   targetPoint).

End Geometry.

Definition getConnectionMidPoint (sourceNode targetNode : node) : float * float :=
  let sourceCenterX := (x sourceNode + width sourceNode / 2)%float in
  let sourceCenterY := (y sourceNode + height sourceNode / 2)%float in
  let targetCenterX := (x targetNode + width targetNode / 2)%float in
  let targetCenterY := (y targetNode + height targetNode / 2)%float in
  (((sourceCenterX + targetCenterX) / 2)%float,
   ((sourceCenterY + targetCenterY) / 2)%float).

Definition calculateBounds (nodes : list node) : bounds :=
  let xs := map (fun n => x n) nodes in
  let ys := map (fun n => y n) nodes in
  let widths := map (fun n => (x n + width n)%float) nodes in
  let heights := map (fun n => (y n + height n)%float) nodes in
  let minX := minOf xs in
  let minY := minOf ys in
  let maxX := maxOf widths in
  let maxY := maxOf heights in
  mkBounds minX minY (maxX - minX) (maxY - minY).

(** [fitToScreen] on the nodes of the current flowchart, in an SVG
    element of size [svgWidth] by [svgHeight]: the transform the zoom
    behaviour ends on, [current] being the one it starts from. *)
Definition fitToScreen (nodes : list node) (svgWidth svgHeight : float)
  (current : transform) : transform :=
  match nodes with
  | [] => current
  | _ =>
      let b := calculateBounds nodes in
      let padding := 50%float in
      let s :=
        nmin (svgWidth / (bwidth b + padding * 2))
             (svgHeight / (bheight b + padding * 2)) in
      let translateX := ((svgWidth - bwidth b * s) / 2 - minX b * s)%float in
      let translateY := ((svgHeight - bheight b * s) / 2 - minY b * s)%float in
      scale (translate zoomIdentity translateX translateY) s
  end.

Definition resetZoom (current : transform) : transform := zoomIdentity.

End FlowchartCanvas.

(** ** The graph model *)

Module FlowchartEditor.
Import JS EditorState.

(** [new FlowchartEditor(canvasId)] at instant [now], on a page that does
    ([hasNotifier]) or does not define [showNotification].  The
    constructor leaves [connectionInProgress] undefined. *)
Definition init (now : string) (hasNotifier : bool) : editor :=
  mkEditor
    (VObj 0
       [("version", VNum 1);
        ("timestamp", VStr now);
        ("title", VStr "New Flowchart");
        ("description", VStr "");
        ("generalNotes", VStr "");
        ("flowcharts",
         VArr 1
           [VObj 2
              [("id", VStr "flowchart-1");
               ("title", VStr "Main Process");
               ("description", VStr "");
               ("nodes", VArr 3 [] []);
               ("connections", VArr 4 [] []);
               ("questions", VArr 5 [] [])]]
           [])])
    VNull VUndef 1%N 1%N 1%N 6 hasNotifier [] [].

(** [table[type] || fallback].  The tables are object literals, so for a
    type that is a name every object inherits ([inherited]) the code
    gets the inherited member, which is no value of this model: the
    three functions below are those of the code for every other type,
    and the properties that depend on their result assume such a
    type. *)
Definition getDefaultNodeText (type : string) : value :=
  let defaults :=
    [("start", VStr "Start");
     ("process", VStr "Process");
     ("decision", VStr "Decision?");
     ("end", VStr "End");
     ("connector", VStr "")] in
  let v := orUndef (lookup type defaults) in
  if truthy v then v else VStr "Node".

Definition getDefaultNodeSize (type : string) : value * value :=
  let sizes :=
    [("start", (VNum 100, VNum 60));
     ("process", (VNum 120, VNum 60));
     ("decision", (VNum 100, VNum 80));
     ("end", (VNum 100, VNum 60));
     ("connector", (VNum 30, VNum 30))] in
  match lookup type sizes with
  | Some wh => wh
  | None => (VNum 120, VNum 60)
  end.

Definition getDefaultNodeColor (type : string) : value :=
  let colors :=
    [("start", VStr "#e8f5e8");
     ("process", VStr "#e3f2fd");
     ("decision", VStr "#fff3e0");
     ("end", VStr "#fce4ec");
     ("connector", VStr "#f5f5f5")] in
  let v := orUndef (lookup type colors) in
  if truthy v then v else VStr "#e3f2fd".

Definition updateStats : M unit :=
  fc <- getCurrentFlowchart ;;
  ns <- readProp fc "nodes" ;;
  _ <- liftO (getProp "length" ns) ;;
  cs <- readProp fc "connections" ;;
  _ <- liftO (getProp "length" cs) ;;
  ret tt.

(** [createQuestionElement] reads the fields of the question. *)
Definition updateQuestionsPanel : M unit :=
  fc <- getCurrentFlowchart ;;
  qs <- readProp fc "questions" ;;
  len <- liftO (getProp "length" qs) ;;
  if strictEq len (VNum 0) then ret tt
  else
    es <- liftO (arrayElems qs) ;;
    forEach (fun q => _ <- liftO (getProp "category" q) ;; ret tt) es.

(** *** Node management *)

(** The object literal of [addNode], laid out in the cells [a], [aStyle]
    and [aMetadata]. *)
Definition nodeLiteral (a aStyle aMetadata : addr) (nodeId : value)
  (type : string) (x y : value) : value :=
  VObj a
    [("id", nodeId);
     ("type", VStr type);
     ("text", getDefaultNodeText type);
     ("x", x);
     ("y", y);
     ("width", fst (getDefaultNodeSize type));
     ("height", snd (getDefaultNodeSize type));
     ("style",
      VObj aStyle
        [("backgroundColor", getDefaultNodeColor type);
         ("borderColor", VStr "#1976d2");
         ("textColor", VStr "#000")]);
     ("metadata",
      VObj aMetadata
        [("category", VStr "core");
         ("priority", VStr "medium");
         ("status", VStr "pending");
         ("note", VStr "")])].

Definition addNode (type : string) (x y : value) : M value :=
  n <- gets nextNodeId ;;
  modify (withNextNodeId (n + 1)) ;;
  let nodeId := VStr ("node-" ++ showN n) in
  a <- alloc ;;
  aStyle <- alloc ;;
  aMetadata <- alloc ;;
  let nodeData := nodeLiteral a aStyle aMetadata nodeId type x y in
  fc <- getCurrentFlowchart ;;
  push (fc ++ [KProp "nodes"])%list nodeData ;;
  FlowchartCanvas.renderNode nodeData ;;
  updateStats ;;
  ret nodeData.

Definition updateNodePosition (nodeId x y : value) : M unit :=
  node <- findNodeById nodeId ;;
  whenFound node (fun r =>
    writeProp r "x" x ;;
    writeProp r "y" y ;;
    n <- readAt r ;;
    FlowchartCanvas.updateNodePosition n).

Definition updateNodeText (nodeId text : value) : M unit :=
  node <- findNodeById nodeId ;;
  whenFound node (fun r => writeProp r "text" text).

Definition updateNodeType (nodeId : value) (type : string) : M unit :=
  node <- findNodeById nodeId ;;
  whenFound node (fun r =>
    writeProp r "type" (VStr type) ;;
    writeProp (r ++ [KProp "style"])%list "backgroundColor" (getDefaultNodeColor type) ;;
    writeProp r "width" (fst (getDefaultNodeSize type)) ;;
    writeProp r "height" (snd (getDefaultNodeSize type)) ;;
    n <- readAt r ;;
    FlowchartCanvas.updateNode n).

Definition updateNodeStatus (nodeId status : value) : M unit :=
  node <- findNodeById nodeId ;;
  whenFound node (fun r =>
    writeProp (r ++ [KProp "metadata"])%list "status" status).

Definition updateNodeNotes (nodeId notes : value) : M unit :=
  node <- findNodeById nodeId ;;
  whenFound node (fun r =>
    writeProp (r ++ [KProp "metadata"])%list "note" notes).

Definition deleteNode (nodeId : value) : M unit :=
  flowchart <- getCurrentFlowchart ;;
  nodes <- filterArr (flowchart ++ [KProp "nodes"])%list
             (fun n => obind (getProp "id" n) (fun id => Ok (strictNeq id nodeId))) ;;
  writeProp flowchart "nodes" nodes ;;
  connections <- filterArr (flowchart ++ [KProp "connections"])%list
             (fun c => obind (getProp "from" c) (fun f =>
                if strictNeq f nodeId
                then obind (getProp "to" c) (fun t => Ok (strictNeq t nodeId))
                else Ok false)) ;;
  writeProp flowchart "connections" connections ;;
  updateStats.

(** *** Connection management *)

Definition startConnection (fromNode : value) : M unit :=
  from <- liftO (getProp "id" fromNode) ;;
  a <- alloc ;;
  modify (withConnectionInProgress
            (VObj a [("from", from); ("fromNode", fromNode)])).

(** The object literal of [addConnection]. *)
Definition connectionLiteral (a aMetadata : addr)
  (connectionId fromNodeId toNodeId label : value) : value :=
  VObj a
    [("id", connectionId);
     ("from", fromNodeId);
     ("to", toNodeId);
     ("label", label);
     ("style", VStr "solid");
     ("metadata",
      VObj aMetadata [("status", VStr "pending"); ("note", VStr "")])].

(** [label] is [VUndef] when the caller leaves the argument out. *)
Definition addConnection (fromNodeId toNodeId label : value) : M value :=
  let label := match label with VUndef => VStr "" | _ => label end in
  n <- gets nextConnectionId ;;
  modify (withNextConnectionId (n + 1)) ;;
  let connectionId := VStr ("conn-" ++ showN n) in
  a <- alloc ;;
  aMetadata <- alloc ;;
  let connectionData :=
    connectionLiteral a aMetadata connectionId fromNodeId toNodeId label in
  fc <- getCurrentFlowchart ;;
  push (fc ++ [KProp "connections"])%list connectionData ;;
  FlowchartCanvas.renderConnection connectionData ;;
  updateStats ;;
  ret connectionData.

Definition completeConnection (toNode : value) : M unit :=
  cip <- gets connectionInProgress ;;
  (if truthy cip then
     from <- liftO (getProp "from" cip) ;;
     to <- liftO (getProp "id" toNode) ;;
     if strictNeq from to then
       _ <- addConnection from to VUndef ;; ret tt
     else ret tt
   else ret tt) ;;
  modify (withConnectionInProgress VNull).

Definition updateConnectionLabel (connectionId label : value) : M unit :=
  connection <- findConnectionById connectionId ;;
  whenFound connection (fun r =>
    writeProp r "label" label ;;
    c <- readAt r ;;
    FlowchartCanvas.updateConnectionLabel c).

Definition updateConnectionStyle (connectionId style : value) : M unit :=
  connection <- findConnectionById connectionId ;;
  whenFound connection (fun r => writeProp r "style" style).

Definition updateConnectionStatus (connectionId status : value) : M unit :=
  connection <- findConnectionById connectionId ;;
  whenFound connection (fun r =>
    writeProp (r ++ [KProp "metadata"])%list "status" status).

Definition deleteConnection (connectionId : value) : M unit :=
  flowchart <- getCurrentFlowchart ;;
  connections <- filterArr (flowchart ++ [KProp "connections"])%list
             (fun c => obind (getProp "id" c) (fun id => Ok (strictNeq id connectionId))) ;;
  writeProp flowchart "connections" connections ;;
  updateStats.

(** The handlers that [setupEventHandlers] registers for the connect
    gesture; [currentMode] is [window.currentMode]. *)
Definition onNodeConnectionStart (currentMode : string) (fromNode : value) : M unit :=
  if String.eqb currentMode "connect" then startConnection fromNode else ret tt.

Definition onNodeConnectionEnd (currentMode : string) (toNode : value) : M unit :=
  if String.eqb currentMode "connect" then
    cip <- gets connectionInProgress ;;
    if truthy cip then completeConnection toNode else ret tt
  else ret tt.

(** *** Selection *)

Definition clearSelection : M unit :=
  modify (withSelectedElement VNull).

(** *** Data management *)

(** The number in an identifier: [id.match(/<pre>(\d+)/)], then
    [parseInt] of the capture, [0] without a match. *)
Definition idNumber (pre : string) (e : value) : outcome N :=
  obind (getProp "id" e) (fun id =>
    match id with
    | VStr s =>
        Ok (match matchDigits pre s with
            | Some ds => parseInt ds
            | None => 0%N
            end)
    | _ => Throw TypeError
    end).

(** [Math.max(0, ...l)]. *)
Definition maxWith0 (l : list N) : N := fold_left N.max l 0%N.

Definition updateIdCounters : M unit :=
  flowchart <- getCurrentFlowchart ;;
  ns <- readProp flowchart "nodes" ;;
  es <- liftO (arrayElems ns) ;;
  nodeIds <- liftO (mapO (idNumber "node-") es) ;;
  modify (withNextNodeId (maxWith0 nodeIds + 1)) ;;
  cs <- readProp flowchart "connections" ;;
  es <- liftO (arrayElems cs) ;;
  connectionIds <- liftO (mapO (idNumber "conn-") es) ;;
  modify (withNextConnectionId (maxWith0 connectionIds + 1)) ;;
  qs <- readProp flowchart "questions" ;;
  es <- liftO (arrayElems qs) ;;
  questionIds <- liftO (mapO (idNumber "q-") es) ;;
  modify (withNextQuestionId (maxWith0 questionIds + 1)).

Definition renderAll : M unit :=
  flowchart <- getCurrentFlowchart ;;
  ns <- readProp flowchart "nodes" ;;
  es <- liftO (arrayElems ns) ;;
  forEach FlowchartCanvas.renderNode es ;;
  cs <- readProp flowchart "connections" ;;
  es <- liftO (arrayElems cs) ;;
  forEach FlowchartCanvas.renderConnection es ;;
  updateQuestionsPanel.

(** [v || []]. *)
Definition orEmptyArray (v : value) : M value :=
  if truthy v then ret v
  else a <- alloc ;; ret (VArr a [] []).

(** [this.data.flowcharts[0].k = jsonData.k || []]. *)
Definition loadLegacyArray (jsonData : value) (k : string) : M unit :=
  let flowchart := [KProp "flowcharts"; KIdx 0] in
  _ <- readAt flowchart ;;
  v <- liftO (getProp k jsonData) ;;
  v <- orEmptyArray v ;;
  writeProp flowchart k v.

(** The body of the [try] block of [loadFromJSON]. *)
Definition loadBody (jsonData : value) : M unit :=
  version <- liftO (getProp "version" jsonData) ;;
  cond <- (if truthy version then liftO (getProp "flowcharts" jsonData)
           else ret version) ;;
  (if truthy cond then modify (withData jsonData)
   else
     loadLegacyArray jsonData "nodes" ;;
     loadLegacyArray jsonData "connections" ;;
     loadLegacyArray jsonData "questions") ;;
  updateIdCounters ;;
  renderAll ;;
  updateStats.

Definition loadFromJSON (jsonData : value) : M unit :=
  tryCatch (loadBody jsonData) (fun _ =>
    modify (fun s => withConsole (console s ++ ["Error loading JSON data:"])%list s) ;;
    has <- gets notifier ;;
    if has then
      modify (fun s =>
        withNotifications
          (notifications s ++ [("Error loading flowchart data", "error")])%list s)
    else ret tt).

(** [JSON.parse(JSON.stringify(v))]. *)
Definition deepClone (v : value) : M value :=
  match stringify v with
  | None => liftO (Throw SyntaxError)
  | Some j =>
      n <- gets heapNext ;;
      let (copy, n') := parse j n in
      modify (withHeapNext n') ;;
      ret copy
  end.

(** [exportToJSON] at instant [now]. *)
Definition exportToJSON (now : string) : M value :=
  writeProp [] "timestamp" (VStr now) ;;
  d <- gets data ;;
  deepClone d.

Definition updateDescription (description : value) : M unit :=
  writeProp [] "description" description.

Definition updateGeneralNotes (notes : value) : M unit :=
  writeProp [] "generalNotes" notes.

Definition clearAll : M unit :=
  fc <- getCurrentFlowchart ;;
  a <- alloc ;;
  writeProp fc "nodes" (VArr a [] []) ;;
  fc <- getCurrentFlowchart ;;
  a <- alloc ;;
  writeProp fc "connections" (VArr a [] []) ;;
  fc <- getCurrentFlowchart ;;
  a <- alloc ;;
  writeProp fc "questions" (VArr a [] []) ;;
  clearSelection ;;
  updateStats ;;
  updateQuestionsPanel.

End FlowchartEditor.

(** ** Diagrams: the shape of [this.data] *)

Module Diagram.
Import JS EditorState.

(** The active section, [data.flowcharts[0]], of a diagram that has one:
    its cell and its properties. *)
Definition sectionOf (d : value) : option (addr * fields) :=
  match d with
  | VObj _ ps =>
      match lookup "flowcharts" ps with
      | Some (VArr _ (VObj c sps :: _) _) => Some (c, sps)
      | _ => None
      end
  | _ => None
  end.

(** The diagram with the properties of its active section changed. *)
Definition withSection (f : fields -> fields) (d : value) : value :=
  match d with
  | VObj a ps =>
      match lookup "flowcharts" ps with
      | Some (VArr b (VObj c sps :: rest) bps) =>
          VObj a (assocSet "flowcharts" (VArr b (VObj c (f sps) :: rest) bps) ps)
      | _ => d
      end
  | _ => d
  end.

Definition elemsOf (k : string) (sps : fields) : option (list value) :=
  match lookup k sps with
  | Some (VArr _ es _) => Some es
  | _ => None
  end.

Definition activeList (k : string) (d : value) : option (list value) :=
  match sectionOf d with
  | Some (_, sps) => elemsOf k sps
  | None => None
  end.

Definition activeNodes (s : editor) : option (list value) :=
  activeList "nodes" (data s).
Definition activeConnections (s : editor) : option (list value) :=
  activeList "connections" (data s).
Definition activeQuestions (s : editor) : option (list value) :=
  activeList "questions" (data s).

(** A top-level property of the diagram ([version], [title], ...). *)
Definition header (k : string) (s : editor) : option value :=
  match data s with
  | VObj _ ps => lookup k ps
  | _ => None
  end.

Definition isObject (v : value) : bool :=
  match v with VObj _ _ => true | _ => false end.

(** [v.k] of an object, [undefined] when it has no such property. *)
Definition propOf (k : string) (v : value) : value :=
  match v with
  | VObj _ ps => orUndef (lookup k ps)
  | _ => VUndef
  end.

Definition idOf (v : value) : value := propOf "id" v.
Definition statusOf (v : value) : value := propOf "status" (propOf "metadata" v).

(** The object with one property set, and with one property of its
    [metadata] set. *)
Definition setField (k : string) (x : value) (v : value) : value :=
  match v with
  | VObj a ps => VObj a (assocSet k x ps)
  | _ => v
  end.

Definition setMetadata (k : string) (x : value) (v : value) : value :=
  setField "metadata" (setField k x (propOf "metadata" v)) v.

(** The position of the first element whose property [k] is [id]. *)
Fixpoint indexOf (k : string) (id : value) (l : list value) : option nat :=
  match l with
  | [] => None
  | e :: rest =>
      if strictEq (propOf k e) id then Some 0
      else option_map S (indexOf k id rest)
  end.

(** The identifier [node-<n>]. *)
Definition nodeId (n : N) : value := VStr ("node-" ++ showN n).

(** The tests of the filters of [deleteNode] and [deleteConnection] and
    of the canvas, on objects. *)
Definition keepsNode (nodeId n : value) : bool := strictNeq (idOf n) nodeId.
Definition keepsConnection (nodeId c : value) : bool :=
  strictNeq (propOf "from" c) nodeId && strictNeq (propOf "to" c) nodeId.
Definition touches (nodeId c : value) : bool :=
  strictEq (propOf "from" c) nodeId || strictEq (propOf "to" c) nodeId.

(** The diagram conforms to the data model as far as the editing
    operations need it: the active section has its three arrays, whose
    elements are objects. *)
Record wellShaped (s : editor) (ns cs qs : list value) : Prop := {
  ws_nodes : activeNodes s = Some ns;
  ws_connections : activeConnections s = Some cs;
  ws_questions : activeQuestions s = Some qs;
  ws_node_objects : Forall (fun n => isObject n = true) ns;
  ws_connection_objects : Forall (fun c => isObject c = true) cs;
  ws_question_objects : Forall (fun q => isObject q = true) qs
}.

(** The editor in which element [i] of the array [k] of the active
    section, held in cell [a] with elements [es], has become [e]. *)
Definition withElem (s : editor) (k : string) (a : addr) (es : list value)
  (p : fields) (i : nat) (e : value) : editor :=
  withData (withSection (assocSet k (VArr a (setNth i e es) p)) (data s)) s.

(** Nodes and connections as the data model has them: a node has a
    [style] and a [metadata] object, a connection a [metadata] object. *)
Definition nodeShaped (n : value) : bool :=
  isObject n && isObject (propOf "style" n) && isObject (propOf "metadata" n).

Definition connectionShaped (c : value) : bool :=
  isObject c && isObject (propOf "metadata" c).

Definition wellFormed (s : editor) : Prop :=
  exists ns cs qs,
    wellShaped s ns cs qs /\
    Forall (fun n => nodeShaped n = true) ns /\
    Forall (fun c => connectionShaped c = true) cs.

(** The invariant of the sessions that only add and delete nodes: the
    nodes carry the identifiers [node-k] of distinct numbers [k] below
    the counter. *)
Definition numbered (s : editor) (ks : list N) : Prop :=
  exists ns,
    wellShaped s ns [] [] /\
    map idOf ns = map nodeId ks /\
    NoDup ks /\
    Forall (fun k => (k < nextNodeId s)%N) ks.

(** Frame conditions: the identifier counters, and the top-level
    properties of the diagram other than its sections. *)
Definition sameCounters (s s' : editor) : Prop :=
  nextNodeId s' = nextNodeId s /\
  nextConnectionId s' = nextConnectionId s /\
  nextQuestionId s' = nextQuestionId s.

Definition sameHeaders (s s' : editor) : Prop :=
  forall k, String.eqb k "flowcharts" = false -> header k s' = header k s.

(** A payload in the versioned shape, as [loadFromJSON] tests it:
    [jsonData.version && jsonData.flowcharts]. *)
Definition isVersioned (p : value) : bool :=
  match getProp "version" p with
  | Ok v =>
      truthy v &&
      match getProp "flowcharts" p with
      | Ok f => truthy f
      | Throw _ => false
      end
  | Throw _ => false
  end.

(** What the user was shown. *)
Definition uiOf (s : editor) : bool * list (string * string) * list string :=
  (notifier s, notifications s, console s).

(** A computation that leaves the part [f] of the editor as it was,
    whether or not it throws. *)
Definition keeps {X A} (f : editor -> X) (m : M A) : Prop :=
  forall s, f (snd (m s)) = f s.

(** What the claims call the state of the diagram: the data and the
    three identifier counters. *)
Definition modelState (s : editor) : value * N * N * N :=
  (data s, nextNodeId s, nextConnectionId s, nextQuestionId s).

(** The identifier [conn-<n>]. *)
Definition connectionId (n : N) : value := VStr ("conn-" ++ showN n).

(** The invariant of editing sessions: the nodes carry the identifiers
    [node-k] of the distinct numbers [nk], the connections the
    identifiers [conn-k] of the distinct numbers [ck], all below the
    counter of their kind. *)
Definition identified (s : editor) (nk ck : list N) : Prop :=
  exists ns cs qs,
    wellShaped s ns cs qs /\
    Forall (fun n => nodeShaped n = true) ns /\
    Forall (fun c => connectionShaped c = true) cs /\
    map idOf ns = map nodeId nk /\
    NoDup nk /\
    Forall (fun k => (k < nextNodeId s)%N) nk /\
    map idOf cs = map connectionId ck /\
    NoDup ck /\
    Forall (fun k => (k < nextConnectionId s)%N) ck.

(** A diagram that can be written to a file and read back: it is well
    formed, in the versioned shape, and made of JSON data held in cells
    that were allocated before [heapNext]. *)
Definition conforming (s : editor) : Prop :=
  wellFormed s /\
  isVersioned (data s) = true /\
  cleanBelow (heapNext s) (data s) = true.

End Diagram.

(** ** Sessions: sequences of calls *)

Module Session.
Import JS EditorState FlowchartEditor.

Inductive call :=
| AddNode (type : string) (x y : value)
| UpdateNodePosition (nodeId x y : value)
| UpdateNodeText (nodeId text : value)
| UpdateNodeType (nodeId : value) (type : string)
| UpdateNodeStatus (nodeId status : value)
| UpdateNodeNotes (nodeId notes : value)
| DeleteNode (nodeId : value)
| AddConnection (fromNodeId toNodeId label : value)
| UpdateConnectionLabel (connectionId label : value)
| UpdateConnectionStyle (connectionId style : value)
| UpdateConnectionStatus (connectionId status : value)
| DeleteConnection (connectionId : value)
| UpdateDescription (description : value)
| UpdateGeneralNotes (notes : value)
| ClearAll.

Definition discard {A} (m : M A) : M unit := _ <- m ;; ret tt.

Definition perform (c : call) : M unit :=
  match c with
  | AddNode type x y => discard (addNode type x y)
  | UpdateNodePosition nodeId x y => updateNodePosition nodeId x y
  | UpdateNodeText nodeId text => updateNodeText nodeId text
  | UpdateNodeType nodeId type => updateNodeType nodeId type
  | UpdateNodeStatus nodeId status => updateNodeStatus nodeId status
  | UpdateNodeNotes nodeId notes => updateNodeNotes nodeId notes
  | DeleteNode nodeId => deleteNode nodeId
  | AddConnection f t label => discard (addConnection f t label)
  | UpdateConnectionLabel connectionId label => updateConnectionLabel connectionId label
  | UpdateConnectionStyle connectionId style => updateConnectionStyle connectionId style
  | UpdateConnectionStatus connectionId status => updateConnectionStatus connectionId status
  | DeleteConnection connectionId => deleteConnection connectionId
  | UpdateDescription description => updateDescription description
  | UpdateGeneralNotes notes => updateGeneralNotes notes
  | ClearAll => clearAll
  end.

Definition addOrDelete (c : call) : bool :=
  match c with
  | AddNode _ _ _ | DeleteNode _ => true
  | _ => false
  end.

(** The editor after a sequence of calls; a call that throws leaves the
    editor in the state it had reached. *)
Fixpoint run (cs : list call) (s : editor) : editor :=
  match cs with
  | [] => s
  | c :: rest => run rest (snd (perform c s))
  end.

(** The identifiers of the nodes that the calls of a session hand out. *)
Fixpoint allocated (cs : list call) (s : editor) : list value :=
  match cs with
  | [] => []
  | c :: rest =>
      (match c with
       | AddNode type x y =>
           match fst (addNode type x y s) with
           | Ok node => [Diagram.idOf node]
           | Throw _ => []
           end
       | _ => []
       end ++ allocated rest (snd (perform c s)))%list
  end.

(** The import of a file: [JSON.parse] of its text, then
    [loadFromJSON] of the result. *)
Definition importJSON (j : json) : M unit :=
  n <- gets heapNext ;;
  let (payload, n') := parse j n in
  modify (withHeapNext n') ;;
  loadFromJSON payload.

(** Calls whose arguments are data as the data model types them:
    strings, numbers, booleans or [null]; the label of [addConnection]
    may be left out, and the type of a node is not a name that every
    object inherits. *)
Definition jsonArgs (c : call) : bool :=
  match c with
  | AddNode type x y => isAtom x && isAtom y && negb (inherited type)
  | UpdateNodePosition nodeId x y => isAtom nodeId && isAtom x && isAtom y
  | UpdateNodeText nodeId v | UpdateNodeStatus nodeId v | UpdateNodeNotes nodeId v
  | UpdateConnectionLabel nodeId v | UpdateConnectionStyle nodeId v
  | UpdateConnectionStatus nodeId v => isAtom nodeId && isAtom v
  | UpdateNodeType nodeId type => isAtom nodeId && negb (inherited type)
  | DeleteNode nodeId | DeleteConnection nodeId => isAtom nodeId
  | AddConnection f t label =>
      isAtom f && isAtom t
      && match label with VUndef => true | _ => isAtom label end
  | UpdateDescription v | UpdateGeneralNotes v => isAtom v
  | ClearAll => true
  end.

(** The editors that a session reaches from a new editor: by calls with
    such arguments, by exports, by the import of a file, in the versioned
    or in the legacy shape, that leaves a well-formed diagram, and by
    loading a payload that was just exported. *)
Inductive reachable : editor -> Prop :=
| reach_init now hasNotifier : reachable (init now hasNotifier)
| reach_call c s :
    reachable s -> jsonArgs c = true -> reachable (snd (perform c s))
| reach_export now s :
    reachable s -> reachable (snd (exportToJSON now s))
| reach_import j s :
    reachable s ->
    Diagram.wellFormed (snd (importJSON j s)) ->
    reachable (snd (importJSON j s))
| reach_load now s payload s1 :
    reachable s ->
    exportToJSON now s = (Ok payload, s1) ->
    reachable (snd (loadFromJSON payload s1)).

End Session.

(** ** Geometry: what the canvas numbers mean *)

Module Geometry.
Import FlowchartCanvas.

(** The node types drawn by the default branch of [getNodeEdgePoint]:
    [process], [connector] and any type that is not [start], [end] or
    [decision]. *)
Definition rectShape (type : string) : bool :=
  negb (String.eqb type "start" || String.eqb type "end" || String.eqb type "decision").

(** A process node centred at [(cx, cy)]. *)
Definition processAt (cx cy : float) : node :=
  mkNode (cx - 60) (cy - 30) 120 60 "process".

(** The exact value of a finite number, as a rational. *)
Definition exact (f : float) : option Q :=
  match Prim2SF f with
  | S754_zero _ => Some 0%Q
  | S754_finite s m e =>
      let v := (inject_Z (Z.pos m) * Qpower 2 e)%Q in
      Some (if s then Qopp v else v)
  | _ => None
  end.

End Geometry.

(** ** Sample sessions *)

Module Samples.
Import JS EditorState FlowchartEditor.

Definition fresh : editor := init "2024-01-01T00:00:00.000Z" true.

Definition after {A} (m : M A) (s : editor) : editor := snd (m s).

(** One process node, approved. *)
Definition oneNode : editor :=
  after (addNode "process" (VNum 0) (VNum 0)) fresh.
Definition approved : editor :=
  after (updateNodeStatus (VStr "node-1") (VStr "approved")) oneNode.

(** Two nodes joined by a connection. *)
Definition twoNodes : editor :=
  after (addNode "decision" (VNum 200) (VNum 0)) oneNode.
Definition joined : editor :=
  after (addConnection (VStr "node-1") (VStr "node-2") VUndef) twoNodes.

(** Three nodes and the connections 1 -> 2, 3 -> 1 and 2 -> 3. *)
Definition threeNodes : editor :=
  after (addNode "end" (VNum 400) (VNum 0)) twoNodes.
Definition triangle : editor :=
  after (addConnection (VStr "node-2") (VStr "node-3") VUndef)
    (after (addConnection (VStr "node-3") (VStr "node-1") VUndef)
       (after (addConnection (VStr "node-1") (VStr "node-2") VUndef) threeNodes)).

(** A connection whose ends are not nodes. *)
Definition dangling : editor :=
  after (addConnection (VStr "ghost") (VStr "ghost") VUndef) fresh.

(** A file in the versioned shape whose only node has no [id]. *)
Definition nodeWithoutId : json :=
  JObj
    [("version", JNum 1);
     ("flowcharts",
      JArr
        [JObj
           [("nodes", JArr [JObj [("text", JStr "no id")]]);
            ("connections", JArr []);
            ("questions", JArr [])]])].

(** A file whose first section holds [node-3] and [node-7]. *)
Definition sparseIds : json :=
  JObj
    [("version", JNum 1);
     ("flowcharts",
      JArr
        [JObj
           [("nodes",
             JArr
               [JObj [("id", JStr "node-3");
                      ("style", JObj []); ("metadata", JObj [])];
                JObj [("id", JStr "node-7");
                      ("style", JObj []); ("metadata", JObj [])]]);
            ("connections", JArr []);
            ("questions", JArr [])]])].

(** A file of two sections: [node-3] in the first, [node-7] in the
    second. *)
Definition twoSections : json :=
  JObj
    [("version", JNum 1);
     ("flowcharts",
      JArr
        [JObj
           [("nodes",
             JArr [JObj [("id", JStr "node-3");
                         ("style", JObj []); ("metadata", JObj [])]]);
            ("connections", JArr []);
            ("questions", JArr [])];
         JObj
           [("nodes",
             JArr [JObj [("id", JStr "node-7");
                         ("style", JObj []); ("metadata", JObj [])]]);
            ("connections", JArr []);
            ("questions", JArr [])]])].

(** The value that [JSON.parse] makes of a file, in cells from 100 on. *)
Definition parsed (j : json) : value := fst (parse j 100).

End Samples.

(** ** Local storage *)

Module ToolBeltStorage.
Import JS.

(** A text kept in [localStorage]: the text of a JSON value, written as
    its syntax tree, or any other text, which [JSON.parse] rejects (the
    empty text and ["undefined"] are such texts). *)
Inductive text :=
| Json (j : json)
| Plain (s : string).

(** The page as the storage code sees it: the items of [localStorage] in
    the order of [localStorage.key], the allocation pointer, whether the
    page defines [showNotification] and [gtag], [navigator.userAgent]
    and [document.referrer], and what was shown to the user, sent to
    [gtag] and written to the console. *)
Record page := mkPage {
  items : list (string * text);
  heapNext : addr;
  notifier : bool;
  gtag : bool;
  userAgent : string;
  referrer : string;
  notifications : list (string * string);
  events : list (string * string * string);
  console : list string
}.

Definition withItems (l : list (string * text)) (p : page) : page :=
  mkPage l (heapNext p) (notifier p) (gtag p) (userAgent p) (referrer p)
    (notifications p) (events p) (console p).

Definition withHeapNext (n : addr) (p : page) : page :=
  mkPage (items p) n (notifier p) (gtag p) (userAgent p) (referrer p)
    (notifications p) (events p) (console p).

Definition withNotifications (l : list (string * string)) (p : page) : page :=
  mkPage (items p) (heapNext p) (notifier p) (gtag p) (userAgent p) (referrer p)
    l (events p) (console p).

Definition withEvents (l : list (string * string * string)) (p : page) : page :=
  mkPage (items p) (heapNext p) (notifier p) (gtag p) (userAgent p) (referrer p)
    (notifications p) l (console p).

Definition withConsole (l : list string) (p : page) : page :=
  mkPage (items p) (heapNext p) (notifier p) (gtag p) (userAgent p) (referrer p)
    (notifications p) (events p) l.

Definition say (line : string) (p : page) : page :=
  withConsole (console p ++ [line])%list p.

(** [localStorage.getItem], [null] being [None], and
    [localStorage.removeItem]. *)
Definition getItem (k : string) (p : page) : option text := lookup k (items p).

Definition removeItem (k : string) (p : page) : page :=
  withItems (filter (fun e => negb (String.eqb (fst e) k)) (items p)) p.

(** The text that [setItem] is given for [JSON.stringify(data)]: the
    result [undefined] is stored as the text ["undefined"]. *)
Definition stringifyText (data : value) : text :=
  match stringify data with
  | Some j => Json j
  | None => Plain "undefined"
  end.

(** [JSON.parse] of a stored text: [None] is a [SyntaxError]. *)
Definition parseText (t : text) (n : addr) : option (value * addr) :=
  match t with
  | Json j => Some (parse j n)
  | Plain _ => None
  end.

Definition isEmptyText (t : text) : bool :=
  match t with
  | Json _ => false
  | Plain s => String.eqb s ""
  end.

(** A parameter that is left out or [undefined] takes its default. *)
Definition orDefault (d v : value) : value :=
  match v with
  | VUndef => d
  | _ => v
  end.

Definition prefixedKey (namespace key : string) : string :=
  namespace ++ "_" ++ key.

Definition defaultNamespace : string := "toolbelt".

Section Platform.

(** Whether the browser accepts an item, given what it holds: when it
    does not, [setItem] throws. *)
Variable accepts : string -> text -> list (string * text) -> bool.

Definition setItem (k : string) (t : text) (p : page) : option page :=
  if accepts k t (items p) then Some (withItems (assocSet k t (items p)) p)
  else None.

(** The methods of a [ToolBeltStorage] whose [namespace] is given. *)
Definition save (namespace key : string) (data : value) (p : page)
  : bool * page :=
  match setItem (prefixedKey namespace key) (stringifyText data) p with
  | Some p' => (true, p')
  | None =>
      let p1 := say "Failed to save to localStorage:" p in
      (false,
       if notifier p1
       then withNotifications
              (notifications p1
                 ++ [("Failed to save data. Storage may be full.", "warning")])%list
              p1
       else p1)
  end.

Definition load (namespace key : string) (defaultValue : value) (p : page)
  : value * page :=
  let defaultValue := orDefault VNull defaultValue in
  match getItem (prefixedKey namespace key) p with
  | None => (defaultValue, p)
  | Some saved =>
      if isEmptyText saved then (defaultValue, p)
      else
        match parseText saved (heapNext p) with
        | Some (v, n) => (v, withHeapNext n p)
        | None => (defaultValue, say "Failed to load from localStorage:" p)
        end
  end.

Definition remove (namespace key : string) (p : page) : bool * page :=
  (true, removeItem (prefixedKey namespace key) p).

Definition clear (namespace : string) (p : page) : bool * page :=
  let keysToRemove :=
    filter (fun key => negb (String.eqb key "")
                       && String.prefix (namespace ++ "_") key)
      (map fst (items p)) in
  (true, fold_left (fun q key => removeItem key q) keysToRemove p).

(** [ToolBeltUI.trackToolUsage], [timestamp] being the time of the
    call. *)
Definition analyticsKey : string := "toolbelt_analytics".

Definition usageEntry (a : addr) (toolName timestamp : string) (p : page)
  : value :=
  VObj a [("tool", VStr toolName); ("timestamp", VStr timestamp);
          ("userAgent", VStr (userAgent p)); ("referrer", VStr (referrer p))].

Definition lastHundred (es : list value) : list value :=
  if (100 <? List.length es)%nat then skipn (List.length es - 100) es else es.

Definition trackToolUsage (toolName timestamp : string) (p : page) : page :=
  let p := say ("Tool accessed: " ++ toolName ++ " at " ++ timestamp) p in
  let p := if gtag p
           then withEvents (events p ++ [("tool_access", toolName, timestamp)])%list p
           else p in
  let failed := say "Failed to store analytics:" in
  let saved := match getItem analyticsKey p with
               | None => Json (JArr [])
               | Some t => if isEmptyText t then Json (JArr []) else t
               end in
  match parseText saved (heapNext p) with
  | None => failed p
  | Some (analytics, n) =>
      let p := withHeapNext n p in
      match analytics with
      | VArr a es ps =>
          let entry := usageEntry (heapNext p) toolName timestamp p in
          let p := withHeapNext (S (heapNext p)) p in
          let analytics := VArr a (lastHundred (es ++ [entry])) ps in
          match setItem analyticsKey (stringifyText analytics) p with
          | Some p' => p'
          | None => failed p
          end
      | _ => failed p
      end
  end.

End Platform.

End ToolBeltStorage.

(* ================================================================== *)
(** * Properties *)

Import JS EditorState Diagram.
Module E := FlowchartEditor.
Module C := FlowchartCanvas.
Module G := Geometry.

(** ** Property lists *)

Lemma lookup_assocSet_same {V} (k : string) (x : V) ps :
  lookup k (assocSet k x ps) = Some x.
Proof.
  induction ps as [|[k' v] ps IH]; simpl.
  - now rewrite String.eqb_refl.
  - destruct (String.eqb k k') eqn:E; simpl.
    + now rewrite String.eqb_refl.
    + now rewrite E.
Qed.

Lemma lookup_assocSet_other {V} (k k' : string) (x : V) ps :
  String.eqb k k' = false ->
  lookup k (assocSet k' x ps) = lookup k ps.
Proof.
  intros Hne. induction ps as [|[k'' v] ps IH]; simpl.
  - now rewrite Hne.
  - destruct (String.eqb k' k'') eqn:E; simpl.
    + apply String.eqb_eq in E. subst k''. now rewrite Hne.
    + destruct (String.eqb k k''); auto.
Qed.

Lemma assocSet_assocSet {V} (k : string) (x y : V) ps :
  assocSet k y (assocSet k x ps) = assocSet k y ps.
Proof.
  induction ps as [|[k' v] ps IH]; simpl.
  - now rewrite String.eqb_refl.
  - destruct (String.eqb k k') eqn:E; simpl.
    + now rewrite String.eqb_refl.
    + now rewrite E, IH.
Qed.

Lemma assocSet_values {V} (P : V -> Prop) (k : string) (x : V) ps :
  P x -> Forall (fun p => P (snd p)) ps ->
  Forall (fun p => P (snd p)) (assocSet k x ps).
Proof.
  intros Hx. induction 1 as [|[k' v] ps Hv Hps IH]; simpl.
  - constructor; auto.
  - destruct (String.eqb k k'); constructor; auto.
Qed.

Lemma nth_setNth_same {A} (i : nat) (x d : A) l :
  i < List.length l -> nth i (setNth i x l) d = x.
Proof.
  revert i. induction l as [|y l IH]; intros [|i] H; simpl in *; try lia; auto.
  apply IH. lia.
Qed.

Lemma nth_setNth_other {A} (i j : nat) (x d : A) l :
  i <> j -> nth j (setNth i x l) d = nth j l d.
Proof.
  revert i j. induction l as [|y l IH]; intros [|i] [|j] H; simpl; auto;
    congruence.
Qed.

Lemma length_setNth {A} (i : nat) (x : A) l :
  List.length (setNth i x l) = List.length l.
Proof.
  revert i. induction l as [|y l IH]; intros [|i]; simpl; auto.
Qed.

(** ** Running the monad *)

Lemma bind_ok {A B} (m : M A) (k : A -> M B) s a s' :
  m s = (Ok a, s') -> bind m k s = k a s'.
Proof. intros H. unfold bind. now rewrite H. Qed.

Lemma bind_throw {A B} (m : M A) (k : A -> M B) s e s' :
  m s = (Throw e, s') -> bind m k s = (Throw e, s').
Proof. intros H. unfold bind. now rewrite H. Qed.

(** ** Reading and writing the active section *)

Lemma sectionOf_inv d c sps :
  sectionOf d = Some (c, sps) ->
  exists a ps b rest bps,
    d = VObj a ps /\
    lookup "flowcharts" ps = Some (VArr b (VObj c sps :: rest) bps).
Proof.
  unfold sectionOf. destruct d as [| | | | |a es ps|a ps]; try discriminate.
  destruct (lookup "flowcharts" ps) as [[| | | | |b [|[| | | | | |c' sps'] rest] bps|]|] eqn:E;
    try discriminate.
  intros H. inversion H; subst. now exists a, ps, b, rest, bps.
Qed.

Lemma sectionOf_withSection f d c sps :
  sectionOf d = Some (c, sps) ->
  sectionOf (withSection f d) = Some (c, f sps).
Proof.
  intros H. destruct (sectionOf_inv _ _ _ H) as (a & ps & b & rest & bps & -> & Hf).
  unfold withSection. rewrite Hf. simpl. now rewrite lookup_assocSet_same.
Qed.

Lemma withSection_withSection f g d c sps :
  sectionOf d = Some (c, sps) ->
  withSection g (withSection f d) = withSection (fun x => g (f x)) d.
Proof.
  intros H. destruct (sectionOf_inv _ _ _ H) as (a & ps & b & rest & bps & -> & Hf).
  unfold withSection. rewrite Hf. cbn beta iota. rewrite lookup_assocSet_same.
  now rewrite assocSet_assocSet.
Qed.

Lemma getCurrentFlowchart_section s c sps :
  sectionOf (data s) = Some (c, sps) ->
  getCurrentFlowchart s = (Ok [KProp "flowcharts"; KIdx 0], s).
Proof.
  intros H. destruct (sectionOf_inv _ _ _ H) as (a & ps & b & rest & bps & Hd & Hf).
  unfold getCurrentFlowchart, bind, gets, liftO, ret. rewrite Hd. simpl.
  rewrite Hf. reflexivity.
Qed.

Lemma deref_section d c sps q :
  sectionOf d = Some (c, sps) ->
  deref (KProp "flowcharts" :: KIdx 0 :: q) d = deref q (VObj c sps).
Proof.
  intros H. destruct (sectionOf_inv _ _ _ H) as (a & ps & b & rest & bps & -> & Hf).
  simpl. rewrite Hf. reflexivity.
Qed.

Lemma storeAt_section d c sps sps' q x :
  sectionOf d = Some (c, sps) ->
  storeAt q x (VObj c sps) = VObj c sps' ->
  storeAt (KProp "flowcharts" :: KIdx 0 :: q) x d = withSection (fun _ => sps') d.
Proof.
  intros H E. destruct (sectionOf_inv _ _ _ H) as (a & ps & b & rest & bps & -> & Hf).
  unfold withSection. rewrite Hf.
  simpl. unfold child. simpl. rewrite Hf. simpl. rewrite E. reflexivity.
Qed.

Section ActiveSection.

Variables (s : editor) (c : addr) (sps : fields).
Hypothesis Hsec : sectionOf (data s) = Some (c, sps).

Lemma readAt_section :
  readAt [KProp "flowcharts"; KIdx 0] s = (Ok (VObj c sps), s).
Proof.
  unfold readAt, bind, gets, liftO. now rewrite (deref_section _ _ _ [] Hsec).
Qed.

Lemma readAt_section_prop k :
  readAt [KProp "flowcharts"; KIdx 0; KProp k] s = (Ok (orUndef (lookup k sps)), s).
Proof.
  unfold readAt, bind, gets, liftO. now rewrite (deref_section _ _ _ _ Hsec).
Qed.

Lemma readProp_section k :
  readProp [KProp "flowcharts"; KIdx 0] k s = (Ok (orUndef (lookup k sps)), s).
Proof.
  unfold readProp. rewrite (bind_ok _ _ _ _ _ readAt_section). reflexivity.
Qed.

Lemma writeProp_section k x :
  writeProp [KProp "flowcharts"; KIdx 0] k x s =
  (Ok tt, withData (withSection (assocSet k x) (data s)) s).
Proof.
  unfold writeProp. rewrite (bind_ok _ _ _ _ _ readAt_section).
  unfold bind, liftO, modify. simpl setProp. cbv beta iota.
  rewrite (storeAt_section _ _ _ (assocSet k x sps) [] _ Hsec) by reflexivity.
  f_equal. f_equal.
  destruct (sectionOf_inv _ _ _ Hsec) as (a & ps & b & rest & bps & Hd & Hf).
  rewrite Hd. unfold withSection. now rewrite Hf.
Qed.

Lemma readAt_section_elem k i a es p :
  lookup k sps = Some (VArr a es p) ->
  readAt [KProp "flowcharts"; KIdx 0; KProp k; KIdx i] s = (Ok (nth i es VUndef), s).
Proof.
  intros Hk. unfold readAt, bind, gets, liftO.
  rewrite (deref_section _ _ _ _ Hsec). simpl. now rewrite Hk.
Qed.

Lemma readAt_section_elem_prop k i k' a es p na nps :
  lookup k sps = Some (VArr a es p) ->
  nth i es VUndef = VObj na nps ->
  readAt [KProp "flowcharts"; KIdx 0; KProp k; KIdx i; KProp k'] s =
  (Ok (orUndef (lookup k' nps)), s).
Proof.
  intros Hk Hn. unfold readAt, bind, gets, liftO.
  rewrite (deref_section _ _ _ _ Hsec). simpl. rewrite Hk. simpl. now rewrite Hn.
Qed.

Lemma storeAt_section_elem k i a es p x :
  lookup k sps = Some (VArr a es p) ->
  storeAt [KProp "flowcharts"; KIdx 0; KProp k; KIdx i] x (data s) =
  withSection (assocSet k (VArr a (setNth i x es) p)) (data s).
Proof.
  intros Hk.
  rewrite (storeAt_section _ _ _ (assocSet k (VArr a (setNth i x es) p) sps) _ _ Hsec).
  - destruct (sectionOf_inv _ _ _ Hsec) as (a0 & ps & b & rest & bps & Hd & Hf).
    rewrite Hd. unfold withSection. now rewrite Hf.
  - simpl. unfold child. simpl. now rewrite Hk.
Qed.

End ActiveSection.

Section ActiveArrays.
Variables (s : editor) (c : addr) (sps : fields).
Hypothesis Hsec : sectionOf (data s) = Some (c, sps).
Lemma push_section k a es p x :
  lookup k sps = Some (VArr a es p) ->
  push [KProp "flowcharts"; KIdx 0; KProp k] x s =
  (Ok tt, withData (withSection (assocSet k (VArr a (es ++ [x])%list p)) (data s)) s).
Proof.
  intros Hk. unfold push. rewrite (bind_ok _ _ _ _ _ (readAt_section_prop s c sps Hsec k)).
  rewrite Hk. cbv beta iota delta [orUndef modify].
  rewrite (storeAt_section _ _ _ (assocSet k (VArr a (es ++ [x])%list p) sps) _ _ Hsec).
  - destruct (sectionOf_inv _ _ _ Hsec) as (a0 & ps & b & rest & bps & Hd & Hf).
    rewrite Hd. unfold withSection. now rewrite Hf.
  - reflexivity.
Qed.

Lemma filterArr_section k a es p pred kept :
  lookup k sps = Some (VArr a es p) ->
  filterO pred es = Ok kept ->
  filterArr [KProp "flowcharts"; KIdx 0; KProp k] pred s =
  (Ok (VArr (heapNext s) kept []), withHeapNext (S (heapNext s)) s).
Proof.
  intros Hk Hf. unfold filterArr. rewrite (bind_ok _ _ _ _ _ (readAt_section_prop s c sps Hsec k)).
  rewrite Hk. cbv beta iota delta [orUndef bind liftO alloc gets modify ret arrayElems].
  rewrite Hf. reflexivity.
Qed.

End ActiveArrays.

(** ** Finding an element by identifier *)

Lemma getProp_object k v :
  isObject v = true -> getProp k v = Ok (propOf k v).
Proof. destruct v; simpl; try discriminate; auto. Qed.

Lemma findO_indexOf k id es j :
  Forall (fun n => isObject n = true) es ->
  findO (fun n => obind (getProp k n) (fun x => Ok (strictEq x id))) es j =
  Ok (option_map (fun i => j + i) (indexOf k id es)).
Proof.
  intros H. revert j. induction H as [|e es He Hes IH]; intros j; simpl.
  - reflexivity.
  - rewrite (getProp_object _ _ He). simpl.
    destruct (strictEq (propOf k e) id).
    + simpl. now rewrite Nat.add_0_r.
    + rewrite IH. destruct (indexOf k id es); simpl; auto.
      now rewrite Nat.add_succ_r.
Qed.

Lemma indexOf_Some k id es i :
  indexOf k id es = Some i ->
  i < List.length es /\ strictEq (propOf k (nth i es VUndef)) id = true.
Proof.
  revert i. induction es as [|e es IH]; simpl; intros i H; try discriminate.
  destruct (strictEq (propOf k e) id) eqn:E.
  - inversion H; subst. split; [lia | assumption].
  - destruct (indexOf k id es) as [j|]; try discriminate.
    inversion H; subst. destruct (IH j eq_refl). split; [lia | assumption].
Qed.

Lemma indexOf_None k id es :
  indexOf k id es = None <->
  Forall (fun e => strictEq (propOf k e) id = false) es.
Proof.
  induction es as [|e es IH]; simpl.
  - split; auto.
  - destruct (strictEq (propOf k e) id) eqn:E.
    + split; [discriminate | intros H; inversion H; congruence].
    + destruct (indexOf k id es).
      * split; [discriminate |].
        intros H. inversion H; subst.
        assert (X : Some n = None) by now apply IH. discriminate.
      * split; auto. intros _. constructor; auto. now apply IH.
Qed.

Lemma Forall_nth_object es i :
  Forall (fun n => isObject n = true) es ->
  i < List.length es ->
  exists a ps, nth i es VUndef = VObj a ps.
Proof.
  intros H. revert i. induction H as [|e es He Hes IH]; intros [|i] Hi; simpl in *;
    try lia.
  - destruct e; try discriminate. eauto.
  - apply IH. lia.
Qed.

Section ShapedStore.

Variables (s : editor) (c : addr) (sps : fields).
Hypothesis Hsec : sectionOf (data s) = Some (c, sps).

Lemma findBy_section k a es p key id :
  lookup k sps = Some (VArr a es p) ->
  Forall (fun n => isObject n = true) es ->
  findBy [KProp "flowcharts"; KIdx 0; KProp k] key id s =
  (Ok (option_map (fun i => [KProp "flowcharts"; KIdx 0; KProp k; KIdx i])
         (indexOf key id es)), s).
Proof.
  intros Hk Hes. unfold findBy.
  rewrite (bind_ok _ _ _ _ _ (readAt_section_prop s c sps Hsec k)).
  rewrite Hk. cbv beta iota delta [orUndef bind liftO arrayElems ret].
  rewrite (findO_indexOf _ _ _ 0 Hes).
  destruct (indexOf key id es); reflexivity.
Qed.

Lemma findNodeById_section a es p id :
  lookup "nodes" sps = Some (VArr a es p) ->
  Forall (fun n => isObject n = true) es ->
  findNodeById id s =
  (Ok (option_map (fun i => [KProp "flowcharts"; KIdx 0; KProp "nodes"; KIdx i])
         (indexOf "id" id es)), s).
Proof.
  intros Hk Hes. unfold findNodeById.
  rewrite (bind_ok _ _ _ _ _ (getCurrentFlowchart_section s c sps Hsec)).
  apply (findBy_section "nodes" a es p "id" id Hk Hes).
Qed.

Lemma findConnectionById_section a es p id :
  lookup "connections" sps = Some (VArr a es p) ->
  Forall (fun n => isObject n = true) es ->
  findConnectionById id s =
  (Ok (option_map (fun i => [KProp "flowcharts"; KIdx 0; KProp "connections"; KIdx i])
         (indexOf "id" id es)), s).
Proof.
  intros Hk Hes. unfold findConnectionById.
  rewrite (bind_ok _ _ _ _ _ (getCurrentFlowchart_section s c sps Hsec)).
  apply (findBy_section "connections" a es p "id" id Hk Hes).
Qed.

Lemma updateStats_section an ns np ac cs cp :
  lookup "nodes" sps = Some (VArr an ns np) ->
  lookup "connections" sps = Some (VArr ac cs cp) ->
  E.updateStats s = (Ok tt, s).
Proof.
  intros Hn Hc. unfold E.updateStats.
  rewrite (bind_ok _ _ _ _ _ (getCurrentFlowchart_section s c sps Hsec)).
  rewrite (bind_ok _ _ _ _ _ (readProp_section s c sps Hsec "nodes")).
  rewrite Hn.
  rewrite (bind_ok _ _ _ (VNum (inject_Z (Z.of_nat (List.length ns)))) s) by reflexivity.
  rewrite (bind_ok _ _ _ _ _ (readProp_section s c sps Hsec "connections")).
  rewrite Hc.
  rewrite (bind_ok _ _ _ (VNum (inject_Z (Z.of_nat (List.length cs)))) s) by reflexivity.
  reflexivity.
Qed.

End ShapedStore.

Lemma sectionOf_withData f s c sps :
  sectionOf (data s) = Some (c, sps) ->
  sectionOf (data (withData (withSection f (data s)) s)) = Some (c, f sps).
Proof. intros H. simpl. now apply sectionOf_withSection. Qed.

Ltac editor_simpl :=
  cbv beta iota delta
      [withData withSelectedElement withConnectionInProgress withNextNodeId
       withNextConnectionId withNextQuestionId withHeapNext withNotifications
       withConsole];
  cbn [data selectedElement connectionInProgress nextNodeId nextConnectionId
       nextQuestionId heapNext notifier notifications console List.app].

Ltac monad_simpl :=
  cbv beta iota zeta delta [bind gets modify alloc ret liftO];
  editor_simpl.

Lemma renderNode_literal a b m id type x y s :
  C.renderNode (E.nodeLiteral a b m id type x y) s = (Ok tt, s).
Proof. reflexivity. Qed.


Ltac solve_section :=
  repeat (apply sectionOf_withSection); eassumption.

Ltac solve_lookup :=
  repeat (rewrite lookup_assocSet_other by reflexivity);
  first [ apply lookup_assocSet_same | eassumption ].

Lemma filterO_objects (p : value -> outcome bool) (q : value -> bool) es :
  (forall e, isObject e = true -> p e = Ok (q e)) ->
  Forall (fun n => isObject n = true) es ->
  filterO p es = Ok (filter q es).
Proof.
  intros Hp H. induction H as [|e es He Hes IH]; simpl.
  - reflexivity.
  - rewrite (Hp e He), IH. simpl. destruct (q e); reflexivity.
Qed.

Lemma forEach_ok {A} (f : A -> M unit) (P : A -> Prop) l s :
  (forall x, P x -> f x s = (Ok tt, s)) ->
  Forall P l ->
  forEach f l s = (Ok tt, s).
Proof.
  intros Hf H. induction H as [|x l Hx Hl IH]; simpl.
  - reflexivity.
  - rewrite (bind_ok _ _ _ _ _ (Hf x Hx)). exact IH.
Qed.

Lemma Forall_filter {A} (P : A -> Prop) (q : A -> bool) l :
  Forall P l -> Forall P (filter q l).
Proof.
  induction 1 as [|x l Hx Hl IH]; simpl; auto.
  destruct (q x); auto.
Qed.

Section ShapedReads.

Variables (s : editor) (c : addr) (sps : fields).
Variables (an : addr) (ns : list value) (np : fields).
Variables (ac : addr) (cs : list value) (cp : fields).
Hypothesis Hsec : sectionOf (data s) = Some (c, sps).
Hypothesis Hn : lookup "nodes" sps = Some (VArr an ns np).
Hypothesis Hc : lookup "connections" sps = Some (VArr ac cs cp).
Hypothesis Hns : Forall (fun n => isObject n = true) ns.
Hypothesis Hcs : Forall (fun n => isObject n = true) cs.

Lemma renderConnection_shaped cd :
  isObject cd = true -> C.renderConnection cd s = (Ok tt, s).
Proof.
  intros Hcd. unfold C.renderConnection.
  rewrite (bind_ok _ _ _ (propOf "from" cd) s)
    by (unfold liftO; now rewrite getProp_object).
  erewrite bind_ok by (eapply findNodeById_section; eassumption).
  rewrite (bind_ok _ _ _ (propOf "to" cd) s)
    by (unfold liftO; now rewrite getProp_object).
  erewrite bind_ok by (eapply findNodeById_section; eassumption).
  reflexivity.
Qed.

Lemma updateConnection_shaped cd :
  isObject cd = true -> C.updateConnection cd s = (Ok tt, s).
Proof. exact (renderConnection_shaped cd). Qed.

Lemma updateNodeConnections_shaped id :
  C.updateNodeConnections id s = (Ok tt, s).
Proof.
  unfold C.updateNodeConnections.
  erewrite bind_ok by (eapply getCurrentFlowchart_section; eassumption).
  erewrite bind_ok by (eapply readProp_section; eassumption).
  rewrite Hc. cbn [orUndef].
  rewrite (bind_ok _ _ _ cs s) by reflexivity.
  rewrite (bind_ok _ _ _ (filter (touches id) cs) s).
  - apply (forEach_ok _ (fun n => isObject n = true)).
    + apply updateConnection_shaped.
    + now apply Forall_filter.
  - unfold liftO. f_equal. apply filterO_objects; auto.
    intros e He. rewrite (getProp_object _ _ He). cbn [obind]. unfold touches.
    destruct (strictEq (propOf "from" e) id); cbn [orb]; auto.
    now rewrite (getProp_object _ _ He).
Qed.

End ShapedReads.

Section Shaped.

Variables (s : editor) (c : addr) (sps : fields).
Variables (an : addr) (ns : list value) (np : fields).
Variables (ac : addr) (cs : list value) (cp : fields).
Hypothesis Hsec : sectionOf (data s) = Some (c, sps).
Hypothesis Hn : lookup "nodes" sps = Some (VArr an ns np).
Hypothesis Hc : lookup "connections" sps = Some (VArr ac cs cp).
Hypothesis Hns : Forall (fun n => isObject n = true) ns.
Hypothesis Hcs : Forall (fun n => isObject n = true) cs.

Lemma addNode_shaped type x y :
  let h := heapNext s in
  let node := E.nodeLiteral h (S h) (S (S h))
                (VStr ("node-" ++ showN (nextNodeId s))) type x y in
  E.addNode type x y s =
  (Ok node,
   withData (withSection (assocSet "nodes" (VArr an (ns ++ [node])%list np)) (data s))
     (withHeapNext (S (S (S h))) (withNextNodeId (nextNodeId s + 1) s))).
Proof.
  intros h node. subst h node. unfold E.addNode.
  destruct s as [d sel cip nn nc nq hn nt nts con]. simpl in Hsec. monad_simpl.
  erewrite (getCurrentFlowchart_section _ c sps) by exact Hsec. monad_simpl.
  erewrite (push_section _ c sps) by eassumption. monad_simpl.
  rewrite renderNode_literal.
  erewrite (updateStats_section _ c (assocSet "nodes" _ sps)).
  - reflexivity.
  - apply sectionOf_withSection. exact Hsec.
  - apply lookup_assocSet_same.
  - rewrite lookup_assocSet_other by reflexivity. exact Hc.
Qed.

Lemma addConnection_shaped f t label :
  let h := heapNext s in
  let label' := match label with VUndef => VStr "" | _ => label end in
  let conn := E.connectionLiteral h (S h)
                (VStr ("conn-" ++ showN (nextConnectionId s))) f t label' in
  E.addConnection f t label s =
  (Ok conn,
   withData (withSection (assocSet "connections" (VArr ac (cs ++ [conn])%list cp)) (data s))
     (withHeapNext (S (S h)) (withNextConnectionId (nextConnectionId s + 1) s))).
Proof.
  intros h label' conn. subst h label' conn. unfold E.addConnection.
  destruct s as [d sel cip nn nc nq hn nt nts con]. simpl in Hsec. monad_simpl.
  erewrite (getCurrentFlowchart_section _ c sps) by exact Hsec. monad_simpl.
  erewrite (push_section _ c sps) by eassumption. monad_simpl.
  erewrite (renderConnection_shaped _ c (assocSet "connections" _ sps) an ns np);
    [ | apply sectionOf_withSection; exact Hsec | solve_lookup | assumption
      | reflexivity ].
  erewrite (updateStats_section _ c (assocSet "connections" _ sps));
    [ reflexivity | apply sectionOf_withSection; exact Hsec | solve_lookup | solve_lookup ].
Qed.

Lemma deleteNode_shaped id :
  let h := heapNext s in
  E.deleteNode id s =
  (Ok tt,
   withData
     (withSection
        (fun x => assocSet "connections" (VArr (S h) (filter (keepsConnection id) cs) [])
                    (assocSet "nodes" (VArr h (filter (keepsNode id) ns) []) x))
        (data s))
     (withHeapNext (S (S h)) s)).
Proof.
  intros h. subst h. unfold E.deleteNode.
  destruct s as [d sel cip nn nc nq hn nt nts con]. simpl in Hsec.
  erewrite bind_ok by (eapply (getCurrentFlowchart_section _ c sps); exact Hsec).
  cbn [List.app].
  erewrite bind_ok.
  2:{ eapply (filterArr_section _ c sps); [exact Hsec | exact Hn |].
      apply (filterO_objects _ (keepsNode id)); auto.
      intros e He. now rewrite (getProp_object _ _ He). }
  erewrite bind_ok by (eapply (writeProp_section _ c sps); exact Hsec).
  editor_simpl.
  erewrite bind_ok.
  2:{ eapply (filterArr_section _ c (assocSet "nodes" _ sps));
        [apply sectionOf_withSection; exact Hsec | solve_lookup |].
      apply (filterO_objects _ (keepsConnection id)); auto.
      intros e He. rewrite (getProp_object _ _ He). cbn [obind]. unfold keepsConnection.
      destruct (strictNeq (propOf "from" e) id); cbn [andb]; auto.
      now rewrite (getProp_object _ _ He). }
  editor_simpl.
  erewrite bind_ok
    by (eapply (writeProp_section _ c (assocSet "nodes" _ sps));
        apply sectionOf_withSection; exact Hsec).
  editor_simpl.
  rewrite (withSection_withSection _ _ _ _ _ Hsec).
  erewrite (updateStats_section _ c _);
    [ reflexivity
    | apply (sectionOf_withSection _ _ _ _ Hsec)
    | cbv beta; solve_lookup
    | cbv beta; solve_lookup ].
Qed.

Lemma deleteConnection_shaped id :
  let h := heapNext s in
  E.deleteConnection id s =
  (Ok tt,
   withData
     (withSection
        (assocSet "connections" (VArr h (filter (keepsNode id) cs) []))
        (data s))
     (withHeapNext (S h) s)).
Proof.
  intros h. subst h. unfold E.deleteConnection.
  destruct s as [d sel cip nn nc nq hn nt nts con]. simpl in Hsec.
  erewrite bind_ok by (eapply (getCurrentFlowchart_section _ c sps); exact Hsec).
  cbn [List.app].
  erewrite bind_ok.
  2:{ eapply (filterArr_section _ c sps); [exact Hsec | exact Hc |].
      apply (filterO_objects _ (keepsNode id)); auto.
      intros e He. now rewrite (getProp_object _ _ He). }
  erewrite bind_ok by (eapply (writeProp_section _ c sps); exact Hsec).
  editor_simpl.
  erewrite (updateStats_section _ c _);
    [ reflexivity
    | apply (sectionOf_withSection _ _ _ _ Hsec)
    | solve_lookup
    | solve_lookup ].
Qed.

End Shaped.

Lemma setNth_setNth {A} (i : nat) (x y : A) l :
  setNth i y (setNth i x l) = setNth i y l.
Proof.
  revert i. induction l as [|z l IH]; intros [|i]; simpl; auto.
  now rewrite IH.
Qed.

Lemma withSection_ext f g d c sps :
  sectionOf d = Some (c, sps) ->
  f sps = g sps ->
  withSection f d = withSection g d.
Proof.
  intros H E. destruct (sectionOf_inv _ _ _ H) as (a & ps & b & rest & bps & -> & Hf).
  unfold withSection. rewrite Hf. now rewrite E.
Qed.

Lemma whenFound_some r v body s :
  readAt r s = (Ok v, s) -> truthy v = true ->
  whenFound (Some r) body s = body r s.
Proof.
  intros Hr Ht. unfold whenFound. rewrite (bind_ok _ _ _ _ _ Hr). now rewrite Ht.
Qed.

Section ElementWrites.

Variables (s : editor) (c : addr) (sps : fields).
Variables (k : string) (a : addr) (es : list value) (p : fields).
Variables (i : nat) (na : addr) (nps : fields).
Hypothesis Hsec : sectionOf (data s) = Some (c, sps).
Hypothesis Hk : lookup k sps = Some (VArr a es p).
Hypothesis Hi : nth i es VUndef = VObj na nps.

Lemma writeProp_section_elem k' x :
  writeProp [KProp "flowcharts"; KIdx 0; KProp k; KIdx i] k' x s =
  (Ok tt,
   withData (withSection
               (assocSet k (VArr a (setNth i (VObj na (assocSet k' x nps)) es) p))
               (data s)) s).
Proof.
  unfold writeProp.
  rewrite (bind_ok _ _ _ _ _ (readAt_section_elem s c sps Hsec k i a es p Hk)).
  rewrite Hi. cbv beta iota delta [bind liftO setProp modify].
  now rewrite (storeAt_section_elem s c sps Hsec k i a es p _ Hk).
Qed.

Lemma writeProp_section_elem_sub sub ma mps k' x :
  lookup sub nps = Some (VObj ma mps) ->
  writeProp [KProp "flowcharts"; KIdx 0; KProp k; KIdx i; KProp sub] k' x s =
  (Ok tt,
   withData (withSection
               (assocSet k
                  (VArr a (setNth i
                             (VObj na (assocSet sub (VObj ma (assocSet k' x mps)) nps))
                             es) p))
               (data s)) s).
Proof.
  intros Hsub. unfold writeProp.
  rewrite (bind_ok _ _ _ _ _
             (readAt_section_elem_prop s c sps Hsec k i sub a es p na nps Hk Hi)).
  rewrite Hsub. cbv beta iota delta [bind liftO setProp modify orUndef].
  f_equal. f_equal.
  rewrite (storeAt_section _ _ _
             (assocSet k
                (VArr a (setNth i
                           (VObj na (assocSet sub (VObj ma (assocSet k' x mps)) nps))
                           es) p) sps) _ _ Hsec).
  - destruct (sectionOf_inv _ _ _ Hsec) as (a0 & ps & b & rest & bps & Hd & Hf).
    rewrite Hd. unfold withSection. now rewrite Hf.
  - simpl. unfold child. simpl. rewrite Hk. simpl. rewrite Hi. reflexivity.
Qed.

End ElementWrites.

Lemma Forall_setNth {A} (P : A -> Prop) (i : nat) (x : A) l :
  Forall P l -> P x -> Forall P (setNth i x l).
Proof.
  intros H Hx. revert i. induction H as [|y l Hy Hl IH]; intros [|i]; simpl; auto.
Qed.

Lemma indexOf_object k id es i :
  Forall (fun n => isObject n = true) es ->
  indexOf k id es = Some i ->
  exists a ps, nth i es VUndef = VObj a ps.
Proof.
  intros H Hi. apply Forall_nth_object; auto.
  now destruct (indexOf_Some _ _ _ _ Hi).
Qed.

(** *** Updates of an element that is not found *)

Section Missing.

Variables (s : editor) (c : addr) (sps : fields).
Variables (an : addr) (ns : list value) (np : fields).
Variables (ac : addr) (cs : list value) (cp : fields).
Hypothesis Hsec : sectionOf (data s) = Some (c, sps).
Hypothesis Hn : lookup "nodes" sps = Some (VArr an ns np).
Hypothesis Hc : lookup "connections" sps = Some (VArr ac cs cp).
Hypothesis Hns : Forall (fun n => isObject n = true) ns.
Hypothesis Hcs : Forall (fun n => isObject n = true) cs.

Variable id : value.

Lemma findNodeById_missing :
  indexOf "id" id ns = None -> findNodeById id s = (Ok None, s).
Proof.
  intros H. rewrite (findNodeById_section s c sps Hsec an ns np id Hn Hns).
  now rewrite H.
Qed.

Lemma findConnectionById_missing :
  indexOf "id" id cs = None -> findConnectionById id s = (Ok None, s).
Proof.
  intros H. rewrite (findConnectionById_section s c sps Hsec ac cs cp id Hc Hcs).
  now rewrite H.
Qed.

Lemma updateNodePosition_missing x y :
  indexOf "id" id ns = None -> E.updateNodePosition id x y s = (Ok tt, s).
Proof.
  intros H. unfold E.updateNodePosition.
  now rewrite (bind_ok _ _ _ _ _ (findNodeById_missing H)).
Qed.

Lemma updateNodeText_missing text :
  indexOf "id" id ns = None -> E.updateNodeText id text s = (Ok tt, s).
Proof.
  intros H. unfold E.updateNodeText.
  now rewrite (bind_ok _ _ _ _ _ (findNodeById_missing H)).
Qed.

Lemma updateNodeType_missing type :
  indexOf "id" id ns = None -> E.updateNodeType id type s = (Ok tt, s).
Proof.
  intros H. unfold E.updateNodeType.
  now rewrite (bind_ok _ _ _ _ _ (findNodeById_missing H)).
Qed.

Lemma updateNodeStatus_missing status :
  indexOf "id" id ns = None -> E.updateNodeStatus id status s = (Ok tt, s).
Proof.
  intros H. unfold E.updateNodeStatus.
  now rewrite (bind_ok _ _ _ _ _ (findNodeById_missing H)).
Qed.

Lemma updateNodeNotes_missing notes :
  indexOf "id" id ns = None -> E.updateNodeNotes id notes s = (Ok tt, s).
Proof.
  intros H. unfold E.updateNodeNotes.
  now rewrite (bind_ok _ _ _ _ _ (findNodeById_missing H)).
Qed.

Lemma updateConnectionLabel_missing label :
  indexOf "id" id cs = None -> E.updateConnectionLabel id label s = (Ok tt, s).
Proof.
  intros H. unfold E.updateConnectionLabel.
  now rewrite (bind_ok _ _ _ _ _ (findConnectionById_missing H)).
Qed.

Lemma updateConnectionStyle_missing style :
  indexOf "id" id cs = None -> E.updateConnectionStyle id style s = (Ok tt, s).
Proof.
  intros H. unfold E.updateConnectionStyle.
  now rewrite (bind_ok _ _ _ _ _ (findConnectionById_missing H)).
Qed.

Lemma updateConnectionStatus_missing status :
  indexOf "id" id cs = None -> E.updateConnectionStatus id status s = (Ok tt, s).
Proof.
  intros H. unfold E.updateConnectionStatus.
  now rewrite (bind_ok _ _ _ _ _ (findConnectionById_missing H)).
Qed.

End Missing.

(** *** Updates of an element that is found *)

Section FoundNode.

Variables (s : editor) (c : addr) (sps : fields).
Variables (an : addr) (ns : list value) (np : fields).
Variables (ac : addr) (cs : list value) (cp : fields).
Hypothesis Hsec : sectionOf (data s) = Some (c, sps).
Hypothesis Hn : lookup "nodes" sps = Some (VArr an ns np).
Hypothesis Hc : lookup "connections" sps = Some (VArr ac cs cp).
Hypothesis Hns : Forall (fun n => isObject n = true) ns.
Hypothesis Hcs : Forall (fun n => isObject n = true) cs.

Variables (id : value) (i : nat) (na : addr) (nps : fields).
Hypothesis Hfind : indexOf "id" id ns = Some i.
Hypothesis Hi : nth i ns VUndef = VObj na nps.

Let nodeRef := [KProp "flowcharts"; KIdx 0; KProp "nodes"; KIdx i].

Lemma findNodeById_found : findNodeById id s = (Ok (Some nodeRef), s).
Proof.
  rewrite (findNodeById_section s c sps Hsec an ns np id Hn Hns).
  now rewrite Hfind.
Qed.

Lemma nodeRef_truthy body :
  whenFound (Some nodeRef) body s = body nodeRef s.
Proof.
  apply (whenFound_some _ (VObj na nps)); auto.
  unfold nodeRef. rewrite (readAt_section_elem s c sps Hsec "nodes" i an ns np Hn).
  now rewrite Hi.
Qed.

Lemma updateNodeText_found text :
  E.updateNodeText id text s =
  (Ok tt,
   withData (withSection
               (assocSet "nodes"
                  (VArr an (setNth i (VObj na (assocSet "text" text nps)) ns) np))
               (data s)) s).
Proof.
  unfold E.updateNodeText. rewrite (bind_ok _ _ _ _ _ findNodeById_found).
  rewrite nodeRef_truthy.
  apply (writeProp_section_elem s c sps "nodes" an ns np i na nps Hsec Hn Hi).
Qed.

Lemma updateNodeStatus_found ma mps status :
  lookup "metadata" nps = Some (VObj ma mps) ->
  E.updateNodeStatus id status s =
  (Ok tt,
   withData (withSection
               (assocSet "nodes"
                  (VArr an
                     (setNth i
                        (VObj na (assocSet "metadata"
                                    (VObj ma (assocSet "status" status mps)) nps))
                        ns) np))
               (data s)) s).
Proof.
  intros Hm. unfold E.updateNodeStatus. rewrite (bind_ok _ _ _ _ _ findNodeById_found).
  rewrite nodeRef_truthy.
  apply (writeProp_section_elem_sub s c sps "nodes" an ns np i na nps Hsec Hn Hi
           "metadata" ma mps "status" status Hm).
Qed.

Lemma updateNodeNotes_found ma mps notes :
  lookup "metadata" nps = Some (VObj ma mps) ->
  E.updateNodeNotes id notes s =
  (Ok tt,
   withData (withSection
               (assocSet "nodes"
                  (VArr an
                     (setNth i
                        (VObj na (assocSet "metadata"
                                    (VObj ma (assocSet "note" notes mps)) nps))
                        ns) np))
               (data s)) s).
Proof.
  intros Hm. unfold E.updateNodeNotes. rewrite (bind_ok _ _ _ _ _ findNodeById_found).
  rewrite nodeRef_truthy.
  apply (writeProp_section_elem_sub s c sps "nodes" an ns np i na nps Hsec Hn Hi
           "metadata" ma mps "note" notes Hm).
Qed.

End FoundNode.

Lemma nth_object_length es i a ps :
  nth i es VUndef = VObj a ps -> i < List.length es.
Proof.
  intros H. destruct (Nat.lt_ge_cases i (List.length es)) as [L|L]; auto.
  rewrite nth_overflow in H by assumption. discriminate.
Qed.

Section ElementSteps.

Variables (s : editor) (c : addr) (sps : fields).
Variables (k : string) (a : addr) (es : list value) (p : fields).
Variables (i : nat).
Hypothesis Hsec : sectionOf (data s) = Some (c, sps).
Hypothesis Hk : lookup k sps = Some (VArr a es p).
Hypothesis Hi : i < List.length es.

Local Abbreviation withElem := (Diagram.withElem s k a es p i).

Lemma withElem_section e :
  sectionOf (data (withElem e)) =
  Some (c, assocSet k (VArr a (setNth i e es) p) sps).
Proof. unfold Diagram.withElem. simpl. now apply sectionOf_withSection. Qed.

Lemma withElem_again e e' :
  withData (withSection (assocSet k (VArr a (setNth i e' (setNth i e es)) p))
              (data (withElem e))) (withElem e) = withElem e'.
Proof.
  destruct s as [d sel cip nn nc nq hn nt nts con].
  cbv [Diagram.withElem withData]. simpl in *.
  f_equal. rewrite (withSection_withSection _ _ _ _ _ Hsec).
  apply (withSection_ext _ _ _ _ _ Hsec).
  now rewrite assocSet_assocSet, setNth_setNth.
Qed.

Lemma readAt_withElem na nps :
  readAt [KProp "flowcharts"; KIdx 0; KProp k; KIdx i] (withElem (VObj na nps)) =
  (Ok (VObj na nps), withElem (VObj na nps)).
Proof.
  erewrite (readAt_section_elem _ c _ (withElem_section _) k i);
    [ | apply lookup_assocSet_same ].
  now rewrite nth_setNth_same.
Qed.

Lemma writeProp_withElem na nps k' x :
  writeProp [KProp "flowcharts"; KIdx 0; KProp k; KIdx i] k' x (withElem (VObj na nps)) =
  (Ok tt, withElem (VObj na (assocSet k' x nps))).
Proof.
  erewrite (writeProp_section_elem _ c _ k a _ p i na nps (withElem_section _));
    [ | apply lookup_assocSet_same | now rewrite nth_setNth_same ].
  now rewrite withElem_again.
Qed.

Lemma writeProp_withElem_sub na nps sub ma mps k' x :
  lookup sub nps = Some (VObj ma mps) ->
  writeProp [KProp "flowcharts"; KIdx 0; KProp k; KIdx i; KProp sub] k' x
    (withElem (VObj na nps)) =
  (Ok tt, withElem (VObj na (assocSet sub (VObj ma (assocSet k' x mps)) nps))).
Proof.
  intros Hsub.
  erewrite (writeProp_section_elem_sub _ c _ k a _ p i na nps (withElem_section _));
    [ | apply lookup_assocSet_same | now rewrite nth_setNth_same | exact Hsub ].
  now rewrite withElem_again.
Qed.

Lemma withElem_same :
  withElem (nth i es VUndef) = s.
Proof.
  unfold Diagram.withElem.
  assert (E : setNth i (nth i es VUndef) es = es).
  { clear Hk. revert i Hi. induction es as [|y l IH]; intros [|j] Hj; simpl in *;
      try lia; auto. f_equal. apply IH. lia. }
  rewrite E.
  destruct (sectionOf_inv _ _ _ Hsec) as (a0 & ps & b & rest & bps & Hd & Hf).
  destruct s as [d sel cip nn nc nq hn nt nts con]. simpl in *. subst d.
  unfold withData. simpl.
  f_equal. unfold withSection. rewrite Hf. f_equal.
  assert (X : forall (l : fields) kk v, lookup kk l = Some v -> assocSet kk v l = l).
  { clear. induction l as [|[k1 v1] l IH]; simpl; intros kk v H; try discriminate.
    destruct (String.eqb kk k1) eqn:E.
    - apply String.eqb_eq in E. subst. inversion H; subst. reflexivity.
    - f_equal. now apply IH. }
  rewrite (X sps k _ Hk). now apply X.
Qed.

End ElementSteps.

Section FoundNodeWrites.

Variables (s : editor) (c : addr) (sps : fields).
Variables (an : addr) (ns : list value) (np : fields).
Variables (ac : addr) (cs : list value) (cp : fields).
Hypothesis Hsec : sectionOf (data s) = Some (c, sps).
Hypothesis Hn : lookup "nodes" sps = Some (VArr an ns np).
Hypothesis Hc : lookup "connections" sps = Some (VArr ac cs cp).
Hypothesis Hns : Forall (fun n => isObject n = true) ns.
Hypothesis Hcs : Forall (fun n => isObject n = true) cs.

Variables (id : value) (i : nat) (na : addr) (nps : fields).
Hypothesis Hfind : indexOf "id" id ns = Some i.
Hypothesis Hi : nth i ns VUndef = VObj na nps.

Local Abbreviation nodeRef := [KProp "flowcharts"; KIdx 0; KProp "nodes"; KIdx i].
Local Abbreviation withNode := (withElem s "nodes" an ns np i).

Lemma withNode_start : withNode (VObj na nps) = s.
Proof.
  rewrite <- Hi.
  eapply withElem_same; try eassumption.
  exact (nth_object_length _ _ _ _ Hi).
Qed.

Lemma on_found_node body :
  findNodeById id s = (Ok (Some nodeRef), s) /\
  whenFound (Some nodeRef) body s = body nodeRef (withNode (VObj na nps)).
Proof.
  split.
  - apply (findNodeById_found s c sps an ns np Hsec Hn Hns id i Hfind).
  - rewrite (nodeRef_truthy s c sps an ns np Hsec Hn i na nps Hi).
    now rewrite withNode_start.
Qed.

Lemma updateNodePosition_found x y :
  E.updateNodePosition id x y s =
  (Ok tt, withNode (VObj na (assocSet "y" y (assocSet "x" x nps)))).
Proof.
  pose proof (nth_object_length _ _ _ _ Hi) as Hlen.
  unfold E.updateNodePosition.
  destruct (on_found_node (fun r =>
    writeProp r "x" x ;; writeProp r "y" y ;;
    n <- readAt r ;; C.updateNodePosition n)) as [F W].
  rewrite (bind_ok _ _ _ _ _ F), W.
  erewrite bind_ok by (eapply writeProp_withElem; eassumption).
  erewrite bind_ok by (eapply writeProp_withElem; eassumption).
  erewrite bind_ok by (eapply readAt_withElem; eassumption).
  unfold C.updateNodePosition.
  erewrite bind_ok by reflexivity.
  eapply (updateNodeConnections_shaped _ c _ an _ np ac cs cp).
  - eapply withElem_section; eassumption.
  - apply lookup_assocSet_same.
  - rewrite lookup_assocSet_other by reflexivity. exact Hc.
  - apply Forall_setNth; auto.
  - assumption.
Qed.

Lemma updateNodeType_found sa stps type :
  lookup "style" nps = Some (VObj sa stps) ->
  E.updateNodeType id type s =
  (Ok tt,
   withNode
     (VObj na
        (assocSet "height" (snd (E.getDefaultNodeSize type))
           (assocSet "width" (fst (E.getDefaultNodeSize type))
              (assocSet "style"
                 (VObj sa (assocSet "backgroundColor" (E.getDefaultNodeColor type) stps))
                 (assocSet "type" (VStr type) nps)))))).
Proof.
  intros Hst.
  pose proof (nth_object_length _ _ _ _ Hi) as Hlen.
  unfold E.updateNodeType.
  destruct (on_found_node (fun r =>
    writeProp r "type" (VStr type) ;;
    writeProp (r ++ [KProp "style"])%list "backgroundColor" (E.getDefaultNodeColor type) ;;
    writeProp r "width" (fst (E.getDefaultNodeSize type)) ;;
    writeProp r "height" (snd (E.getDefaultNodeSize type)) ;;
    n <- readAt r ;; C.updateNode n)) as [F W].
  rewrite (bind_ok _ _ _ _ _ F), W. cbn [List.app].
  erewrite bind_ok by (eapply writeProp_withElem; eassumption).
  erewrite bind_ok.
  2:{ eapply writeProp_withElem_sub; try eassumption.
      rewrite lookup_assocSet_other by reflexivity. exact Hst. }
  erewrite bind_ok by (eapply writeProp_withElem; eassumption).
  erewrite bind_ok by (eapply writeProp_withElem; eassumption).
  erewrite bind_ok by (eapply readAt_withElem; eassumption).
  unfold C.updateNode, C.renderNode, bind, liftO, ret. cbn [getProp].
  rewrite lookup_assocSet_other by reflexivity.
  rewrite lookup_assocSet_other by reflexivity.
  rewrite lookup_assocSet_same. reflexivity.
Qed.

End FoundNodeWrites.

Section FoundConnection.

Variables (s : editor) (c : addr) (sps : fields).
Variables (an : addr) (ns : list value) (np : fields).
Variables (ac : addr) (cs : list value) (cp : fields).
Hypothesis Hsec : sectionOf (data s) = Some (c, sps).
Hypothesis Hn : lookup "nodes" sps = Some (VArr an ns np).
Hypothesis Hc : lookup "connections" sps = Some (VArr ac cs cp).
Hypothesis Hns : Forall (fun n => isObject n = true) ns.
Hypothesis Hcs : Forall (fun n => isObject n = true) cs.

Variables (id : value) (i : nat) (na : addr) (nps : fields).
Hypothesis Hfind : indexOf "id" id cs = Some i.
Hypothesis Hi : nth i cs VUndef = VObj na nps.

Local Abbreviation connRef := [KProp "flowcharts"; KIdx 0; KProp "connections"; KIdx i].
Local Abbreviation withConn := (withElem s "connections" ac cs cp i).

Lemma withConn_start : withConn (VObj na nps) = s.
Proof.
  rewrite <- Hi.
  eapply withElem_same; try eassumption.
  exact (nth_object_length _ _ _ _ Hi).
Qed.

Lemma on_found_connection body :
  findConnectionById id s = (Ok (Some connRef), s) /\
  whenFound (Some connRef) body s = body connRef (withConn (VObj na nps)).
Proof.
  split.
  - rewrite (findConnectionById_section s c sps Hsec ac cs cp id Hc Hcs).
    now rewrite Hfind.
  - rewrite withConn_start. apply (whenFound_some _ (VObj na nps)); auto.
    rewrite (readAt_section_elem s c sps Hsec "connections" i ac cs cp Hc).
    now rewrite Hi.
Qed.

Lemma updateConnectionStyle_found style :
  E.updateConnectionStyle id style s =
  (Ok tt, withConn (VObj na (assocSet "style" style nps))).
Proof.
  pose proof (nth_object_length _ _ _ _ Hi) as Hlen.
  unfold E.updateConnectionStyle.
  destruct (on_found_connection (fun r => writeProp r "style" style)) as [F W].
  rewrite (bind_ok _ _ _ _ _ F), W.
  eapply writeProp_withElem; eassumption.
Qed.

Lemma updateConnectionStatus_found ma mps status :
  lookup "metadata" nps = Some (VObj ma mps) ->
  E.updateConnectionStatus id status s =
  (Ok tt,
   withConn (VObj na (assocSet "metadata" (VObj ma (assocSet "status" status mps)) nps))).
Proof.
  intros Hm.
  pose proof (nth_object_length _ _ _ _ Hi) as Hlen.
  unfold E.updateConnectionStatus.
  destruct (on_found_connection (fun r =>
    writeProp (r ++ [KProp "metadata"])%list "status" status)) as [F W].
  rewrite (bind_ok _ _ _ _ _ F), W. cbn [List.app].
  eapply writeProp_withElem_sub; eassumption.
Qed.

(** [updateConnectionLabel] writes the label and then lets the canvas
    place it, which throws when there is a label to place and an end of
    the connection is not a node. *)
Lemma updateConnectionLabel_found label :
  snd (E.updateConnectionLabel id label s) =
  withConn (VObj na (assocSet "label" label nps)).
Proof.
  pose proof (nth_object_length _ _ _ _ Hi) as Hlen.
  unfold E.updateConnectionLabel.
  destruct (on_found_connection (fun r =>
    writeProp r "label" label ;; cd <- readAt r ;; C.updateConnectionLabel cd))
    as [F W].
  rewrite (bind_ok _ _ _ _ _ F), W.
  erewrite bind_ok by (eapply writeProp_withElem; eassumption).
  erewrite bind_ok by (eapply readAt_withElem; eassumption).
  unfold C.updateConnectionLabel.
  erewrite bind_ok by reflexivity.
  destruct (truthy _); [ | reflexivity ].
  erewrite bind_ok by reflexivity.
  erewrite bind_ok.
  2:{ eapply findNodeById_section with (a := an) (es := ns) (p := np);
        [ eapply withElem_section; eassumption
        | rewrite lookup_assocSet_other by reflexivity; exact Hn
        | exact Hns ]. }
  erewrite bind_ok by reflexivity.
  erewrite bind_ok.
  2:{ eapply findNodeById_section with (a := an) (es := ns) (p := np);
        [ eapply withElem_section; eassumption
        | rewrite lookup_assocSet_other by reflexivity; exact Hn
        | exact Hns ]. }
  repeat match goal with
         | |- context [indexOf ?k ?v ?l] => destruct (indexOf k v l)
         end; reflexivity.
Qed.

End FoundConnection.

Section ClearAll.

Variables (s : editor) (c : addr) (sps : fields).
Hypothesis Hsec : sectionOf (data s) = Some (c, sps).

Lemma clearAll_shaped :
  let h := heapNext s in
  E.clearAll s =
  (Ok tt,
   withSelectedElement VNull
     (withData
        (withSection
           (fun x =>
              assocSet "questions" (VArr (S (S h)) [] [])
                (assocSet "connections" (VArr (S h) [] [])
                   (assocSet "nodes" (VArr h [] []) x)))
           (data s))
        (withHeapNext (S (S (S h))) s))).
Proof.
  intros h. subst h. unfold E.clearAll.
  destruct s as [d sel cip nn nc nq hn nt nts con]. simpl in Hsec.
  monad_simpl.
  erewrite (getCurrentFlowchart_section _ c sps) by exact Hsec. monad_simpl.
  erewrite (writeProp_section _ c sps) by exact Hsec. monad_simpl.
  erewrite (getCurrentFlowchart_section _ c _)
    by (apply sectionOf_withSection; exact Hsec).
  monad_simpl.
  erewrite (writeProp_section _ c _) by (apply sectionOf_withSection; exact Hsec).
  monad_simpl.
  rewrite (withSection_withSection _ _ _ _ _ Hsec).
  erewrite (getCurrentFlowchart_section _ c _)
    by (apply sectionOf_withSection; exact Hsec).
  monad_simpl.
  erewrite (writeProp_section _ c _) by (apply sectionOf_withSection; exact Hsec).
  monad_simpl.
  rewrite (withSection_withSection _ _ _ _ _ Hsec).
  unfold E.clearSelection. monad_simpl.
  erewrite (updateStats_section _ c _);
    [ | apply (sectionOf_withSection _ _ _ _ Hsec)
      | cbv beta; solve_lookup | cbv beta; solve_lookup ].
  unfold E.updateQuestionsPanel. monad_simpl.
  erewrite (getCurrentFlowchart_section _ c _)
    by (apply (sectionOf_withSection _ _ _ _ Hsec)).
  erewrite (readProp_section _ c _)
    by (apply (sectionOf_withSection _ _ _ _ Hsec)).
  cbv beta. rewrite lookup_assocSet_same. reflexivity.
Qed.

End ClearAll.

(** ** Well-shaped diagrams *)

Lemma elemsOf_inv k sps es :
  elemsOf k sps = Some es -> exists a p, lookup k sps = Some (VArr a es p).
Proof.
  unfold elemsOf. destruct (lookup k sps) as [[| | | | |a es' p|]|]; try discriminate.
  intros H. inversion H; subst. eauto.
Qed.

Lemma elemsOf_assocSet_same k a es p sps :
  elemsOf k (assocSet k (VArr a es p) sps) = Some es.
Proof. unfold elemsOf. now rewrite lookup_assocSet_same. Qed.

Lemma elemsOf_assocSet_other k k' x sps :
  String.eqb k k' = false ->
  elemsOf k (assocSet k' x sps) = elemsOf k sps.
Proof. intros H. unfold elemsOf. now rewrite lookup_assocSet_other. Qed.

Lemma activeList_withSection k f d c sps :
  sectionOf d = Some (c, sps) ->
  activeList k (withSection f d) = elemsOf k (f sps).
Proof.
  intros H. unfold activeList. now rewrite (sectionOf_withSection f _ _ _ H).
Qed.

Lemma wellShaped_inv s ns cs qs :
  wellShaped s ns cs qs ->
  exists c sps an np ac cp aq qp,
    sectionOf (data s) = Some (c, sps) /\
    lookup "nodes" sps = Some (VArr an ns np) /\
    lookup "connections" sps = Some (VArr ac cs cp) /\
    lookup "questions" sps = Some (VArr aq qs qp).
Proof.
  intros [Hn Hc Hq _ _ _]. unfold activeNodes, activeConnections, activeQuestions,
    activeList in *.
  destruct (sectionOf (data s)) as [[c sps]|]; try discriminate.
  destruct (elemsOf_inv _ _ _ Hn) as (an & np & Hn').
  destruct (elemsOf_inv _ _ _ Hc) as (ac & cp & Hc').
  destruct (elemsOf_inv _ _ _ Hq) as (aq & qp & Hq').
  exists c, sps, an, np, ac, cp, aq, qp. auto.
Qed.

(** The shape of the editor after a write into the active section. *)
Lemma wellShaped_withSection s s' f c sps ns cs qs :
  sectionOf (data s) = Some (c, sps) ->
  data s' = withSection f (data s) ->
  elemsOf "nodes" (f sps) = Some ns ->
  elemsOf "connections" (f sps) = Some cs ->
  elemsOf "questions" (f sps) = Some qs ->
  Forall (fun n => isObject n = true) ns ->
  Forall (fun n => isObject n = true) cs ->
  Forall (fun n => isObject n = true) qs ->
  wellShaped s' ns cs qs.
Proof.
  intros Hsec Hd Hn Hc Hq Hns Hcs Hqs.
  constructor; auto; unfold activeNodes, activeConnections, activeQuestions;
    rewrite Hd, (activeList_withSection _ _ _ _ _ Hsec); assumption.
Qed.

Lemma header_withSection k f s s' :
  String.eqb k "flowcharts" = false ->
  data s' = withSection f (data s) ->
  header k s' = header k s.
Proof.
  intros Hk Hd. unfold header. rewrite Hd. unfold withSection.
  destruct (data s) as [| | | | | |a ps]; auto.
  destruct (lookup "flowcharts" ps) as [[| | | | |b [|[| | | | | |c sps] rest] bps|]|];
    auto.
  now rewrite lookup_assocSet_other.
Qed.

Lemma nodeLiteral_status a b m id type x y :
  statusOf (E.nodeLiteral a b m id type x y) = VStr "pending".
Proof. reflexivity. Qed.

Lemma connectionLiteral_status a m id f t label :
  statusOf (E.connectionLiteral a m id f t label) = VStr "pending".
Proof. reflexivity. Qed.

Lemma Forall_app_one {A} (P : A -> Prop) l x :
  Forall P l -> P x -> Forall P (l ++ [x])%list.
Proof. intros Hl Hx. apply Forall_app. split; auto. Qed.

Lemma statusOf_setMetadata status n :
  isObject n = true -> isObject (propOf "metadata" n) = true ->
  statusOf (setMetadata "status" status n) = status.
Proof.
  destruct n as [| | | | | |a ps]; try discriminate. intros _.
  unfold statusOf, setMetadata, setField, propOf.
  destruct (orUndef (lookup "metadata" ps)) as [| | | | | |ma mps]; try discriminate.
  intros _. rewrite lookup_assocSet_same. simpl. now rewrite lookup_assocSet_same.
Qed.

(** C8. [updateNodeStatus] assigns the status of a node whatever its
    current status is (no transition is refused, in particular not the
    one from approved to rejected), and nodes and connections are
    created with the status pending. *)
Theorem status_is_plain_assignment s ns cs qs (H : wellShaped s ns cs qs) :
  (forall id status i,
      indexOf "id" id ns = Some i ->
      isObject (propOf "metadata" (nth i ns VUndef)) = true ->
      exists s',
        E.updateNodeStatus id status s = (Ok tt, s') /\
        activeNodes s' =
          Some (setNth i (setMetadata "status" status (nth i ns VUndef)) ns) /\
        statusOf (setMetadata "status" status (nth i ns VUndef)) = status /\
        activeConnections s' = Some cs /\
        activeQuestions s' = Some qs) /\
  (forall type x y,
      exists node s',
        E.addNode type x y s = (Ok node, s') /\
        statusOf node = VStr "pending" /\
        activeNodes s' = Some (ns ++ [node])%list) /\
  (forall f t label,
      exists conn s',
        E.addConnection f t label s = (Ok conn, s') /\
        statusOf conn = VStr "pending" /\
        activeConnections s' = Some (cs ++ [conn])%list).
Proof.
  destruct (wellShaped_inv _ _ _ _ H)
    as (c & sps & an & np & ac & cp & aq & qp & Hsec & Hn & Hc & Hq).
  destruct H as [_ _ _ Hns Hcs Hqs].
  split; [ | split ].
  - intros id status i Hfind Hmeta.
    destruct (indexOf_object _ _ _ _ Hns Hfind) as (na & nps & Hi).
    rewrite Hi in *. simpl in Hmeta.
    destruct (lookup "metadata" nps) as [[| | | | | |ma mps]|] eqn:Hm; try discriminate.
    eexists. split; [ | split; [ | split; [ | split ] ] ].
    + eapply updateNodeStatus_found; eassumption.
    + unfold activeNodes. cbn [data withData].
      rewrite (activeList_withSection _ _ _ _ _ Hsec).
      rewrite elemsOf_assocSet_same. unfold setMetadata, setField, propOf.
      now rewrite Hm.
    + apply statusOf_setMetadata; auto. simpl. now rewrite Hm.
    + unfold activeConnections. cbn [data withData].
      rewrite (activeList_withSection _ _ _ _ _ Hsec).
      rewrite elemsOf_assocSet_other by reflexivity. unfold elemsOf. now rewrite Hc.
    + unfold activeQuestions. cbn [data withData].
      rewrite (activeList_withSection _ _ _ _ _ Hsec).
      rewrite elemsOf_assocSet_other by reflexivity. unfold elemsOf. now rewrite Hq.
  - intros type x y. do 2 eexists. split; [ | split ].
    + eapply addNode_shaped; eassumption.
    + apply nodeLiteral_status.
    + unfold activeNodes. cbn [data withData].
      rewrite (activeList_withSection _ _ _ _ _ Hsec).
      now rewrite elemsOf_assocSet_same.
  - intros f t label. do 2 eexists. split; [ | split ].
    + eapply addConnection_shaped; eassumption.
    + apply connectionLiteral_status.
    + unfold activeConnections. cbn [data withData].
      rewrite (activeList_withSection _ _ _ _ _ Hsec).
      now rewrite elemsOf_assocSet_same.
Qed.

(** ** The editing operations on a well-shaped diagram *)

Lemma sameHeaders_withSection f s s' :
  data s' = withSection f (data s) -> sameHeaders s s'.
Proof. intros Hd k Hk. now apply (header_withSection k f). Qed.

Lemma addNode_wellShaped s ns cs qs type x y :
  wellShaped s ns cs qs ->
  exists node s',
    E.addNode type x y s = (Ok node, s') /\
    node = E.nodeLiteral (heapNext s) (S (heapNext s)) (S (S (heapNext s)))
             (VStr ("node-" ++ showN (nextNodeId s))) type x y /\
    wellShaped s' (ns ++ [node])%list cs qs /\
    nextNodeId s' = (nextNodeId s + 1)%N /\
    nextConnectionId s' = nextConnectionId s /\
    nextQuestionId s' = nextQuestionId s /\
    sameHeaders s s'.
Proof.
  intros H.
  destruct (wellShaped_inv _ _ _ _ H)
    as (c & sps & an & np & ac & cp & aq & qp & Hsec & Hn & Hc & Hq).
  destruct H as [_ _ _ Hns Hcs Hqs].
  do 2 eexists. split; [ eapply addNode_shaped; eassumption | ].
  split; [ reflexivity | ].
  split; [ | split; [ | split; [ | split ] ] ]; try reflexivity.
  - eapply (wellShaped_withSection s _ _ c sps); try eassumption; try reflexivity.
    + apply elemsOf_assocSet_same.
    + rewrite elemsOf_assocSet_other by reflexivity. unfold elemsOf. now rewrite Hc.
    + rewrite elemsOf_assocSet_other by reflexivity. unfold elemsOf. now rewrite Hq.
    + apply Forall_app_one; auto.
  - eapply sameHeaders_withSection. reflexivity.
Qed.

Lemma addConnection_wellShaped s ns cs qs f t label :
  wellShaped s ns cs qs ->
  exists conn s',
    E.addConnection f t label s = (Ok conn, s') /\
    conn = E.connectionLiteral (heapNext s) (S (heapNext s))
             (VStr ("conn-" ++ showN (nextConnectionId s))) f t
             (match label with VUndef => VStr "" | _ => label end) /\
    wellShaped s' ns (cs ++ [conn])%list qs /\
    nextNodeId s' = nextNodeId s /\
    nextConnectionId s' = (nextConnectionId s + 1)%N /\
    nextQuestionId s' = nextQuestionId s /\
    connectionInProgress s' = connectionInProgress s /\
    sameHeaders s s'.
Proof.
  intros H.
  destruct (wellShaped_inv _ _ _ _ H)
    as (c & sps & an & np & ac & cp & aq & qp & Hsec & Hn & Hc & Hq).
  destruct H as [_ _ _ Hns Hcs Hqs].
  do 2 eexists. split; [ eapply addConnection_shaped; eassumption | ].
  split; [ reflexivity | ].
  split; [ | split; [ | split; [ | split; [ | split ] ] ] ]; try reflexivity.
  - eapply (wellShaped_withSection s _ _ c sps); try eassumption; try reflexivity.
    + rewrite elemsOf_assocSet_other by reflexivity. unfold elemsOf. now rewrite Hn.
    + apply elemsOf_assocSet_same.
    + rewrite elemsOf_assocSet_other by reflexivity. unfold elemsOf. now rewrite Hq.
    + apply Forall_app_one; auto.
  - eapply sameHeaders_withSection. reflexivity.
Qed.

Lemma deleteNode_wellShaped s ns cs qs id :
  wellShaped s ns cs qs ->
  exists s',
    E.deleteNode id s = (Ok tt, s') /\
    wellShaped s' (filter (keepsNode id) ns) (filter (keepsConnection id) cs) qs /\
    sameCounters s s' /\
    sameHeaders s s'.
Proof.
  intros H.
  destruct (wellShaped_inv _ _ _ _ H)
    as (c & sps & an & np & ac & cp & aq & qp & Hsec & Hn & Hc & Hq).
  destruct H as [_ _ _ Hns Hcs Hqs].
  eexists. split; [ eapply deleteNode_shaped; eassumption | ].
  split; [ | split ].
  - eapply (wellShaped_withSection s _ _ c sps); try eassumption; try reflexivity;
      cbv beta.
    + rewrite elemsOf_assocSet_other by reflexivity. apply elemsOf_assocSet_same.
    + apply elemsOf_assocSet_same.
    + rewrite !elemsOf_assocSet_other by reflexivity. unfold elemsOf. now rewrite Hq.
    + now apply Forall_filter.
    + now apply Forall_filter.
  - repeat split.
  - eapply sameHeaders_withSection. reflexivity.
Qed.

Lemma deleteConnection_wellShaped s ns cs qs id :
  wellShaped s ns cs qs ->
  exists s',
    E.deleteConnection id s = (Ok tt, s') /\
    wellShaped s' ns (filter (keepsNode id) cs) qs /\
    sameCounters s s' /\
    sameHeaders s s'.
Proof.
  intros H.
  destruct (wellShaped_inv _ _ _ _ H)
    as (c & sps & an & np & ac & cp & aq & qp & Hsec & Hn & Hc & Hq).
  destruct H as [_ _ _ Hns Hcs Hqs].
  eexists. split; [ eapply deleteConnection_shaped; eassumption | ].
  split; [ | split ].
  - eapply (wellShaped_withSection s _ _ c sps); try eassumption; try reflexivity.
    + rewrite elemsOf_assocSet_other by reflexivity. unfold elemsOf. now rewrite Hn.
    + apply elemsOf_assocSet_same.
    + rewrite !elemsOf_assocSet_other by reflexivity. unfold elemsOf. now rewrite Hq.
    + now apply Forall_filter.
  - repeat split.
  - eapply sameHeaders_withSection. reflexivity.
Qed.

Lemma clearAll_wellShaped s ns cs qs :
  wellShaped s ns cs qs ->
  exists s',
    E.clearAll s = (Ok tt, s') /\
    wellShaped s' [] [] [] /\
    sameCounters s s' /\
    sameHeaders s s'.
Proof.
  intros H.
  destruct (wellShaped_inv _ _ _ _ H)
    as (c & sps & an & np & ac & cp & aq & qp & Hsec & Hn & Hc & Hq).
  eexists. split; [ eapply clearAll_shaped; eassumption | ].
  split; [ | split ].
  - eapply (wellShaped_withSection s _ _ c sps); try eassumption; try reflexivity;
      cbv beta; auto.
    + rewrite !elemsOf_assocSet_other by reflexivity. apply elemsOf_assocSet_same.
    + rewrite elemsOf_assocSet_other by reflexivity. apply elemsOf_assocSet_same.
    + apply elemsOf_assocSet_same.
  - repeat split.
  - eapply sameHeaders_withSection. reflexivity.
Qed.

Lemma filter_all {A} (q : A -> bool) l :
  Forall (fun x => q x = true) l -> filter q l = l.
Proof.
  induction 1 as [|x l Hx Hl IH]; simpl; auto. now rewrite Hx, IH.
Qed.

Lemma keepsNode_all id es :
  indexOf "id" id es = None -> filter (keepsNode id) es = es.
Proof.
  intros H. apply filter_all. apply indexOf_None in H.
  eapply Forall_impl; [ | exact H ]. intros e He.
  unfold keepsNode, strictNeq, idOf. simpl in He. now rewrite He.
Qed.

Lemma keepsConnection_all id cs :
  Forall (fun c => touches id c = false) cs -> filter (keepsConnection id) cs = cs.
Proof.
  intros H. apply filter_all. eapply Forall_impl; [ | exact H ]. intros e He.
  unfold touches in He. apply orb_false_iff in He. destruct He as [Hf Ht].
  unfold keepsConnection, strictNeq. now rewrite Hf, Ht.
Qed.


(** The shape of a sample editor [S], by computation. *)
Ltac sample_shape S W :=
  let ns := eval vm_compute in
    (match activeNodes S with Some l => l | None => [] end) in
  let cs := eval vm_compute in
    (match activeConnections S with Some l => l | None => [] end) in
  let qs := eval vm_compute in
    (match activeQuestions S with Some l => l | None => [] end) in
  assert (W : wellShaped S ns cs qs)
    by (constructor;
        [ vm_compute; reflexivity | vm_compute; reflexivity
        | vm_compute; reflexivity | .. ];
        repeat constructor).



Lemma wellShaped_data s s' ns cs qs :
  data s' = data s -> wellShaped s ns cs qs -> wellShaped s' ns cs qs.
Proof.
  intros Hd [Hn Hc Hq Hns Hcs Hqs].
  constructor; auto; unfold activeNodes, activeConnections, activeQuestions in *;
    now rewrite Hd.
Qed.

Lemma startConnection_object fromNode s :
  isObject fromNode = true ->
  E.startConnection fromNode s =
  (Ok tt,
   withConnectionInProgress
     (VObj (heapNext s) [("from", idOf fromNode); ("fromNode", fromNode)])
     (withHeapNext (S (heapNext s)) s)).
Proof.
  intros Hf. unfold E.startConnection.
  rewrite (bind_ok _ _ _ (idOf fromNode) s)
    by (unfold liftO; now rewrite getProp_object).
  reflexivity.
Qed.

(** C9. The connect gesture from node F that ends on node T adds the
    connection F -> T when the two identifiers differ, and adds nothing
    when they are the same; either way the pending connection is
    dropped.  [addConnection] itself accepts equal ends. *)
Theorem connect_gesture_makes_no_self_loop s ns cs qs fromNode toNode
  (H : wellShaped s ns cs qs)
  (Hfrom : isObject fromNode = true) (Hto : isObject toNode = true) :
  let s1 := snd (E.onNodeConnectionStart "connect" fromNode s) in
  (strictEq (idOf fromNode) (idOf toNode) = true ->
     exists s2,
       E.onNodeConnectionEnd "connect" toNode s1 = (Ok tt, s2) /\
       wellShaped s2 ns cs qs /\
       nextConnectionId s2 = nextConnectionId s /\
       connectionInProgress s2 = VNull) /\
  (strictEq (idOf fromNode) (idOf toNode) = false ->
     exists s2 conn,
       E.onNodeConnectionEnd "connect" toNode s1 = (Ok tt, s2) /\
       wellShaped s2 ns (cs ++ [conn])%list qs /\
       propOf "from" conn = idOf fromNode /\
       propOf "to" conn = idOf toNode /\
       strictEq (propOf "from" conn) (propOf "to" conn) = false /\
       connectionInProgress s2 = VNull) /\
  (forall x label,
     exists conn s',
       E.addConnection x x label s = (Ok conn, s') /\
       propOf "from" conn = x /\ propOf "to" conn = x /\
       wellShaped s' ns (cs ++ [conn])%list qs).
Proof.
  intros s1. subst s1. unfold E.onNodeConnectionStart. cbn [String.eqb Ascii.eqb Bool.eqb].
  rewrite (startConnection_object _ _ Hfrom). cbn [snd].
  set (s1 := withConnectionInProgress _ _).
  assert (H1 : wellShaped s1 ns cs qs) by (apply (wellShaped_data s); auto).
  assert (Hend :
            E.onNodeConnectionEnd "connect" toNode s1 =
            ((if strictNeq (idOf fromNode) (idOf toNode)
              then (_ <- E.addConnection (idOf fromNode) (idOf toNode) VUndef ;; ret tt)
              else ret tt) ;; modify (withConnectionInProgress VNull)) s1).
  { unfold E.onNodeConnectionEnd. cbn [String.eqb Ascii.eqb Bool.eqb].
    unfold E.completeConnection.
    cbv beta iota delta [bind gets liftO].
    change (truthy (connectionInProgress s1)) with true. cbv beta iota.
    change (getProp "from" (connectionInProgress s1)) with (Ok (idOf fromNode)).
    rewrite (getProp_object _ _ Hto). reflexivity. }
  split; [ | split ].
  - intros Heq. rewrite Hend. unfold strictNeq. rewrite Heq. cbn [negb].
    eexists. split; [ reflexivity | ].
    split; [ apply (wellShaped_data s1); auto | ]. split; reflexivity.
  - intros Hne. rewrite Hend. unfold strictNeq. rewrite Hne. cbn [negb].
    destruct (addConnection_wellShaped s1 ns cs qs (idOf fromNode) (idOf toNode) VUndef H1)
      as (conn & s' & Hrun & Hconn & Hws & _).
    exists (withConnectionInProgress VNull s'), conn.
    split.
    + unfold bind at 1. unfold bind at 1. rewrite Hrun. reflexivity.
    + split; [ apply (wellShaped_data s'); auto | ].
      rewrite Hconn.
      refine (conj eq_refl (conj eq_refl (conj _ eq_refl))). exact Hne.
  - intros x label.
    destruct (addConnection_wellShaped s ns cs qs x x label H)
      as (conn & s' & Hrun & Hconn & Hws & _).
    exists conn, s'. rewrite Hconn at 2 3.
    exact (conj Hrun (conj eq_refl (conj eq_refl Hws))).
Qed.

Lemma connect_gesture_makes_no_self_loop_witness :
  exists ns n1,
    wellShaped Samples.twoNodes ns [] [] /\
    nth 0 ns VUndef = n1 /\ isObject n1 = true /\
    exists s2,
      E.onNodeConnectionEnd "connect" n1
        (snd (E.onNodeConnectionStart "connect" n1 Samples.twoNodes)) = (Ok tt, s2) /\
      wellShaped s2 ns [] [].
Proof.
  sample_shape Samples.twoNodes W.
  do 2 eexists.
  split; [ exact W | ].
  split; [ reflexivity | ].
  split; [ reflexivity | ].
  match type of W with
  | wellShaped _ ?ns _ _ =>
      destruct (connect_gesture_makes_no_self_loop _ _ _ _
                  (nth 0 ns VUndef) (nth 0 ns VUndef) W eq_refl eq_refl) as [Hself _]
  end.
  destruct (Hself eq_refl) as (s2 & Hrun & Hws & _).
  exists s2. split; assumption.
Defined.

(** ** Identifier numbers *)

Lemma to_uint_nonnil (n : N) : N.to_uint n <> Decimal.Nil.
Proof.
  destruct n; simpl.
  - discriminate.
  - apply DecimalPos.Unsigned.to_uint_nonnil.
Qed.

Lemma showN_digits (n : N) : showN n = NilEmpty.string_of_uint (N.to_uint n).
Proof.
  unfold showN, NilZero.string_of_uint.
  pose proof (to_uint_nonnil n). destruct (N.to_uint n); congruence.
Qed.

Lemma parseInt_showN (n : N) : parseInt (showN n) = n.
Proof.
  unfold parseInt. rewrite showN_digits, NilEmpty.usu.
  apply DecimalN.Unsigned.of_to.
Qed.

Lemma showN_inj (n m : N) : showN n = showN m -> n = m.
Proof.
  intros E. rewrite <- (parseInt_showN n), <- (parseInt_showN m). now rewrite E.
Qed.

Lemma nodeId_inj (n m : N) : nodeId n = nodeId m -> n = m.
Proof.
  unfold nodeId. intros E. inversion E. now apply showN_inj.
Qed.

Lemma strictEq_nodeId (n m : N) : strictEq (nodeId n) (nodeId m) = N.eqb n m.
Proof.
  unfold nodeId. cbn [strictEq].
  destruct (N.eqb_spec n m) as [->|Hne].
  - apply String.eqb_refl.
  - apply String.eqb_neq. intros E. apply Hne. apply showN_inj.
    now inversion E.
Qed.

(** ** Sessions of [addNode] and [deleteNode] *)


Lemma map_filter_same {A B C} (f : A -> C) (g : B -> C) (p : C -> bool) l l' :
  map f l = map g l' ->
  map f (filter (fun x => p (f x)) l) = map g (filter (fun y => p (g y)) l').
Proof.
  revert l'. induction l as [|x l IH]; intros [|y l'] E; simpl in *; try discriminate.
  - reflexivity.
  - inversion E as [[Exy El]]. rewrite Exy.
    destruct (p (g y)); simpl; [ f_equal | ]; auto.
Qed.

Lemma numbered_init now hasNotifier : numbered (E.init now hasNotifier) [].
Proof.
  exists []. split; [ | split; [ | split ] ].
  - constructor; try reflexivity; constructor.
  - reflexivity.
  - constructor.
  - constructor.
Qed.

Lemma numbered_addNode s ks type x y :
  numbered s ks ->
  numbered (snd (E.addNode type x y s)) (ks ++ [nextNodeId s])%list.
Proof.
  intros (ns & Hws & Hids & Hnd & Hlt).
  destruct (addNode_wellShaped s ns [] [] type x y Hws)
    as (node & s' & Hrun & Hnode & Hws' & Hnn & _).
  rewrite Hrun. cbn [snd]. exists (ns ++ [node])%list.
  split; [ exact Hws' | ]. split; [ | split ].
  - rewrite !map_app, Hids, Hnode. reflexivity.
  - apply NoDup_app; auto.
    + repeat constructor. intros [].
    + intros k Hk [<-|[]].
      rewrite Forall_forall in Hlt. specialize (Hlt _ Hk). lia.
  - rewrite Hnn. apply Forall_app. split.
    + eapply Forall_impl; [ | exact Hlt ]. intros k Hk. cbv beta in *. lia.
    + repeat constructor. lia.
Qed.

Lemma numbered_deleteNode s ks id :
  numbered s ks ->
  numbered (snd (E.deleteNode id s))
    (filter (fun k => strictNeq (nodeId k) id) ks).
Proof.
  intros (ns & Hws & Hids & Hnd & Hlt).
  destruct (deleteNode_wellShaped s ns [] [] id Hws)
    as (s' & Hrun & Hws' & (Hnn & _) & _).
  rewrite Hrun. cbn [snd]. exists (filter (keepsNode id) ns).
  split; [ exact Hws' | ]. split; [ | split ].
  - exact (map_filter_same idOf nodeId (fun v => strictNeq v id) ns ks Hids).
  - now apply NoDup_filter.
  - rewrite Hnn. now apply Forall_filter.
Qed.

Lemma numbered_run calls :
  Forall (fun c => Session.addOrDelete c = true) calls ->
  forall s ks, numbered s ks -> exists ks', numbered (Session.run calls s) ks'.
Proof.
  induction 1 as [|c calls Hc Hcalls IH]; intros s ks Hs; simpl.
  - eauto.
  - destruct c; try discriminate; simpl.
    + unfold Session.discard.
      assert (E0 : snd ((_ <- E.addNode type x y ;; ret tt) s) = snd (E.addNode type x y s)).
      { unfold bind. destruct (E.addNode type x y s) as [[a|e] s']; reflexivity. }
      rewrite E0. eapply IH. eapply numbered_addNode; eassumption.
    + eapply IH. eapply numbered_deleteNode; eassumption.
Qed.

Lemma NoDup_map_injective {A B} (f : A -> B) l :
  (forall a b, f a = f b -> a = b) -> NoDup l -> NoDup (map f l).
Proof.
  intros Hf. induction 1 as [|x l Hx Hl IH]; simpl; constructor; auto.
  intros Hin. apply in_map_iff in Hin. destruct Hin as (y & Hy & Hin).
  apply Hf in Hy. now subst.
Qed.

Lemma numbered_NoDup s ks :
  numbered s ks -> exists ns, activeNodes s = Some ns /\ NoDup (map idOf ns).
Proof.
  intros (ns & Hws & Hids & Hnd & _). exists ns. split; [ apply Hws | ].
  rewrite Hids. apply NoDup_map_injective; auto. apply nodeId_inj.
Qed.

Lemma filter_keeps_not {A} (q : A -> bool) l :
  Forall (fun x => q x = true) (filter q l).
Proof.
  rewrite Forall_forall. intros x Hx. now apply filter_In in Hx.
Qed.

(** C4. In a session of [addNode] and [deleteNode] calls on a new editor
    no two nodes carry the same identifier; and on any well-shaped
    diagram [deleteNode id] removes the nodes with identifier [id] and
    the connections one of whose ends is [id], and keeps every other
    node and connection, in place and unchanged. *)
Theorem node_ids_unique_and_delete_cascades :
  (forall now hasNotifier calls,
      Forall (fun c => Session.addOrDelete c = true) calls ->
      exists ns,
        activeNodes (Session.run calls (E.init now hasNotifier)) = Some ns /\
        NoDup (map idOf ns)) /\
  (forall s ns cs qs id,
      wellShaped s ns cs qs ->
      exists s',
        E.deleteNode id s = (Ok tt, s') /\
        activeNodes s' = Some (filter (keepsNode id) ns) /\
        activeConnections s' = Some (filter (keepsConnection id) cs) /\
        activeQuestions s' = Some qs /\
        Forall (fun n => strictEq (idOf n) id = false) (filter (keepsNode id) ns) /\
        Forall (fun c => strictEq (propOf "from" c) id = false /\
                         strictEq (propOf "to" c) id = false)
               (filter (keepsConnection id) cs) /\
        sameCounters s s' /\ sameHeaders s s').
Proof.
  split.
  - intros now hasNotifier calls Hcalls.
    destruct (numbered_run calls Hcalls _ _ (numbered_init now hasNotifier)) as (ks & Hks).
    exact (numbered_NoDup _ _ Hks).
  - intros s ns cs qs id Hws.
    destruct (deleteNode_wellShaped s ns cs qs id Hws) as (s' & Hrun & Hws' & Hct & Hhd).
    exists s'. split; [ exact Hrun | ].
    split; [ apply Hws' | ]. split; [ apply Hws' | ]. split; [ apply Hws' | ].
    split; [ | split; [ | split; assumption ] ].
    + eapply Forall_impl; [ | apply filter_keeps_not ].
      intros n Hn. unfold keepsNode, strictNeq in Hn. now apply negb_true_iff in Hn.
    + eapply Forall_impl; [ | apply filter_keeps_not ].
      intros c Hc. unfold keepsConnection, strictNeq in Hc.
      apply andb_true_iff in Hc. destruct Hc as [A B].
      split; now apply negb_true_iff.
Qed.

Lemma node_ids_unique_and_delete_cascades_witness :
  (exists ns,
     activeNodes
       (Session.run
          [Session.AddNode "start" (VNum 0) (VNum 0);
           Session.AddNode "process" (VNum 0) (VNum 100);
           Session.DeleteNode (VStr "node-1");
           Session.AddNode "end" (VNum 0) (VNum 200)]
          Samples.fresh) = Some ns /\
     NoDup (map idOf ns)) /\
  (exists s',
     E.deleteNode (VStr "node-1") Samples.triangle = (Ok tt, s') /\
     option_map (map idOf) (activeNodes s') = Some [VStr "node-2"; VStr "node-3"] /\
     option_map (map idOf) (activeConnections s') = Some [VStr "conn-3"]).
Proof.
  destruct node_ids_unique_and_delete_cascades as [Huniq Hdel].
  split.
  - apply Huniq. repeat constructor.
  - sample_shape Samples.triangle W.
    destruct (Hdel _ _ _ _ (VStr "node-1") W) as (s' & Hrun & Hn & Hc & _).
    exists s'. split; [ exact Hrun | ]. rewrite Hn, Hc.
    split; vm_compute; reflexivity.
Defined.

(** ** Every call keeps the diagram well formed *)

Lemma nodeShaped_inv n :
  nodeShaped n = true ->
  exists na nps sa stps ma mps,
    n = VObj na nps /\
    lookup "style" nps = Some (VObj sa stps) /\
    lookup "metadata" nps = Some (VObj ma mps).
Proof.
  unfold nodeShaped. destruct n as [| | | | | |na nps]; try discriminate. simpl.
  intros H.
  destruct (lookup "style" nps) as [[| | | | | |sa stps]|] eqn:Hs; simpl in H;
    try discriminate.
  destruct (lookup "metadata" nps) as [[| | | | | |ma mps]|] eqn:Hm; simpl in H;
    try discriminate.
  exists na, nps, sa, stps, ma, mps. auto.
Qed.

Lemma connectionShaped_inv n :
  connectionShaped n = true ->
  exists na nps ma mps,
    n = VObj na nps /\ lookup "metadata" nps = Some (VObj ma mps).
Proof.
  unfold connectionShaped. destruct n as [| | | | | |na nps]; try discriminate. simpl.
  intros H.
  destruct (lookup "metadata" nps) as [[| | | | | |ma mps]|] eqn:Hm; simpl in H;
    try discriminate.
  exists na, nps, ma, mps. auto.
Qed.

Lemma nodeShaped_object ns :
  Forall (fun n => nodeShaped n = true) ns -> Forall (fun n => isObject n = true) ns.
Proof.
  apply Forall_impl. intros n H. unfold nodeShaped in H.
  now destruct (isObject n).
Qed.

Lemma connectionShaped_object cs :
  Forall (fun n => connectionShaped n = true) cs -> Forall (fun n => isObject n = true) cs.
Proof.
  apply Forall_impl. intros n H. unfold connectionShaped in H.
  now destruct (isObject n).
Qed.

Lemma Forall_nth_at {A} (P : A -> Prop) l i d :
  Forall P l -> i < List.length l -> P (nth i l d).
Proof.
  intros H. revert i. induction H as [|x l Hx Hl IH]; intros [|i] Hi; simpl in *;
    try lia; auto. apply IH. lia.
Qed.

Section WithElem.

Variables (s : editor) (c : addr) (sps : fields).
Variables (an : addr) (ns : list value) (np : fields).
Variables (ac : addr) (cs : list value) (cp : fields).
Variables (aq : addr) (qs : list value) (qp : fields).
Hypothesis Hsec : sectionOf (data s) = Some (c, sps).
Hypothesis Hn : lookup "nodes" sps = Some (VArr an ns np).
Hypothesis Hc : lookup "connections" sps = Some (VArr ac cs cp).
Hypothesis Hq : lookup "questions" sps = Some (VArr aq qs qp).
Hypothesis Hns : Forall (fun n => nodeShaped n = true) ns.
Hypothesis Hcs : Forall (fun n => connectionShaped n = true) cs.
Hypothesis Hqs : Forall (fun n => isObject n = true) qs.

Lemma wellFormed_withElem_nodes i e :
  nodeShaped e = true -> wellFormed (withElem s "nodes" an ns np i e).
Proof.
  intros He. exists (setNth i e ns), cs, qs. split; [ | split ]; auto.
  - eapply (wellShaped_withSection s _ _ c sps); try eassumption; try reflexivity.
    + apply elemsOf_assocSet_same.
    + rewrite elemsOf_assocSet_other by reflexivity. unfold elemsOf. now rewrite Hc.
    + rewrite elemsOf_assocSet_other by reflexivity. unfold elemsOf. now rewrite Hq.
    + apply nodeShaped_object. apply Forall_setNth; auto.
    + now apply connectionShaped_object.
  - apply Forall_setNth; auto.
Qed.

Lemma wellFormed_withElem_connections i e :
  connectionShaped e = true -> wellFormed (withElem s "connections" ac cs cp i e).
Proof.
  intros He. exists ns, (setNth i e cs), qs. split; [ | split ]; auto.
  - eapply (wellShaped_withSection s _ _ c sps); try eassumption; try reflexivity.
    + rewrite elemsOf_assocSet_other by reflexivity. unfold elemsOf. now rewrite Hn.
    + apply elemsOf_assocSet_same.
    + rewrite elemsOf_assocSet_other by reflexivity. unfold elemsOf. now rewrite Hq.
    + now apply nodeShaped_object.
    + apply connectionShaped_object. apply Forall_setNth; auto.
  - apply Forall_setNth; auto.
Qed.

End WithElem.

Lemma nodeShaped_set k x na nps :
  String.eqb "style" k = false -> String.eqb "metadata" k = false ->
  nodeShaped (VObj na nps) = true ->
  nodeShaped (VObj na (assocSet k x nps)) = true.
Proof.
  intros Hs Hm. unfold nodeShaped. simpl.
  now rewrite !lookup_assocSet_other by assumption.
Qed.

Lemma nodeShaped_set_metadata k x na nps ma mps :
  nodeShaped (VObj na nps) = true ->
  nodeShaped (VObj na (assocSet "metadata" (VObj ma (assocSet k x mps)) nps)) = true.
Proof.
  unfold nodeShaped. simpl. rewrite lookup_assocSet_same.
  rewrite lookup_assocSet_other by reflexivity.
  destruct (isObject (orUndef (lookup "style" nps))); auto.
Qed.

Lemma nodeShaped_set_style k x na nps sa stps :
  nodeShaped (VObj na nps) = true ->
  nodeShaped (VObj na (assocSet "style" (VObj sa (assocSet k x stps)) nps)) = true.
Proof.
  unfold nodeShaped. simpl. rewrite lookup_assocSet_same.
  rewrite lookup_assocSet_other by reflexivity.
  destruct (isObject (orUndef (lookup "metadata" nps))); auto.
  now rewrite andb_false_r.
Qed.

Lemma connectionShaped_set k x na nps :
  String.eqb "metadata" k = false ->
  connectionShaped (VObj na nps) = true ->
  connectionShaped (VObj na (assocSet k x nps)) = true.
Proof.
  intros Hm. unfold connectionShaped. simpl.
  now rewrite !lookup_assocSet_other by assumption.
Qed.

Lemma connectionShaped_set_metadata k x na nps ma mps :
  connectionShaped (VObj na (assocSet "metadata" (VObj ma (assocSet k x mps)) nps)) = true.
Proof. unfold connectionShaped. simpl. now rewrite lookup_assocSet_same. Qed.

Lemma wellFormed_inv s :
  wellFormed s ->
  exists ns cs qs c sps an np ac cp aq qp,
    sectionOf (data s) = Some (c, sps) /\
    lookup "nodes" sps = Some (VArr an ns np) /\
    lookup "connections" sps = Some (VArr ac cs cp) /\
    lookup "questions" sps = Some (VArr aq qs qp) /\
    Forall (fun n => nodeShaped n = true) ns /\
    Forall (fun n => connectionShaped n = true) cs /\
    Forall (fun n => isObject n = true) qs /\
    wellShaped s ns cs qs.
Proof.
  intros (ns & cs & qs & Hws & Hns & Hcs).
  destruct (wellShaped_inv _ _ _ _ Hws)
    as (c & sps & an & np & ac & cp & aq & qp & Hsec & Hn & Hc & Hq).
  exists ns, cs, qs, c, sps, an, np, ac, cp, aq, qp.
  repeat (split; [ assumption | ]). split; [ apply Hws | assumption ].
Qed.

Lemma found_node_shaped ns id i :
  Forall (fun n => nodeShaped n = true) ns ->
  indexOf "id" id ns = Some i ->
  exists na nps sa stps ma mps,
    nth i ns VUndef = VObj na nps /\
    lookup "style" nps = Some (VObj sa stps) /\
    lookup "metadata" nps = Some (VObj ma mps) /\
    nodeShaped (VObj na nps) = true.
Proof.
  intros Hns Hfind. destruct (indexOf_Some _ _ _ _ Hfind) as [Hlen _].
  pose proof (Forall_nth_at _ _ i VUndef Hns Hlen) as Hsh. cbv beta in Hsh.
  destruct (nodeShaped_inv _ Hsh) as (na & nps & sa & stps & ma & mps & E & Hs & Hm).
  rewrite E in *. exists na, nps, sa, stps, ma, mps. auto.
Qed.

Lemma found_connection_shaped cs id i :
  Forall (fun n => connectionShaped n = true) cs ->
  indexOf "id" id cs = Some i ->
  exists na nps ma mps,
    nth i cs VUndef = VObj na nps /\
    lookup "metadata" nps = Some (VObj ma mps) /\
    connectionShaped (VObj na nps) = true.
Proof.
  intros Hcs Hfind. destruct (indexOf_Some _ _ _ _ Hfind) as [Hlen _].
  pose proof (Forall_nth_at _ _ i VUndef Hcs Hlen) as Hsh. cbv beta in Hsh.
  destruct (connectionShaped_inv _ Hsh) as (na & nps & ma & mps & E & Hm).
  rewrite E in *. exists na, nps, ma, mps. auto.
Qed.

Lemma writeHeader_spec k x s a ps :
  data s = VObj a ps ->
  writeProp [] k x s = (Ok tt, withData (VObj a (assocSet k x ps)) s).
Proof.
  intros Hd. unfold writeProp, readAt, bind, gets, liftO, modify. simpl.
  now rewrite Hd.
Qed.

Lemma wellFormed_header k x s a ps :
  String.eqb "flowcharts" k = false ->
  data s = VObj a ps ->
  wellFormed s ->
  wellFormed (withData (VObj a (assocSet k x ps)) s).
Proof.
  intros Hk Hd (ns & cs & qs & [Hn Hc Hq Hns Hcs Hqs] & Hsn & Hsc).
  exists ns, cs, qs. split; [ | split ]; auto.
  unfold activeNodes, activeConnections, activeQuestions, activeList in *.
  rewrite Hd in *.
  assert (E : sectionOf (VObj a (assocSet k x ps)) = sectionOf (VObj a ps)).
  { unfold sectionOf. now rewrite lookup_assocSet_other. }
  constructor; auto;
    unfold activeNodes, activeConnections, activeQuestions, activeList;
    cbn [data withData]; now rewrite E.
Qed.

Ltac node_case Hns id ns :=
  destruct (indexOf "id" id ns) as [i|] eqn:Hfind;
  [ destruct (found_node_shaped _ _ _ Hns Hfind)
      as (na & nps & sa & stps & ma & mps & Hi & Hst & Hmd & Hsh)
  | ].

Ltac conn_case Hcs id cs :=
  destruct (indexOf "id" id cs) as [i|] eqn:Hfind;
  [ destruct (found_connection_shaped _ _ _ Hcs Hfind)
      as (na & nps & ma & mps & Hi & Hmd & Hsh)
  | ].

(** A call keeps the diagram well formed, never lowers the node counter,
    and hands out a node identifier from the counter. *)
Lemma perform_step c s :
  wellFormed s ->
  let s' := snd (Session.perform c s) in
  wellFormed s' /\
  (nextNodeId s <= nextNodeId s')%N /\
  Forall (fun id => exists k, id = nodeId k /\ (nextNodeId s <= k < nextNodeId s')%N)
    (Session.allocated [c] s).
Proof.
  intros Hwf s'. subst s'.
  destruct (wellFormed_inv _ Hwf)
    as (ns & cs & qs & c0 & sps & an & np & ac & cp & aq & qp
        & Hsec & Hn & Hc & Hq & Hns & Hcs & Hqs & Hws).
  pose proof (nodeShaped_object _ Hns) as Hno.
  pose proof (connectionShaped_object _ Hcs) as Hco.
  destruct c as [type x y | nid x y | nid text | nid type | nid status | nid notes
                | nid | f t label | cid label | cid style | cid status | cid
                | description | notes | ];
    cbn [Session.perform Session.allocated List.app].
  - (* addNode *)
    destruct (addNode_wellShaped s ns cs qs type x y Hws)
      as (node & s' & Hrun & Hnode & Hws' & Hnn & _).
    unfold Session.discard. rewrite (bind_ok _ _ _ _ _ Hrun). cbn [snd fst ret].
    rewrite Hrun. cbn [fst]. split; [ | split ].
    + exists (ns ++ [node])%list, cs, qs. split; [ exact Hws' | split; auto ].
      apply Forall_app_one; auto. now rewrite Hnode.
    + lia.
    + repeat constructor. exists (nextNodeId s). rewrite Hnode. split; [ reflexivity | lia ].
  - (* updateNodePosition *)
    node_case Hns nid ns.
    + erewrite updateNodePosition_found by eassumption. cbn [snd].
      split; [ | split; [ reflexivity | constructor ] ].
      eapply wellFormed_withElem_nodes; try eassumption.
      do 2 (apply nodeShaped_set; [ reflexivity | reflexivity | ]). exact Hsh.
    + erewrite updateNodePosition_missing by eassumption.
      split; [ exact Hwf | split; [ reflexivity | constructor ] ].
  - (* updateNodeText *)
    node_case Hns nid ns.
    + erewrite updateNodeText_found by eassumption. cbn [snd].
      split; [ | split; [ reflexivity | constructor ] ].
      eapply (wellFormed_withElem_nodes s); try eassumption.
      apply nodeShaped_set; [ reflexivity | reflexivity | ]. exact Hsh.
    + erewrite updateNodeText_missing by eassumption.
      split; [ exact Hwf | split; [ reflexivity | constructor ] ].
  - (* updateNodeType *)
    node_case Hns nid ns.
    + erewrite updateNodeType_found by eassumption. cbn [snd].
      split; [ | split; [ reflexivity | constructor ] ].
      eapply wellFormed_withElem_nodes; try eassumption.
      do 2 (apply nodeShaped_set; [ reflexivity | reflexivity | ]).
      apply nodeShaped_set_style.
      apply nodeShaped_set; [ reflexivity | reflexivity | ]. exact Hsh.
    + erewrite updateNodeType_missing by eassumption.
      split; [ exact Hwf | split; [ reflexivity | constructor ] ].
  - (* updateNodeStatus *)
    node_case Hns nid ns.
    + erewrite updateNodeStatus_found by eassumption. cbn [snd].
      split; [ | split; [ reflexivity | constructor ] ].
      eapply (wellFormed_withElem_nodes s); try eassumption.
      now apply nodeShaped_set_metadata.
    + erewrite updateNodeStatus_missing by eassumption.
      split; [ exact Hwf | split; [ reflexivity | constructor ] ].
  - (* updateNodeNotes *)
    node_case Hns nid ns.
    + erewrite updateNodeNotes_found by eassumption. cbn [snd].
      split; [ | split; [ reflexivity | constructor ] ].
      eapply (wellFormed_withElem_nodes s); try eassumption.
      now apply nodeShaped_set_metadata.
    + erewrite updateNodeNotes_missing by eassumption.
      split; [ exact Hwf | split; [ reflexivity | constructor ] ].
  - (* deleteNode *)
    destruct (deleteNode_wellShaped s ns cs qs nid Hws)
      as (s' & Hrun & Hws' & (Hnn & _) & _).
    rewrite Hrun. cbn [snd]. split; [ | split; [ lia | constructor ] ].
    exists (filter (keepsNode nid) ns), (filter (keepsConnection nid) cs), qs.
    split; [ exact Hws' | split; now apply Forall_filter ].
  - (* addConnection *)
    destruct (addConnection_wellShaped s ns cs qs f t label Hws)
      as (conn & s' & Hrun & Hconn & Hws' & Hnn & _).
    unfold Session.discard. rewrite (bind_ok _ _ _ _ _ Hrun). cbn [snd ret].
    split; [ | split; [ lia | constructor ] ].
    exists ns, (cs ++ [conn])%list, qs. split; [ exact Hws' | split; auto ].
    apply Forall_app_one; auto. now rewrite Hconn.
  - (* updateConnectionLabel *)
    conn_case Hcs cid cs.
    + erewrite updateConnectionLabel_found by eassumption.
      split; [ | split; [ reflexivity | constructor ] ].
      eapply wellFormed_withElem_connections; try eassumption.
      apply connectionShaped_set; [ reflexivity | ]. exact Hsh.
    + erewrite updateConnectionLabel_missing by eassumption.
      split; [ exact Hwf | split; [ reflexivity | constructor ] ].
  - (* updateConnectionStyle *)
    conn_case Hcs cid cs.
    + erewrite updateConnectionStyle_found by eassumption. cbn [snd].
      split; [ | split; [ reflexivity | constructor ] ].
      eapply wellFormed_withElem_connections; try eassumption.
      apply connectionShaped_set; [ reflexivity | ]. exact Hsh.
    + erewrite updateConnectionStyle_missing by eassumption.
      split; [ exact Hwf | split; [ reflexivity | constructor ] ].
  - (* updateConnectionStatus *)
    conn_case Hcs cid cs.
    + erewrite updateConnectionStatus_found by eassumption. cbn [snd].
      split; [ | split; [ reflexivity | constructor ] ].
      eapply wellFormed_withElem_connections; try eassumption.
      apply connectionShaped_set_metadata.
    + erewrite updateConnectionStatus_missing by eassumption.
      split; [ exact Hwf | split; [ reflexivity | constructor ] ].
  - (* deleteConnection *)
    destruct (deleteConnection_wellShaped s ns cs qs cid Hws)
      as (s' & Hrun & Hws' & (Hnn & _) & _).
    rewrite Hrun. cbn [snd]. split; [ | split; [ lia | constructor ] ].
    exists ns, (filter (keepsNode cid) cs), qs.
    split; [ exact Hws' | split; auto ]. now apply Forall_filter.
  - (* updateDescription *)
    destruct (sectionOf_inv _ _ _ Hsec) as (a & ps & b & rest & bps & Hd & Hf).
    unfold E.updateDescription. rewrite (writeHeader_spec _ _ _ _ _ Hd). cbn [snd].
    split; [ | split; [ reflexivity | constructor ] ].
    apply wellFormed_header; auto.
  - (* updateGeneralNotes *)
    destruct (sectionOf_inv _ _ _ Hsec) as (a & ps & b & rest & bps & Hd & Hf).
    unfold E.updateGeneralNotes. rewrite (writeHeader_spec _ _ _ _ _ Hd). cbn [snd].
    split; [ | split; [ reflexivity | constructor ] ].
    apply wellFormed_header; auto.
  - (* clearAll *)
    destruct (clearAll_wellShaped s ns cs qs Hws) as (s' & Hrun & Hws' & (Hnn & _) & _).
    rewrite Hrun. cbn [snd]. split; [ | split; [ lia | constructor ] ].
    exists [], [], []. split; [ exact Hws' | split; constructor ].
Qed.

Lemma wellFormed_init now hasNotifier : wellFormed (E.init now hasNotifier).
Proof.
  exists [], [], []. split; [ | split; constructor ].
  constructor; try reflexivity; constructor.
Qed.

Lemma allocated_cons c calls s :
  Session.allocated (c :: calls) s =
  (Session.allocated [c] s ++ Session.allocated calls (snd (Session.perform c s)))%list.
Proof. simpl. now rewrite !app_nil_r. Qed.

Lemma run_steps calls :
  forall s, wellFormed s ->
  wellFormed (Session.run calls s) /\
  (nextNodeId s <= nextNodeId (Session.run calls s))%N /\
  Forall (fun id => exists k, id = nodeId k /\ (k < nextNodeId (Session.run calls s))%N)
    (Session.allocated calls s).
Proof.
  induction calls as [|c calls IH]; intros s Hwf.
  - simpl. split; [ assumption | split; [ lia | constructor ] ].
  - destruct (perform_step c s Hwf) as (Hwf1 & Hle1 & Hal1).
    destruct (IH _ Hwf1) as (Hwf2 & Hle2 & Hal2).
    rewrite allocated_cons. cbn [Session.run].
    split; [ assumption | split; [ lia | ] ].
    apply Forall_app. split; [ | assumption ].
    eapply Forall_impl; [ | exact Hal1 ].
    intros id (k & Hk & Hlt). exists k. split; [ assumption | lia ].
Qed.

(** C10. [clearAll] empties the three arrays of the active section and
    leaves the identifier counters and the version, title, description
    and general notes of the diagram as they were; the node added next
    takes its identifier from the unchanged counter.  In a session made
    of editing calls on a new editor, with no load in it, this counter
    lies above every node identifier handed out so far, so no
    identifier is handed out again across a [clearAll]. *)
Theorem clearAll_keeps_counters :
  (forall s ns cs qs,
      wellShaped s ns cs qs ->
      exists s',
        E.clearAll s = (Ok tt, s') /\
        wellShaped s' [] [] [] /\
        nextNodeId s' = nextNodeId s /\
        nextConnectionId s' = nextConnectionId s /\
        nextQuestionId s' = nextQuestionId s /\
        header "version" s' = header "version" s /\
        header "title" s' = header "title" s /\
        header "description" s' = header "description" s /\
        header "generalNotes" s' = header "generalNotes" s /\
        forall type x y,
          exists node s'',
            E.addNode type x y s' = (Ok node, s'') /\
            idOf node = nodeId (nextNodeId s)) /\
  (forall now hasNotifier calls type x y,
      exists m node s'',
        E.addNode type x y
          (snd (E.clearAll (Session.run calls (E.init now hasNotifier))))
          = (Ok node, s'') /\
        idOf node = nodeId m /\
        Forall (fun id => exists k, id = nodeId k /\ (k < m)%N)
          (Session.allocated calls (E.init now hasNotifier))).
Proof.
  assert (Hclear : forall s ns cs qs,
      wellShaped s ns cs qs ->
      exists s',
        E.clearAll s = (Ok tt, s') /\
        wellShaped s' [] [] [] /\ sameCounters s s' /\ sameHeaders s s' /\
        forall type x y,
          exists node s'',
            E.addNode type x y s' = (Ok node, s'') /\
            idOf node = nodeId (nextNodeId s)).
  { intros s ns cs qs Hws.
    destruct (clearAll_wellShaped s ns cs qs Hws) as (s' & Hrun & Hws' & Hct & Hhd).
    exists s'. repeat (split; [ assumption | ]).
    intros type x y.
    destruct (addNode_wellShaped s' [] [] [] type x y Hws')
      as (node & s'' & Hadd & Hnode & _).
    exists node, s''. split; [ exact Hadd | ].
    rewrite Hnode. destruct Hct as (Hnn & _). now rewrite Hnn. }
  split.
  - intros s ns cs qs Hws.
    destruct (Hclear s ns cs qs Hws) as (s' & Hrun & Hws' & (Hnn & Hnc & Hnq) & Hhd & Hadd).
    exists s'. repeat (split; [ first [ assumption | now apply Hhd ] | ]).
    exact Hadd.
  - intros now hasNotifier calls type x y.
    destruct (run_steps calls _ (wellFormed_init now hasNotifier)) as (Hwf & _ & Hal).
    destruct Hwf as (ns & cs & qs & Hws & _).
    destruct (Hclear _ ns cs qs Hws) as (s' & Hrun & _ & _ & _ & Hadd).
    destruct (Hadd type x y) as (node & s'' & Hnode & Hid).
    exists (nextNodeId (Session.run calls (E.init now hasNotifier))), node, s''.
    rewrite Hrun. cbn [snd]. split; [ exact Hnode | split; [ exact Hid | exact Hal ] ].
Qed.

Lemma clearAll_keeps_counters_witness :
  exists s' node s'',
    E.clearAll Samples.triangle = (Ok tt, s') /\
    nextNodeId s' = 4%N /\
    E.addNode "process" (VNum 0) (VNum 0) s' = (Ok node, s'') /\
    idOf node = VStr "node-4".
Proof.
  sample_shape Samples.triangle W.
  destruct clearAll_keeps_counters as [Hclear _].
  destruct (Hclear _ _ _ _ W) as (s' & Hrun & _ & Hnn & _ & _ & _ & _ & _ & _ & Hadd).
  destruct (Hadd "process" (VNum 0) (VNum 0)) as (node & s'' & Hnode & Hid).
  exists s', node, s''.
  split; [ exact Hrun | ]. split; [ rewrite Hnn; reflexivity | ].
  split; [ exact Hnode | ]. rewrite Hid. reflexivity.
Defined.

(** A load recomputes the counters from the loaded diagram, so with a
    load in the session the claim fails: after three nodes, the load of
    an empty object puts the node counter back to 1, and the node added
    after the following [clearAll] is given [node-1], the identifier of
    the first node of the session. *)
Lemma load_then_clearAll_reuses_an_id :
  let s1 := Samples.threeNodes in
  let s2 := snd (E.loadFromJSON (VObj 1000 []) s1) in
  let s3 := snd (E.clearAll s2) in
  option_map (map idOf) (activeNodes s1)
    = Some [VStr "node-1"; VStr "node-2"; VStr "node-3"] /\
  nextNodeId s1 = 4%N /\
  fst (E.loadBody (VObj 1000 []) s1) = Ok tt /\
  nextNodeId s2 = 1%N /\
  fst (E.clearAll s2) = Ok tt /\
  nextNodeId s3 = 1%N /\
  exists node s4,
    E.addNode "process" (VNum 0) (VNum 0) s3 = (Ok node, s4) /\
    idOf node = VStr "node-1".
Proof.
  cbv zeta.
  split; [ vm_compute; reflexivity | ].
  split; [ vm_compute; reflexivity | ].
  split; [ vm_compute; reflexivity | ].
  split; [ vm_compute; reflexivity | ].
  split; [ vm_compute; reflexivity | ].
  split; [ vm_compute; reflexivity | ].
  eexists. eexists. split; vm_compute; reflexivity.
Qed.

Lemma status_is_plain_assignment_witness :
  exists ns,
    wellShaped Samples.approved ns [] [] /\
    statusOf (nth 0 ns VUndef) = VStr "approved" /\
    exists s' ns',
      E.updateNodeStatus (VStr "node-1") (VStr "rejected") Samples.approved = (Ok tt, s') /\
      activeNodes s' = Some ns' /\
      statusOf (nth 0 ns' VUndef) = VStr "rejected".
Proof.
  sample_shape Samples.approved W.
  eexists. split; [ exact W | ]. split; [ reflexivity | ].
  destruct (status_is_plain_assignment _ _ _ _ W) as [Hset _].
  destruct (Hset (VStr "node-1") (VStr "rejected") 0 eq_refl eq_refl)
    as (s' & Hrun & Hnodes & Hstatus & _).
  exists s'. eexists. split; [ exact Hrun | ]. split; [ exact Hnodes | ].
  reflexivity.
Defined.

(** ** What a computation leaves alone *)

Section Keeps.

Context {X : Type} (f : editor -> X).

Lemma keeps_ret {A} (a : A) : keeps f (ret a).
Proof. intros s. reflexivity. Qed.

Lemma keeps_liftO {A} (o : outcome A) : keeps f (liftO o).
Proof. intros s. reflexivity. Qed.

Lemma keeps_gets {A} (g : editor -> A) : keeps f (gets g).
Proof. intros s. reflexivity. Qed.

Lemma keeps_bind {A B} (m : M A) (k : A -> M B) :
  keeps f m -> (forall a, keeps f (k a)) -> keeps f (bind m k).
Proof.
  intros Hm Hk s. unfold bind. specialize (Hm s).
  destruct (m s) as [[a|e] s1]; cbn [snd] in *.
  - rewrite (Hk a s1). exact Hm.
  - exact Hm.
Qed.

Lemma keeps_modify (g : editor -> editor) :
  (forall s, f (g s) = f s) -> keeps f (modify g).
Proof. intros Hg s. apply Hg. Qed.

Lemma keeps_forEach {A} (g : A -> M unit) l :
  (forall a, keeps f (g a)) -> keeps f (forEach g l).
Proof.
  intros Hg. induction l as [|a l IH]; simpl.
  - apply keeps_ret.
  - apply keeps_bind; auto.
Qed.

Lemma keeps_if {A} (b : bool) (m1 m2 : M A) :
  keeps f m1 -> keeps f m2 -> keeps f (if b then m1 else m2).
Proof. destruct b; auto. Qed.

End Keeps.

Create HintDb keeps.

Ltac keeps_step :=
  match goal with
  | |- keeps _ (bind _ _) => apply keeps_bind; [ | intros ]
  | |- keeps _ (ret _) => apply keeps_ret
  | |- keeps _ (liftO _) => apply keeps_liftO
  | |- keeps _ (gets _) => apply keeps_gets
  | |- keeps _ (if _ then _ else _) => apply keeps_if
  | |- keeps _ (forEach _ _) => apply keeps_forEach; intros
  | |- keeps _ (let (_, _) := ?p in _) => destruct p
  | |- keeps _ (match ?o with Some _ => _ | None => _ end) => destruct o
  end.

Ltac keeps_tac := repeat keeps_step; auto with keeps.

Lemma keeps_readAt {X} (f : editor -> X) r : keeps f (readAt r).
Proof. unfold readAt. keeps_tac. Qed.
#[local] Hint Resolve keeps_readAt : keeps.

Lemma keeps_readProp {X} (f : editor -> X) r k : keeps f (readProp r k).
Proof. unfold readProp. keeps_tac. Qed.
#[local] Hint Resolve keeps_readProp : keeps.

Lemma keeps_getCurrentFlowchart {X} (f : editor -> X) : keeps f getCurrentFlowchart.
Proof. unfold getCurrentFlowchart. keeps_tac. Qed.
#[local] Hint Resolve keeps_getCurrentFlowchart : keeps.

Lemma keeps_findBy {X} (f : editor -> X) r k id : keeps f (findBy r k id).
Proof. unfold findBy. keeps_tac. Qed.
#[local] Hint Resolve keeps_findBy : keeps.

Lemma keeps_findNodeById {X} (f : editor -> X) id : keeps f (findNodeById id).
Proof. unfold findNodeById. keeps_tac. Qed.
#[local] Hint Resolve keeps_findNodeById : keeps.

Lemma keeps_renderNode {X} (f : editor -> X) n : keeps f (C.renderNode n).
Proof. unfold C.renderNode. keeps_tac. Qed.
#[local] Hint Resolve keeps_renderNode : keeps.

Lemma keeps_renderConnection {X} (f : editor -> X) cd : keeps f (C.renderConnection cd).
Proof. unfold C.renderConnection. keeps_tac. Qed.
#[local] Hint Resolve keeps_renderConnection : keeps.

Lemma keeps_updateStats {X} (f : editor -> X) : keeps f E.updateStats.
Proof. unfold E.updateStats. keeps_tac. Qed.
#[local] Hint Resolve keeps_updateStats : keeps.

Lemma keeps_updateQuestionsPanel {X} (f : editor -> X) : keeps f E.updateQuestionsPanel.
Proof. unfold E.updateQuestionsPanel. keeps_tac. Qed.
#[local] Hint Resolve keeps_updateQuestionsPanel : keeps.

Lemma keeps_renderAll {X} (f : editor -> X) : keeps f E.renderAll.
Proof. unfold E.renderAll. keeps_tac. Qed.
#[local] Hint Resolve keeps_renderAll : keeps.

Lemma keeps_alloc {X} (f : editor -> X) :
  (forall n s, f (withHeapNext n s) = f s) -> keeps f alloc.
Proof. intros H. unfold alloc. keeps_tac. apply keeps_modify. auto. Qed.

Lemma keeps_writeProp {X} (f : editor -> X) r k x :
  (forall d s, f (withData d s) = f s) -> keeps f (writeProp r k x).
Proof. intros H. unfold writeProp. keeps_tac. apply keeps_modify. auto. Qed.

Lemma keeps_updateIdCounters {X} (f : editor -> X) :
  (forall n s, f (withNextNodeId n s) = f s) ->
  (forall n s, f (withNextConnectionId n s) = f s) ->
  (forall n s, f (withNextQuestionId n s) = f s) ->
  keeps f E.updateIdCounters.
Proof.
  intros H1 H2 H3. unfold E.updateIdCounters. keeps_tac; apply keeps_modify; auto.
Qed.

Lemma keeps_ui_loadBody p : keeps uiOf (E.loadBody p).
Proof.
  unfold E.loadBody, E.loadLegacyArray, E.orEmptyArray. keeps_tac;
    first [ apply keeps_modify; reflexivity
          | apply keeps_writeProp; reflexivity
          | apply keeps_alloc; reflexivity
          | apply keeps_updateIdCounters; reflexivity ].
Qed.

Lemma keeps_data_afterLoad :
  keeps data (E.updateIdCounters ;; E.renderAll ;; E.updateStats).
Proof. keeps_tac. apply keeps_updateIdCounters; reflexivity. Qed.

(** ** Loading *)

Lemma loadFromJSON_unfold p s :
  E.loadFromJSON p s =
  match E.loadBody p s with
  | (Ok a, s') => (Ok a, s')
  | (Throw _, s') =>
      (Ok tt,
       withNotifications
         (if notifier s'
          then (notifications s' ++ [("Error loading flowchart data", "error")])%list
          else notifications s')
         (withConsole (console s' ++ ["Error loading JSON data:"])%list s'))
  end.
Proof.
  unfold E.loadFromJSON, tryCatch. destruct (E.loadBody p s) as [[[]|e] s']; auto.
  destruct s' as [d sel cip nn nc nq hn nt nts con].
  cbv beta iota delta [bind modify gets ret]. cbn [notifier withConsole].
  destruct nt; reflexivity.
Qed.

Lemma loadBody_nullish p s :
  p = VNull \/ p = VUndef -> E.loadBody p s = (Throw TypeError, s).
Proof. intros [->| ->]; reflexivity. Qed.

Lemma loadBody_versioned p s :
  isVersioned p = true ->
  E.loadBody p s =
  (E.updateIdCounters ;; E.renderAll ;; E.updateStats) (withData p s).
Proof.
  unfold isVersioned, E.loadBody. intros H.
  destruct (getProp "version" p) as [v|] eqn:Hv; try discriminate.
  apply andb_true_iff in H. destruct H as [Htv Hf].
  destruct (getProp "flowcharts" p) as [fc|] eqn:Hfc; try discriminate.
  cbv beta iota delta [bind liftO modify]. rewrite Htv. cbv beta iota.
  rewrite Hf. reflexivity.
Qed.

(** C1, as the code has it.  [loadFromJSON] lets no exception out.  When
    the body of its [try] block throws, the error is logged and, on a
    page that defines [showNotification], shown to the user; the diagram
    and the counters are left as the block had made them when it threw:
    unchanged for a null or undefined payload, which fails on the first
    read, but with the payload installed as the diagram for a payload in
    the versioned shape.  Nothing is rolled back. *)
Theorem load_failure_is_reported_not_undone p s :
  let s' := snd (E.loadFromJSON p s) in
  fst (E.loadFromJSON p s) = Ok tt /\
  modelState s' = modelState (snd (E.loadBody p s)) /\
  (isOk (fst (E.loadBody p s)) = false ->
     console s' = (console s ++ ["Error loading JSON data:"])%list /\
     notifications s' =
       if notifier s
       then (notifications s ++ [("Error loading flowchart data", "error")])%list
       else notifications s) /\
  (isOk (fst (E.loadBody p s)) = true -> uiOf s' = uiOf s) /\
  (p = VNull \/ p = VUndef ->
     isOk (fst (E.loadBody p s)) = false /\ modelState s' = modelState s) /\
  (isVersioned p = true -> data s' = p).
Proof.
  intros s'. subst s'. rewrite loadFromJSON_unfold.
  pose proof (keeps_ui_loadBody p s) as Hui.
  assert (Hnull : p = VNull \/ p = VUndef ->
                  isOk (fst (E.loadBody p s)) = false /\
                  modelState (snd (E.loadBody p s)) = modelState s).
  { intros Hp. rewrite (loadBody_nullish _ _ Hp). split; reflexivity. }
  assert (Hver : isVersioned p = true -> data (snd (E.loadBody p s)) = p).
  { intros Hp. rewrite (loadBody_versioned _ _ Hp).
    now rewrite (keeps_data_afterLoad (withData p s)). }
  destruct (E.loadBody p s) as [[[]|e] s1]; cbn [fst snd isOk] in *.
  - refine (conj eq_refl (conj eq_refl (conj _ (conj _ (conj Hnull Hver))))).
    + discriminate.
    + intros _. exact Hui.
  - unfold uiOf in Hui. inversion Hui as [[Hnt Hns Hcon]].
    refine (conj eq_refl (conj eq_refl (conj _ (conj _ (conj _ Hver))))).
    + intros _. cbn [console notifications withNotifications withConsole].
      rewrite Hnt, Hns, Hcon. split; reflexivity.
    + discriminate.
    + intros Hp. destruct (Hnull Hp) as [_ Hm]. split; [ reflexivity | exact Hm ].
Qed.

Lemma load_failure_is_reported_not_undone_witness :
  isOk (fst (E.loadBody VNull Samples.joined)) = false /\
  fst (E.loadFromJSON VNull Samples.joined) = Ok tt /\
  modelState (snd (E.loadFromJSON VNull Samples.joined)) = modelState Samples.joined /\
  notifications (snd (E.loadFromJSON VNull Samples.joined))
    = [("Error loading flowchart data", "error")] /\
  data (snd (E.loadFromJSON (Samples.parsed Samples.nodeWithoutId) Samples.joined))
    = Samples.parsed Samples.nodeWithoutId.
Proof.
  destruct (load_failure_is_reported_not_undone VNull Samples.joined)
    as (Hok & _ & Hrep & _ & Hnull & _).
  destruct (Hnull (or_introl eq_refl)) as [Hthrow Hsame].
  destruct (Hrep Hthrow) as [_ Hnote].
  destruct (load_failure_is_reported_not_undone
              (Samples.parsed Samples.nodeWithoutId) Samples.joined)
    as (_ & _ & _ & _ & _ & Hver).
  split; [ exact Hthrow | ]. split; [ exact Hok | ]. split; [ exact Hsame | ].
  split; [ exact Hnote | ]. apply Hver. reflexivity.
Defined.

(** C1 as stated fails: loading the file whose node has no [id] into the
    editor that holds two joined nodes throws inside the [try] block
    (the counter scan reads [id.match] of the node), the error is caught
    and shown, and the diagram is then the file, not the diagram from
    before the call. *)
Lemma load_error_leaves_payload_installed :
  let p := Samples.parsed Samples.nodeWithoutId in
  let s' := snd (E.loadFromJSON p Samples.joined) in
  fst (E.loadBody p Samples.joined) = Throw TypeError /\
  fst (E.loadFromJSON p Samples.joined) = Ok tt /\
  notifications s' = [("Error loading flowchart data", "error")] /\
  option_map (map idOf) (activeNodes Samples.joined)
    = Some [VStr "node-1"; VStr "node-2"] /\
  option_map (map idOf) (activeNodes s') = Some [VUndef] /\
  data s' = p /\
  erase (data s') <> erase (data Samples.joined) /\
  modelState s' <> modelState Samples.joined.
Proof.
  cbv zeta.
  split; [ vm_compute; reflexivity | ].
  split; [ vm_compute; reflexivity | ].
  split; [ vm_compute; reflexivity | ].
  split; [ vm_compute; reflexivity | ].
  split; [ vm_compute; reflexivity | ].
  split; [ vm_compute; reflexivity | ].
  split; [ vm_compute; discriminate | ].
  vm_compute. discriminate.
Qed.

(** ** Recomputing the counters *)

Lemma fold_max_ge l : forall acc, (acc <= fold_left N.max l acc)%N.
Proof.
  induction l as [|x l IH]; intros acc; simpl.
  - lia.
  - specialize (IH (N.max acc x)). lia.
Qed.

Lemma maxWith0_ge l k : In k l -> (k <= E.maxWith0 l)%N.
Proof.
  unfold E.maxWith0. generalize 0%N as acc.
  induction l as [|x l IH]; intros acc Hin; simpl in *.
  - contradiction.
  - destruct Hin as [->|Hin].
    + pose proof (fold_max_ge l (N.max acc k)). lia.
    + now apply IH.
Qed.

Lemma mapO_In {A B} (f : A -> outcome B) l ys x :
  mapO f l = Ok ys -> In x l -> exists y, f x = Ok y /\ In y ys.
Proof.
  revert ys. induction l as [|a l IH]; intros ys Hm Hin; simpl in *.
  - contradiction.
  - destruct (f a) as [b|] eqn:Hfa; simpl in Hm; try discriminate.
    destruct (mapO f l) as [bs|] eqn:Hl; simpl in Hm; try discriminate.
    inversion Hm; subst. destruct Hin as [->|Hin].
    + exists b. split; [ assumption | now left ].
    + destruct (IH bs eq_refl Hin) as (y & Hy & Hyin).
      exists y. split; [ assumption | now right ].
Qed.

Lemma mapO_In_inv {A B} (f : A -> outcome B) l ys y :
  mapO f l = Ok ys -> In y ys -> exists x, In x l /\ f x = Ok y.
Proof.
  revert ys. induction l as [|a l IH]; intros ys Hm Hin; simpl in *.
  - inversion Hm; subst. contradiction.
  - destruct (f a) as [b|] eqn:Hfa; simpl in Hm; try discriminate.
    destruct (mapO f l) as [bs|] eqn:Hl; simpl in Hm; try discriminate.
    inversion Hm; subst. destruct Hin as [->|Hin].
    + exists a. split; [ now left | assumption ].
    + destruct (IH bs eq_refl Hin) as (x & Hx & Hfx).
      exists x. split; [ now right | assumption ].
Qed.

Lemma fold_max_In l : forall acc,
  fold_left N.max l acc = acc \/ In (fold_left N.max l acc) l.
Proof.
  induction l as [|x l IH]; intros acc; simpl.
  - now left.
  - destruct (IH (N.max acc x)) as [H | H]; [ | right; now right ].
    rewrite H. destruct (N.max_spec acc x) as [[_ ->] | [_ ->]];
      [ right; now left | now left ].
Qed.

(** The counter that [updateIdCounters] computes stays among the
    integers that a double holds exactly when the numbers found do. *)
Lemma counter_is_exact pre l ids :
  mapO (E.idNumber pre) l = Ok ids ->
  (forall e k, In e l -> E.idNumber pre e = Ok k -> safeInteger k = true) ->
  (E.maxWith0 ids + 1 <= 2 ^ 53)%N.
Proof.
  intros Hm Hsafe. unfold E.maxWith0.
  destruct (fold_max_In ids 0%N) as [-> | Hin]; [ now vm_compute | ].
  destruct (mapO_In_inv _ _ _ _ Hm Hin) as (e & He & Hk).
  pose proof (Hsafe e _ He Hk) as Hlt. unfold safeInteger in Hlt.
  apply N.ltb_lt in Hlt. lia.
Qed.

Lemma bind_ok_inv {A B} (m : M A) (k : A -> M B) s b s' :
  bind m k s = (Ok b, s') ->
  exists a s1, m s = (Ok a, s1) /\ k a s1 = (Ok b, s').
Proof.
  unfold bind. destruct (m s) as [[a|e] s1]; intros H; try discriminate. eauto.
Qed.

Lemma takeDigits_digits d :
  takeDigits (NilEmpty.string_of_uint d) = NilEmpty.string_of_uint d.
Proof. induction d; simpl; now rewrite ?IHd. Qed.

Lemma dropPrefix_app pre s : dropPrefix pre (pre ++ s) = Some s.
Proof.
  induction pre as [|c pre IH]; simpl.
  - reflexivity.
  - now rewrite Ascii.eqb_refl.
Qed.

Lemma showN_nonempty n : showN n <> "".
Proof.
  rewrite showN_digits. pose proof (to_uint_nonnil n).
  destruct (N.to_uint n); simpl; congruence.
Qed.

Lemma matchDigits_showN pre n :
  matchDigits pre (pre ++ showN n) = Some (showN n).
Proof.
  pose proof (showN_nonempty n) as Hne.
  assert (Ht : takeDigits (showN n) = showN n)
    by (rewrite showN_digits; apply takeDigits_digits).
  destruct (pre ++ showN n) eqn:E; simpl; rewrite <- E, dropPrefix_app, Ht;
    destruct (showN n); congruence.
Qed.

Lemma idNumber_nodeId e n :
  isObject e = true -> idOf e = nodeId n -> E.idNumber "node-" e = Ok n.
Proof.
  intros He Hid. unfold E.idNumber. rewrite (getProp_object _ _ He).
  unfold idOf in Hid. rewrite Hid. unfold nodeId. cbn [obind].
  now rewrite matchDigits_showN, parseInt_showN.
Qed.

Section Counters.

Variables (s : editor) (ns cs qs : list value).
Hypothesis Hws : wellShaped s ns cs qs.

Lemma updateIdCounters_wellShaped nids cids qids :
  mapO (E.idNumber "node-") ns = Ok nids ->
  mapO (E.idNumber "conn-") cs = Ok cids ->
  mapO (E.idNumber "q-") qs = Ok qids ->
  E.updateIdCounters s =
  (Ok tt,
   withNextQuestionId (E.maxWith0 qids + 1)
     (withNextConnectionId (E.maxWith0 cids + 1)
        (withNextNodeId (E.maxWith0 nids + 1) s))).
Proof.
  intros Hn Hc Hq.
  destruct (wellShaped_inv _ _ _ _ Hws)
    as (c & sps & an & np & ac & cp & aq & qp & Hsec & Hln & Hlc & Hlq).
  unfold E.updateIdCounters.
  destruct s as [d sel cip nn nc nq hn nt nts con]. simpl in Hsec.
  erewrite bind_ok by (eapply (getCurrentFlowchart_section _ c sps); exact Hsec).
  erewrite bind_ok by (eapply (readProp_section _ c sps); exact Hsec).
  rewrite Hln. cbv beta iota delta [bind liftO orUndef arrayElems modify].
  rewrite Hn. editor_simpl.
  erewrite (readProp_section _ c sps) by exact Hsec.
  rewrite Hlc. cbv beta iota delta [orUndef]. rewrite Hc. editor_simpl.
  erewrite (readProp_section _ c sps) by exact Hsec.
  rewrite Hlq. cbv beta iota delta [orUndef]. rewrite Hq. reflexivity.
Qed.

Lemma updateIdCounters_success :
  fst (E.updateIdCounters s) = Ok tt ->
  exists nids cids qids,
    mapO (E.idNumber "node-") ns = Ok nids /\
    mapO (E.idNumber "conn-") cs = Ok cids /\
    mapO (E.idNumber "q-") qs = Ok qids.
Proof.
  destruct (wellShaped_inv _ _ _ _ Hws)
    as (c & sps & an & np & ac & cp & aq & qp & Hsec & Hln & Hlc & Hlq).
  unfold E.updateIdCounters.
  destruct s as [d sel cip nn nc nq hn nt nts con]. simpl in Hsec.
  erewrite bind_ok by (eapply (getCurrentFlowchart_section _ c sps); exact Hsec).
  erewrite bind_ok by (eapply (readProp_section _ c sps); exact Hsec).
  rewrite Hln. cbv beta iota delta [bind liftO orUndef arrayElems modify].
  destruct (mapO (E.idNumber "node-") ns) as [nids|] eqn:En; [ | simpl; discriminate ].
  editor_simpl.
  erewrite (readProp_section _ c sps) by exact Hsec.
  rewrite Hlc. cbv beta iota delta [orUndef].
  destruct (mapO (E.idNumber "conn-") cs) as [cids|] eqn:Ec; [ | simpl; discriminate ].
  editor_simpl.
  erewrite (readProp_section _ c sps) by exact Hsec.
  rewrite Hlq. cbv beta iota delta [orUndef].
  destruct (mapO (E.idNumber "q-") qs) as [qids|] eqn:Eq; [ | simpl; discriminate ].
  intros _. exists nids, cids, qids. auto.
Qed.

End Counters.

Lemma loadBody_success p s :
  fst (E.loadBody p s) = Ok tt ->
  exists s1,
    fst (E.updateIdCounters s1) = Ok tt /\
    snd (E.loadBody p s) = snd (E.updateIdCounters s1) /\
    data s1 = data (snd (E.loadBody p s)).
Proof.
  destruct (E.loadBody p s) as [o s'] eqn:Hrun. cbn [fst snd]. intros ->.
  unfold E.loadBody in Hrun.
  apply bind_ok_inv in Hrun. destruct Hrun as (version & s0 & _ & Hrun).
  apply bind_ok_inv in Hrun. destruct Hrun as (cond & s0' & _ & Hrun).
  apply bind_ok_inv in Hrun. destruct Hrun as (u & s1 & _ & Hrun).
  apply bind_ok_inv in Hrun. destruct Hrun as (u' & s2 & Hcount & Hrun).
  assert (Hs' : s' = s2).
  { pose proof (keeps_bind (fun x => x) E.renderAll (fun _ => E.updateStats)
                  (keeps_renderAll _) (fun _ => keeps_updateStats _) s2) as K.
    rewrite Hrun in K. exact K. }
  subst s'. exists s1. rewrite Hcount. cbn [fst snd]. destruct u'.
  split; [ reflexivity | split; [ reflexivity | ] ].
  pose proof (keeps_updateIdCounters data (fun _ _ => eq_refl) (fun _ _ => eq_refl)
                (fun _ _ => eq_refl) s1) as K.
  rewrite Hcount in K. cbn [snd] in K. now rewrite K.
Qed.

(** C3, as the code has it.  After a load that succeeds and leaves a
    well-shaped diagram, each counter is one more than the greatest
    number that the pattern of its kind ([node-(\d+)], [conn-(\d+)],
    [q-(\d+)]) finds in the identifiers of the active (first) section,
    an identifier without a match counting as 0; so it lies above every
    one of these numbers, sparse or not, and the next [addNode] and
    [addConnection] take their identifiers from these counters.  For a
    payload in the versioned shape the diagram is the payload, so these
    are the identifiers of its first section.  The numbers found are
    taken below [2^53], where the counters are exact: the code computes
    them in doubles. *)
Theorem counters_follow_active_section p s ns cs qs
  (Hload : fst (E.loadBody p s) = Ok tt)
  (Hshape : wellShaped (snd (E.loadFromJSON p s)) ns cs qs)
  (Hnodes53 : forall e k, In e ns -> E.idNumber "node-" e = Ok k -> safeInteger k = true)
  (Hconns53 : forall e k, In e cs -> E.idNumber "conn-" e = Ok k -> safeInteger k = true)
  (Hqs53 : forall e k, In e qs -> E.idNumber "q-" e = Ok k -> safeInteger k = true) :
  let s' := snd (E.loadFromJSON p s) in
  (nextNodeId s' <= 2 ^ 53 /\ nextConnectionId s' <= 2 ^ 53 /\
   nextQuestionId s' <= 2 ^ 53)%N /\
  (exists nids cids qids,
     mapO (E.idNumber "node-") ns = Ok nids /\
     mapO (E.idNumber "conn-") cs = Ok cids /\
     mapO (E.idNumber "q-") qs = Ok qids /\
     nextNodeId s' = (E.maxWith0 nids + 1)%N /\
     nextConnectionId s' = (E.maxWith0 cids + 1)%N /\
     nextQuestionId s' = (E.maxWith0 qids + 1)%N) /\
  (forall e k, In e ns -> E.idNumber "node-" e = Ok k -> (k < nextNodeId s')%N) /\
  (forall e n, In e ns -> idOf e = nodeId n -> (n < nextNodeId s')%N) /\
  (forall e k, In e cs -> E.idNumber "conn-" e = Ok k -> (k < nextConnectionId s')%N) /\
  (forall e k, In e qs -> E.idNumber "q-" e = Ok k -> (k < nextQuestionId s')%N) /\
  (forall type x y,
     inherited type = false ->
     exists node s'',
       E.addNode type x y s' = (Ok node, s'') /\
       idOf node = nodeId (nextNodeId s')) /\
  (forall f t label,
     exists conn s'',
       E.addConnection f t label s' = (Ok conn, s'') /\
       idOf conn = VStr ("conn-" ++ showN (nextConnectionId s'))) /\
  (isVersioned p = true -> data s' = p).
Proof.
  intros s'.
  assert (Es' : s' = snd (E.loadBody p s)).
  { subst s'. rewrite loadFromJSON_unfold.
    destruct (E.loadBody p s) as [[[]|e] s1]; [ reflexivity | discriminate ]. }
  destruct (loadBody_success p s Hload) as (s1 & Hok & Hsnd & Hdata).
  assert (Hws1 : wellShaped s1 ns cs qs).
  { apply (wellShaped_data s'); [ | exact Hshape ]. now rewrite Es'. }
  destruct (updateIdCounters_success s1 ns cs qs Hws1 Hok)
    as (nids & cids & qids & Hn & Hc & Hq).
  pose proof (updateIdCounters_wellShaped s1 ns cs qs Hws1 nids cids qids Hn Hc Hq) as Hrun.
  assert (Hnn : nextNodeId s' = (E.maxWith0 nids + 1)%N)
    by (rewrite Es', Hsnd, Hrun; reflexivity).
  assert (Hnc : nextConnectionId s' = (E.maxWith0 cids + 1)%N)
    by (rewrite Es', Hsnd, Hrun; reflexivity).
  assert (Hnq : nextQuestionId s' = (E.maxWith0 qids + 1)%N)
    by (rewrite Es', Hsnd, Hrun; reflexivity).
  assert (Hbound : forall pre l ids e k,
             mapO (E.idNumber pre) l = Ok ids -> In e l ->
             E.idNumber pre e = Ok k -> (k < E.maxWith0 ids + 1)%N).
  { intros pre l ids e k Hm Hin Hk.
    destruct (mapO_In _ _ _ _ Hm Hin) as (k' & Hk' & Hin').
    rewrite Hk in Hk'. inversion Hk'; subst k'.
    pose proof (maxWith0_ge _ _ Hin'). lia. }
  split.
  { rewrite Hnn, Hnc, Hnq.
    split; [ exact (counter_is_exact _ _ _ Hn Hnodes53) | ].
    split; [ exact (counter_is_exact _ _ _ Hc Hconns53)
           | exact (counter_is_exact _ _ _ Hq Hqs53) ]. }
  split; [ exists nids, cids, qids; auto 10 | ].
  split; [ intros e k Hin Hk; rewrite Hnn; eapply Hbound; eassumption | ].
  split.
  { intros e n Hin Hid. rewrite Hnn. eapply (Hbound "node-"); try eassumption.
    apply idNumber_nodeId; auto.
    pose proof (ws_node_objects _ _ _ _ Hshape) as Hobj.
    rewrite Forall_forall in Hobj. now apply Hobj. }
  split; [ intros e k Hin Hk; rewrite Hnc; eapply Hbound; eassumption | ].
  split; [ intros e k Hin Hk; rewrite Hnq; eapply Hbound; eassumption | ].
  split.
  { intros type x y _.
    destruct (addNode_wellShaped s' ns cs qs type x y Hshape)
      as (node & s'' & Hadd & Hnode & _).
    exists node, s''. split; [ exact Hadd | now rewrite Hnode ]. }
  split.
  { intros f t label.
    destruct (addConnection_wellShaped s' ns cs qs f t label Hshape)
      as (conn & s'' & Hadd & Hconn & _).
    exists conn, s''. split; [ exact Hadd | now rewrite Hconn ]. }
  intros Hv. rewrite Es', (loadBody_versioned _ _ Hv).
  now rewrite (keeps_data_afterLoad (withData p s)).
Qed.

Lemma counters_follow_active_section_witness :
  let p := Samples.parsed Samples.sparseIds in
  let s' := snd (E.loadFromJSON p Samples.fresh) in
  option_map (map idOf) (activeNodes s') = Some [VStr "node-3"; VStr "node-7"] /\
  nextNodeId s' = 8%N /\
  exists node s'',
    E.addNode "process" (VNum 0) (VNum 0) s' = (Ok node, s'') /\
    idOf node = VStr "node-8".
Proof.
  cbv zeta.
  sample_shape (snd (E.loadFromJSON (Samples.parsed Samples.sparseIds) Samples.fresh)) W.
  assert (Hload : fst (E.loadBody (Samples.parsed Samples.sparseIds) Samples.fresh) = Ok tt)
    by (vm_compute; reflexivity).
  destruct (counters_follow_active_section _ _ _ _ _ Hload W)
    as (_ & _ & _ & _ & _ & _ & Hadd & _).
  { intros e k [<- | [<- | []]] Hk; vm_compute in Hk; inversion Hk; reflexivity. }
  { intros e k []. }
  { intros e k []. }
  destruct (Hadd "process" (VNum 0) (VNum 0) eq_refl) as (node & s'' & Hnode & Hid).
  split; [ vm_compute; reflexivity | ].
  split; [ vm_compute; reflexivity | ].
  exists node, s''. split; [ exact Hnode | ].
  rewrite Hid. vm_compute. reflexivity.
Defined.

(** C3 as stated fails for a file of several sections: only the first
    is scanned.  After the file with [node-3] in its first section and
    [node-7] in its second has been loaded, [addNode] hands out
    [node-4], whose number is below the 7 of the file's [node-7]. *)
Lemma other_sections_are_not_scanned :
  let p := Samples.parsed Samples.twoSections in
  let s' := snd (E.loadFromJSON p Samples.fresh) in
  fst (E.loadBody p Samples.fresh) = Ok tt /\
  data s' = p /\
  (exists n7,
     deref [KProp "flowcharts"; KIdx 1; KProp "nodes"; KIdx 0] p = Ok n7 /\
     idOf n7 = VStr "node-7" /\
     E.idNumber "node-" n7 = Ok 7%N) /\
  (exists node s'',
     E.addNode "process" (VNum 0) (VNum 0) s' = (Ok node, s'') /\
     idOf node = VStr "node-4" /\
     E.idNumber "node-" node = Ok 4%N) /\
  ~ (7 < 4)%N.
Proof.
  cbv zeta.
  split; [ vm_compute; reflexivity | ].
  split; [ vm_compute; reflexivity | ].
  split.
  { eexists. split; [ vm_compute; reflexivity | ].
    split; vm_compute; reflexivity. }
  split.
  { do 2 eexists. split; [ vm_compute; reflexivity | ].
    split; vm_compute; reflexivity. }
  lia.
Qed.

(* ================================================================== *)
(** * The canvas geometry *)

(** ** Arithmetic of doubles *)

Lemma nan_spec : Prim2SF nan = S754_nan.
Proof. reflexivity. Qed.

Lemma add_nan_r c : (c + nan)%float = nan.
Proof.
  apply Prim2SF_inj. rewrite add_spec. change (Prim2SF nan) with S754_nan.
  unfold SF64add, SFadd. destruct (Prim2SF c); reflexivity.
Qed.

Lemma sub_self c : (c - c)%float = 0%float \/ (c - c)%float = nan.
Proof.
  assert (H : Prim2SF (c - c) = S754_zero false \/ Prim2SF (c - c) = S754_nan).
  { rewrite sub_spec. unfold SF64sub, SFsub. destruct (Prim2SF c) as [s|s| |s m e].
    - left. destruct s; reflexivity.
    - right. destruct s; reflexivity.
    - right. reflexivity.
    - left.
      cbv zeta. rewrite Z.sub_diag. reflexivity. }
  destruct H as [H | H]; [ left | right ]; apply Prim2SF_inj; rewrite H; reflexivity.
Qed.

Lemma add_nan_l c : (nan + c)%float = nan.
Proof.
  apply Prim2SF_inj. rewrite add_spec. reflexivity.
Qed.

Lemma div_nan_r c : (c / nan)%float = nan.
Proof.
  apply Prim2SF_inj. rewrite div_spec. change (Prim2SF nan) with S754_nan.
  unfold SF64div, SFdiv. destruct (Prim2SF c); reflexivity.
Qed.

Lemma mul_zero_l h :
  (0 * h)%float = 0%float \/ (0 * h)%float = (-0)%float \/ (0 * h)%float = nan.
Proof.
  assert (H : Prim2SF (0 * h) = S754_zero false \/ Prim2SF (0 * h) = S754_zero true \/
              Prim2SF (0 * h) = S754_nan).
  { rewrite mul_spec. change (Prim2SF 0) with (S754_zero false).
    unfold SF64mul, SFmul. destruct (Prim2SF h) as [s|s| |s m e]; try destruct s; auto. }
  destruct H as [H | [H | H]]; [ left | right; left | right; right ];
    apply Prim2SF_inj; rewrite H; reflexivity.
Qed.

Lemma mul_nan_l h : (nan * h)%float = nan.
Proof. apply Prim2SF_inj. rewrite mul_spec. reflexivity. Qed.

(** ** The order of doubles *)

Ltac compare_cases :=
  repeat match goal with
    | |- context [(?a ?= ?b)%Z] => destruct (Z.compare_spec a b)
    | |- context [PosDef.Pos.compare_cont Eq ?a ?b] =>
        change (PosDef.Pos.compare_cont Eq a b) with (Pos.compare a b);
        destruct (Pos.compare_spec a b)
    end.

Lemma SFleb_trans x y z :
  SFleb x y = true -> SFleb y z = true -> SFleb x z = true.
Proof.
  unfold SFleb, SFcompare.
  destruct x as [sx|sx| |sx mx ex], y as [sy|sy| |sy my ey], z as [sz|sz| |sz mz ez];
    try destruct sx; try destruct sy; try destruct sz;
    try reflexivity; try discriminate; try (intros; discriminate);
    compare_cases; cbn [CompOpp]; intros; subst;
    try reflexivity; try discriminate; try lia.
Qed.

Lemma SFcompare_refl x : x <> S754_nan -> SFcompare x x = Some Eq.
Proof.
  destruct x as [s|s| |s m e]; cbn [SFcompare]; try reflexivity.
  - destruct s; reflexivity.
  - intros H. now contradiction H.
  - intros _. rewrite Z.compare_refl.
    change (PosDef.Pos.compare_cont Eq m m) with (Pos.compare m m).
    rewrite Pos.compare_refl. destruct s; reflexivity.
Qed.

Lemma SFcompare_total x y :
  x <> S754_nan -> y <> S754_nan ->
  SFltb x y = false -> SFltb y x = false ->
  SFleb x y = true /\ SFleb y x = true.
Proof.
  unfold SFltb, SFleb, SFcompare.
  destruct x as [sx|sx| |sx mx ex], y as [sy|sy| |sy my ey];
    try destruct sx; try destruct sy;
    intros Hx Hy; try (now contradiction Hx); try (now contradiction Hy);
    try (split; reflexivity); try discriminate; try (intros; discriminate);
    compare_cases; cbn [CompOpp]; intros; subst;
    try (split; reflexivity); try discriminate; try lia.
Qed.

Lemma SFltb_leb x y : SFltb x y = true -> SFleb x y = true.
Proof. unfold SFltb, SFleb. destruct (SFcompare x y) as [[| |]|]; easy. Qed.

Lemma is_nan_spec f : is_nan f = false <-> Prim2SF f <> S754_nan.
Proof.
  unfold is_nan. rewrite negb_false_iff, FloatAxioms.eqb_spec. unfold SFeqb. split.
  - intros H E. rewrite E in H. discriminate H.
  - intros H. now rewrite SFcompare_refl.
Qed.

Lemma leb_refl f : is_nan f = false -> (f <=? f)%float = true.
Proof.
  intros H. apply is_nan_spec in H. rewrite leb_spec. unfold SFleb.
  now rewrite SFcompare_refl.
Qed.

Lemma leb_trans a b c :
  (a <=? b)%float = true -> (b <=? c)%float = true -> (a <=? c)%float = true.
Proof. rewrite !leb_spec. apply SFleb_trans. Qed.

Lemma ltb_leb a b : (a <? b)%float = true -> (a <=? b)%float = true.
Proof. rewrite ltb_spec, leb_spec. apply SFltb_leb. Qed.

Lemma leb_total a b :
  is_nan a = false -> is_nan b = false ->
  (a <? b)%float = false -> (b <? a)%float = false ->
  (a <=? b)%float = true /\ (b <=? a)%float = true.
Proof.
  intros Ha Hb. apply is_nan_spec in Ha, Hb. rewrite !ltb_spec, !leb_spec.
  now apply SFcompare_total.
Qed.
(** ** The edge point of a rectangle *)




(** ** The bounding box and [fitToScreen] *)

Lemma nmin_cases a b :
  is_nan a = false -> is_nan b = false ->
  (C.nmin a b = a \/ C.nmin a b = b) /\
  (C.nmin a b <=? a)%float = true /\ (C.nmin a b <=? b)%float = true.
Proof.
  intros Ha Hb. unfold C.nmin. rewrite Ha, Hb. cbn [orb].
  destruct (b <? a)%float eqn:Hba.
  - split; [ now right | ]. split; [ now apply ltb_leb | now apply leb_refl ].
  - destruct (a <? b)%float eqn:Hab.
    + split; [ now left | ]. split; [ now apply leb_refl | now apply ltb_leb ].
    + destruct (leb_total a b Ha Hb Hab Hba) as [H1 H2].
      destruct (get_sign a).
      * split; [ now left | ]. split; [ now apply leb_refl | exact H1 ].
      * split; [ now right | ]. split; [ exact H2 | now apply leb_refl ].
Qed.

Lemma nmax_cases a b :
  is_nan a = false -> is_nan b = false ->
  (C.nmax a b = a \/ C.nmax a b = b) /\
  (a <=? C.nmax a b)%float = true /\ (b <=? C.nmax a b)%float = true.
Proof.
  intros Ha Hb. unfold C.nmax. rewrite Ha, Hb. cbn [orb].
  destruct (a <? b)%float eqn:Hab.
  - split; [ now right | ]. split; [ now apply ltb_leb | now apply leb_refl ].
  - destruct (b <? a)%float eqn:Hba.
    + split; [ now left | ]. split; [ now apply leb_refl | now apply ltb_leb ].
    + destruct (leb_total a b Ha Hb Hab Hba) as [H1 H2].
      destruct (get_sign a).
      * split; [ now right | ]. split; [ exact H1 | now apply leb_refl ].
      * split; [ now left | ]. split; [ now apply leb_refl | exact H2 ].
Qed.

Lemma fold_nmin l : forall acc,
  is_nan acc = false -> Forall (fun v => is_nan v = false) l ->
  let m := fold_left C.nmin l acc in
  is_nan m = false /\ (m = acc \/ In m l) /\
  (m <=? acc)%float = true /\ Forall (fun v => (m <=? v)%float = true) l.
Proof.
  induction l as [|v l IH]; intros acc Hacc Hl; cbn [fold_left].
  - cbv zeta. split; [ exact Hacc | ]. split; [ now left | ].
    split; [ now apply leb_refl | constructor ].
  - inversion Hl as [|? ? Hv Hl']; subst.
    destruct (nmin_cases acc v Hacc Hv) as (Hor & Hle1 & Hle2).
    assert (Hn : is_nan (C.nmin acc v) = false) by (destruct Hor as [-> | ->]; assumption).
    destruct (IH (C.nmin acc v) Hn Hl') as (Hm & Hin & Hle & Hall).
    cbv zeta. split; [ exact Hm | ]. split; [ | split ].
    + destruct Hin as [-> | Hin]; [ | right; now right ].
      destruct Hor as [-> | ->]; [ now left | right; now left ].
    + exact (leb_trans _ _ _ Hle Hle1).
    + constructor; [ exact (leb_trans _ _ _ Hle Hle2) | exact Hall ].
Qed.

Lemma fold_nmax l : forall acc,
  is_nan acc = false -> Forall (fun v => is_nan v = false) l ->
  let m := fold_left C.nmax l acc in
  is_nan m = false /\ (m = acc \/ In m l) /\
  (acc <=? m)%float = true /\ Forall (fun v => (v <=? m)%float = true) l.
Proof.
  induction l as [|v l IH]; intros acc Hacc Hl; cbn [fold_left].
  - cbv zeta. split; [ exact Hacc | ]. split; [ now left | ].
    split; [ now apply leb_refl | constructor ].
  - inversion Hl as [|? ? Hv Hl']; subst.
    destruct (nmax_cases acc v Hacc Hv) as (Hor & Hle1 & Hle2).
    assert (Hn : is_nan (C.nmax acc v) = false) by (destruct Hor as [-> | ->]; assumption).
    destruct (IH (C.nmax acc v) Hn Hl') as (Hm & Hin & Hle & Hall).
    cbv zeta. split; [ exact Hm | ]. split; [ | split ].
    + destruct Hin as [-> | Hin]; [ | right; now right ].
      destruct Hor as [-> | ->]; [ now left | right; now left ].
    + exact (leb_trans _ _ _ Hle1 Hle).
    + constructor; [ exact (leb_trans _ _ _ Hle2 Hle) | exact Hall ].
Qed.

Lemma nmin_infinity v : is_nan v = false -> C.nmin infinity v = v.
Proof.
  intros Hv. unfold C.nmin. rewrite Hv. cbn [orb].
  change (is_nan infinity) with false. cbv iota.
  destruct (v <? infinity)%float; [ reflexivity | ].
  assert (H : (infinity <? v)%float = false).
  { rewrite ltb_spec. change (Prim2SF infinity) with (S754_infinity false).
    unfold SFltb, SFcompare. destruct (Prim2SF v) as [s|s| |s m e]; try destruct s; reflexivity. }
  rewrite H. reflexivity.
Qed.

Lemma nmax_neg_infinity v : is_nan v = false -> C.nmax neg_infinity v = v.
Proof.
  intros Hv. unfold C.nmax. rewrite Hv. cbn [orb].
  change (is_nan neg_infinity) with false. cbv iota.
  destruct (neg_infinity <? v)%float; [ reflexivity | ].
  assert (H : (v <? neg_infinity)%float = false).
  { rewrite ltb_spec. change (Prim2SF neg_infinity) with (S754_infinity true).
    unfold SFltb, SFcompare. destruct (Prim2SF v) as [s|s| |s m e]; try destruct s; reflexivity. }
  rewrite H. reflexivity.
Qed.

(** The least and the greatest of a list of numbers, none of them
    [NaN]. *)
Lemma minOf_least v l :
  Forall (fun v => is_nan v = false) (v :: l) ->
  In (C.minOf (v :: l)) (v :: l) /\
  Forall (fun w => (C.minOf (v :: l) <=? w)%float = true) (v :: l).
Proof.
  intros H. inversion H as [|? ? Hv Hl]; subst.
  unfold C.minOf. cbn [fold_left]. rewrite (nmin_infinity v Hv).
  destruct (fold_nmin l v Hv Hl) as (_ & Hin & Hle & Hall). cbv zeta in *.
  split.
  - destruct Hin as [-> | Hin]; [ now left | now right ].
  - constructor; assumption.
Qed.

Lemma maxOf_greatest v l :
  Forall (fun v => is_nan v = false) (v :: l) ->
  In (C.maxOf (v :: l)) (v :: l) /\
  Forall (fun w => (w <=? C.maxOf (v :: l))%float = true) (v :: l).
Proof.
  intros H. inversion H as [|? ? Hv Hl]; subst.
  unfold C.maxOf. cbn [fold_left]. rewrite (nmax_neg_infinity v Hv).
  destruct (fold_nmax l v Hv Hl) as (_ & Hin & Hle & Hall). cbv zeta in *.
  split.
  - destruct Hin as [-> | Hin]; [ now left | now right ].
  - constructor; assumption.
Qed.




(** ** Files: [JSON.stringify] and [JSON.parse] *)

(** Induction on values and on JSON texts, through their lists. *)
Lemma value_nested_ind (P : value -> Prop)
  (HUndef : P VUndef) (HNull : P VNull)
  (HBool : forall b, P (VBool b)) (HNum : forall q, P (VNum q))
  (HStr : forall s, P (VStr s))
  (HArr : forall a es ps,
      Forall P es -> Forall (fun p => P (snd p)) ps -> P (VArr a es ps))
  (HObj : forall a ps, Forall (fun p => P (snd p)) ps -> P (VObj a ps)) :
  forall v, P v.
Proof.
  fix IH 1. intros [| |b|q|s|a es ps|a ps];
    [ exact HUndef | exact HNull | apply HBool | apply HNum | apply HStr | | ].
  - apply HArr.
    + induction es as [|e es IHes]; constructor; [ apply IH | exact IHes ].
    + induction ps as [|p ps IHps]; constructor; [ apply IH | exact IHps ].
  - apply HObj.
    induction ps as [|p ps IHps]; constructor; [ apply IH | exact IHps ].
Qed.

Lemma json_nested_ind (P : json -> Prop)
  (HNull : P JNull) (HBool : forall b, P (JBool b))
  (HNum : forall q, P (JNum q)) (HStr : forall s, P (JStr s))
  (HArr : forall js, Forall P js -> P (JArr js))
  (HObj : forall ms, Forall (fun m => P (snd m)) ms -> P (JObj ms)) :
  forall j, P j.
Proof.
  fix IH 1. intros [|b|q|s|js|ms];
    [ exact HNull | apply HBool | apply HNum | apply HStr | | ].
  - apply HArr.
    induction js as [|e js IHjs]; constructor; [ apply IH | exact IHjs ].
  - apply HObj.
    induction ms as [|m ms IHms]; constructor; [ apply IH | exact IHms ].
Qed.

Lemma stringify_object a ps :
  stringify (VObj a ps) = Some (JObj (stringifyMembers ps)).
Proof. reflexivity. Qed.

Lemma parse_array js n :
  parse (JArr js) n =
  let (vs, m) := parseElems js (S n) in (VArr n vs [], m).
Proof. reflexivity. Qed.

Lemma parse_object ms n :
  parse (JObj ms) n =
  let (ps, m) := parseMembers ms (S n) in (VObj n ps, m).
Proof. reflexivity. Qed.

Lemma parseElems_cons x rest m :
  parseElems (x :: rest) m =
  let (v, m1) := parse x m in
  let (vs, m2) := parseElems rest m1 in (v :: vs, m2).
Proof. reflexivity. Qed.

Lemma parseMembers_cons k x rest m :
  parseMembers ((k, x) :: rest) m =
  let (v, m1) := parse x m in
  let (vs, m2) := parseMembers rest m1 in ((k, v) :: vs, m2).
Proof. reflexivity. Qed.

Lemma stringifyMembers_cons k x rest :
  stringifyMembers ((k, x) :: rest) =
  match stringify x with
  | Some j => (k, j) :: stringifyMembers rest
  | None => stringifyMembers rest
  end.
Proof. reflexivity. Qed.

Lemma clean_array a es ps :
  clean (VArr a es ps) = true <->
  Forall (fun e => clean e = true) es /\ ps = [].
Proof.
  cbn [clean]. rewrite andb_true_iff, forallb_forall, Forall_forall.
  destruct ps; intuition (auto; discriminate).
Qed.

Lemma clean_object a ps :
  clean (VObj a ps) = true <-> Forall (fun p => clean (snd p) = true) ps.
Proof. cbn [clean]. now rewrite forallb_forall, Forall_forall. Qed.

Lemma cleanBelow_array n a es ps :
  cleanBelow n (VArr a es ps) = true <->
  a < n /\ Forall (fun e => cleanBelow n e = true) es /\ ps = [].
Proof.
  cbn [cleanBelow]. rewrite !andb_true_iff, Nat.ltb_lt, forallb_forall, Forall_forall.
  destruct ps; intuition (auto; discriminate).
Qed.

Lemma cleanBelow_object n a ps :
  cleanBelow n (VObj a ps) = true <->
  a < n /\ Forall (fun p => cleanBelow n (snd p) = true) ps.
Proof.
  cbn [cleanBelow]. now rewrite andb_true_iff, Nat.ltb_lt, forallb_forall, Forall_forall.
Qed.

Lemma Forall_mp {A} (P Q : A -> Prop) l :
  Forall (fun x => P x -> Q x) l -> Forall P l -> Forall Q l.
Proof.
  induction 1 as [|x l Hx Hl IH]; intros H; inversion H; subst; constructor; auto.
Qed.

Lemma cleanBelow_clean n v : cleanBelow n v = true -> clean v = true.
Proof.
  induction v as [| | | | |a es ps IHes _|a ps IHps] using value_nested_ind;
    try (intros; assumption || reflexivity).
  - rewrite cleanBelow_array, clean_array. intros (_ & Hes & Hps).
    split; [ | assumption ]. exact (Forall_mp _ _ _ IHes Hes).
  - rewrite cleanBelow_object, clean_object. intros (_ & Hps).
    exact (Forall_mp _ _ _ IHps Hps).
Qed.

Lemma cleanBelow_mono n m v :
  n <= m -> cleanBelow n v = true -> cleanBelow m v = true.
Proof.
  intros Hle.
  induction v as [| | | | |a es ps IHes _|a ps IHps] using value_nested_ind;
    try (intros; assumption).
  - rewrite !cleanBelow_array. intros (Ha & Hes & Hps).
    split; [ lia | split; [ | assumption ] ]. exact (Forall_mp _ _ _ IHes Hes).
  - rewrite !cleanBelow_object. intros (Ha & Hps).
    split; [ lia | ]. exact (Forall_mp _ _ _ IHps Hps).
Qed.

Lemma Forall_flat_map {A B} (P : B -> Prop) (f : A -> list B) l :
  Forall (fun x => Forall P (f x)) l -> Forall P (flat_map f l).
Proof.
  induction 1 as [|x l Hx Hl IH]; simpl; [ constructor | ].
  apply Forall_app. auto.
Qed.

Lemma cleanBelow_addrs n v :
  cleanBelow n v = true -> Forall (fun a => a < n) (addrs v).
Proof.
  induction v as [| | | | |a es ps IHes _|a ps IHps] using value_nested_ind;
    try (intros _; apply Forall_nil).
  - rewrite cleanBelow_array. intros (Ha & Hes & ->). cbn [addrs flat_map].
    rewrite app_nil_r. constructor; [ assumption | ].
    apply Forall_flat_map. exact (Forall_mp _ _ _ IHes Hes).
  - rewrite cleanBelow_object. intros (Ha & Hps). cbn [addrs].
    constructor; [ assumption | ].
    apply Forall_flat_map. exact (Forall_mp _ _ _ IHps Hps).
Qed.

Lemma isAtom_cleanBelow n v : isAtom v = true -> cleanBelow n v = true.
Proof. destruct v; try discriminate; reflexivity. Qed.

(** A clean value is written out in full, and reading the text back
    gives a value that is equal to it by value. *)
Lemma stringify_parse v :
  clean v = true ->
  exists j, stringify v = Some j /\ forall n, erase (fst (parse j n)) = erase v.
Proof.
  induction v as [| |b|q|s|a es ps IHes _|a ps IHps] using value_nested_ind;
    try discriminate; try (intros _; eexists; split; reflexivity).
  - rewrite clean_array. intros (Hes & ->).
    eexists. split; [ reflexivity | ]. intros n. rewrite parse_array.
    pose proof (Forall_mp _ _ _ IHes Hes) as Hrt. clear IHes Hes.
    assert (Haux : forall m,
              map erase
                (fst (parseElems
                        (map (fun e => match stringify e with
                                       | Some j => j
                                       | None => JNull
                                       end) es) m)) = map erase es).
    { induction Hrt as [|e es (j & Hj & He) _ IH]; intros m; [ reflexivity | ].
      cbn [map]. rewrite parseElems_cons, Hj.
      specialize (He m). destruct (parse j m) as [v m1]. cbn [fst] in He.
      specialize (IH m1). destruct (parseElems _ m1) as [vs m2]. cbn [fst] in *.
      cbn [map]. now rewrite He, IH. }
    specialize (Haux (S n)). destruct (parseElems _ (S n)) as [vs m].
    cbn [fst erase map] in *. now rewrite Haux.
  - rewrite clean_object. intros Hps.
    eexists. split; [ apply stringify_object | ]. intros n. rewrite parse_object.
    pose proof (Forall_mp _ _ _ IHps Hps) as Hrt. clear IHps Hps.
    assert (Haux : forall m,
              map (fun p => (fst p, erase (snd p)))
                (fst (parseMembers (stringifyMembers ps) m))
              = map (fun p => (fst p, erase (snd p))) ps).
    { induction Hrt as [|[k x] ps (j & Hj & He) _ IH]; intros m; [ reflexivity | ].
      cbn [snd] in *. rewrite stringifyMembers_cons, Hj, parseMembers_cons.
      specialize (He m). destruct (parse j m) as [v m1]. cbn [fst] in He.
      specialize (IH m1). destruct (parseMembers _ m1) as [vs m2]. cbn [fst] in *.
      cbn [map fst snd]. now rewrite He, IH. }
    specialize (Haux (S n)). destruct (parseMembers _ (S n)) as [vs m].
    cbn [fst erase] in *. now rewrite Haux.
Qed.

(** [parse] builds its value in new cells: from the allocation pointer
    on, and below the pointer it returns. *)
Lemma parse_fresh j :
  forall n,
    n <= snd (parse j n) /\
    cleanBelow (snd (parse j n)) (fst (parse j n)) = true /\
    Forall (fun a => n <= a) (addrs (fst (parse j n))).
Proof.
  induction j as [|b|q|s|js IHjs|ms IHms] using json_nested_ind; intros n;
    try (cbn; split; [ lia | split; [ reflexivity | constructor ] ]).
  - rewrite parse_array.
    assert (Haux : forall m,
              m <= snd (parseElems js m) /\
              Forall (fun e => cleanBelow (snd (parseElems js m)) e = true)
                (fst (parseElems js m)) /\
              Forall (fun a => m <= a) (flat_map addrs (fst (parseElems js m)))).
    { induction IHjs as [|x js Hx _ IH]; intros m.
      - cbn. split; [ lia | split; constructor ].
      - rewrite parseElems_cons. destruct (Hx m) as (H1 & H2 & H3).
        destruct (parse x m) as [v m1]. cbn [fst snd] in *.
        destruct (IH m1) as (H4 & H5 & H6).
        destruct (parseElems js m1) as [vs m2]. cbn [fst snd flat_map] in *.
        split; [ lia | split ].
        + constructor; [ eapply cleanBelow_mono; eassumption | assumption ].
        + apply Forall_app. split; [ assumption | ].
          eapply Forall_impl; [ | exact H6 ]. cbv beta. intros; lia. }
    destruct (Haux (S n)) as (H1 & H2 & H3).
    destruct (parseElems js (S n)) as [vs m]. cbn [fst snd] in *.
    split; [ lia | split ].
    + apply cleanBelow_array. auto with arith.
    + cbn [addrs flat_map]. rewrite app_nil_r. constructor; [ lia | ].
      eapply Forall_impl; [ | exact H3 ]. cbv beta. intros; lia.
  - rewrite parse_object.
    assert (Haux : forall m,
              m <= snd (parseMembers ms m) /\
              Forall (fun p => cleanBelow (snd (parseMembers ms m)) (snd p) = true)
                (fst (parseMembers ms m)) /\
              Forall (fun a => m <= a)
                (flat_map (fun p => addrs (snd p)) (fst (parseMembers ms m)))).
    { induction IHms as [|[k x] ms Hx _ IH]; intros m.
      - cbn. split; [ lia | split; constructor ].
      - cbn [snd] in Hx. rewrite parseMembers_cons. destruct (Hx m) as (H1 & H2 & H3).
        destruct (parse x m) as [v m1]. cbn [fst snd] in *.
        destruct (IH m1) as (H4 & H5 & H6).
        destruct (parseMembers ms m1) as [vs m2]. cbn [fst snd flat_map] in *.
        split; [ lia | split ].
        + constructor; [ eapply cleanBelow_mono; eassumption | assumption ].
        + apply Forall_app. split; [ assumption | ].
          eapply Forall_impl; [ | exact H6 ]. cbv beta. intros; lia. }
    destruct (Haux (S n)) as (H1 & H2 & H3).
    destruct (parseMembers ms (S n)) as [vs m]. cbn [fst snd] in *.
    split; [ lia | split ].
    + apply cleanBelow_object. auto with arith.
    + cbn [addrs]. constructor; [ lia | ].
      eapply Forall_impl; [ | exact H3 ]. cbv beta. intros; lia.
Qed.

(** ** Equality by value *)

Lemma lookup_erase k ps :
  lookup k (map (fun p => (fst p, erase (snd p))) ps) = option_map erase (lookup k ps).
Proof.
  induction ps as [|[k' x] ps IH]; cbn [map lookup fst snd]; [ reflexivity | ].
  destruct (String.eqb k k'); [ reflexivity | exact IH ].
Qed.

Lemma truthy_erase v : truthy (erase v) = truthy v.
Proof. destruct v; reflexivity. Qed.

Lemma isObject_erase v : isObject (erase v) = isObject v.
Proof. destruct v; reflexivity. Qed.

Lemma propOf_erase k v : propOf k (erase v) = erase (propOf k v).
Proof.
  destruct v as [| | | | | |a ps]; try reflexivity.
  cbn [erase propOf]. rewrite lookup_erase. now destruct (lookup k ps).
Qed.

Lemma getProp_erase k v :
  getProp k (erase v) =
  match getProp k v with
  | Ok x => Ok (erase x)
  | Throw e => Throw e
  end.
Proof.
  destruct v as [| | | |s|a es ps|a ps]; try reflexivity.
  - cbn [erase getProp]. destruct (String.eqb k "length"); reflexivity.
  - cbn [erase getProp]. rewrite lookup_erase, length_map.
    destruct (String.eqb k "length"); [ reflexivity | ].
    now destruct (lookup k ps).
  - cbn [erase getProp]. rewrite lookup_erase. now destruct (lookup k ps).
Qed.

Lemma isVersioned_erase p : isVersioned (erase p) = isVersioned p.
Proof.
  unfold isVersioned. rewrite !getProp_erase.
  destruct (getProp "version" p) as [v|]; [ | reflexivity ].
  rewrite truthy_erase.
  destruct (getProp "flowcharts" p) as [f|]; [ | reflexivity ].
  now rewrite truthy_erase.
Qed.

Lemma isVersioned_sameValue p q :
  sameValue p q -> isVersioned p = isVersioned q.
Proof.
  unfold sameValue. intros H.
  now rewrite <- (isVersioned_erase p), H, isVersioned_erase.
Qed.

Lemma elemsOf_erase k sps :
  elemsOf k (map (fun p => (fst p, erase (snd p))) sps)
  = option_map (map erase) (elemsOf k sps).
Proof.
  unfold elemsOf. rewrite lookup_erase.
  destruct (lookup k sps) as [[| | | | |a es ps|]|]; reflexivity.
Qed.

Lemma activeList_erase k d :
  activeList k (erase d) = option_map (map erase) (activeList k d).
Proof.
  unfold activeList, sectionOf.
  destruct d as [| | | | | |a ps]; try reflexivity.
  cbn [erase]. rewrite lookup_erase.
  destruct (lookup "flowcharts" ps) as [[| | | | |b [|[| | | | | |c sps] rest] bps|]|];
    try reflexivity.
  cbn [option_map erase map]. apply elemsOf_erase.
Qed.

Lemma activeList_sameValue k d d' :
  sameValue d' d ->
  option_map (map erase) (activeList k d') = option_map (map erase) (activeList k d).
Proof. unfold sameValue. intros H. now rewrite <- !activeList_erase, H. Qed.

Lemma nodeShaped_erase n : nodeShaped (erase n) = nodeShaped n.
Proof. unfold nodeShaped. now rewrite !propOf_erase, !isObject_erase. Qed.

Lemma connectionShaped_erase n : connectionShaped (erase n) = connectionShaped n.
Proof. unfold connectionShaped. now rewrite !propOf_erase, !isObject_erase. Qed.

Lemma Forall_map_erase (P : value -> bool) l l' :
  (forall v, P (erase v) = P v) ->
  map erase l' = map erase l ->
  Forall (fun v => P v = true) l -> Forall (fun v => P v = true) l'.
Proof.
  intros HP. revert l'. induction l as [|x l IH]; intros [|y l'] Hm Hl;
    try discriminate; constructor; inversion Hl; subst; cbn [map] in Hm;
    inversion Hm as [[Hxy Hrest]].
  - now rewrite <- HP, Hxy, HP.
  - now apply IH.
Qed.

Lemma activeList_sameValue_inv k d d' l :
  sameValue d' d -> activeList k d = Some l ->
  exists l', activeList k d' = Some l' /\ map erase l' = map erase l.
Proof.
  intros Hsame Hl. pose proof (activeList_sameValue k d d' Hsame) as H.
  rewrite Hl in H. destruct (activeList k d') as [l'|]; try discriminate.
  cbn [option_map] in H. inversion H. eauto.
Qed.

(** Being well formed is a matter of the values, not of the cells. *)
Lemma wellFormed_sameValue s s' :
  sameValue (data s') (data s) -> wellFormed s -> wellFormed s'.
Proof.
  intros Hsame (ns & cs & qs & [Hn Hc Hq Hno Hco Hqo] & Hns & Hcs).
  destruct (activeList_sameValue_inv _ _ _ _ Hsame Hn) as (ns' & Hn' & En).
  destruct (activeList_sameValue_inv _ _ _ _ Hsame Hc) as (cs' & Hc' & Ec).
  destruct (activeList_sameValue_inv _ _ _ _ Hsame Hq) as (qs' & Hq' & Eq).
  exists ns', cs', qs'. split; [ | split ].
  - constructor; auto.
    + exact (Forall_map_erase isObject _ _ isObject_erase En Hno).
    + exact (Forall_map_erase isObject _ _ isObject_erase Ec Hco).
    + exact (Forall_map_erase isObject _ _ isObject_erase Eq Hqo).
  - exact (Forall_map_erase nodeShaped _ _ nodeShaped_erase En Hns).
  - exact (Forall_map_erase connectionShaped _ _ connectionShaped_erase Ec Hcs).
Qed.

(** ** Exporting and loading back *)

Lemma lookup_values {V} (P : V -> Prop) (k : string) ps v :
  Forall (fun p => P (snd p)) ps -> lookup k ps = Some v -> P v.
Proof.
  induction 1 as [|[k' x] ps Hx _ IH]; cbn [lookup]; [ discriminate | ].
  destruct (String.eqb k k'); [ | exact IH ].
  intros E. inversion E; subst. exact Hx.
Qed.

(** A clean value in the versioned shape is an object. *)
Lemma versioned_object n d :
  isVersioned d = true -> cleanBelow n d = true ->
  exists a ps, d = VObj a ps.
Proof.
  destruct d as [| | | |s|a es ps|a ps];
    try (intros H; vm_compute in H; discriminate H).
  - intros H Hc. apply cleanBelow_array in Hc. destruct Hc as (_ & _ & ->).
    vm_compute in H. discriminate H.
  - eauto.
Qed.

Lemma isVersioned_header k x a ps :
  String.eqb "version" k = false -> String.eqb "flowcharts" k = false ->
  isVersioned (VObj a (assocSet k x ps)) = isVersioned (VObj a ps).
Proof.
  intros Hv Hf. unfold isVersioned. cbn [getProp].
  now rewrite !lookup_assocSet_other by assumption.
Qed.

Lemma deepClone_clean v s :
  clean v = true ->
  exists copy n',
    E.deepClone v s = (Ok copy, withHeapNext n' s) /\
    sameValue copy v /\
    heapNext s <= n' /\
    cleanBelow n' copy = true /\
    Forall (fun a => heapNext s <= a) (addrs copy).
Proof.
  intros Hc. destruct (stringify_parse v Hc) as (j & Hj & Hrt).
  unfold E.deepClone. rewrite Hj. cbv beta iota delta [bind gets].
  specialize (Hrt (heapNext s)).
  destruct (parse_fresh j (heapNext s)) as (Hle & Hcl & Hfr).
  destruct (parse j (heapNext s)) as [copy n']. cbn [fst snd] in *.
  exists copy, n'. repeat split; assumption.
Qed.

(** [exportToJSON] stamps the diagram and returns a copy of it that is
    equal to it by value and lives in cells of its own. *)
Lemma exportToJSON_conforming now s :
  isVersioned (data s) = true ->
  cleanBelow (heapNext s) (data s) = true ->
  exists payload n',
    E.exportToJSON now s =
      (Ok payload, withHeapNext n' (withData (setField "timestamp" (VStr now) (data s)) s)) /\
    sameValue payload (setField "timestamp" (VStr now) (data s)) /\
    heapNext s <= n' /\
    cleanBelow n' payload = true /\
    Forall (fun a => heapNext s <= a) (addrs payload) /\
    cleanBelow (heapNext s) (setField "timestamp" (VStr now) (data s)) = true /\
    isVersioned (setField "timestamp" (VStr now) (data s)) = true.
Proof.
  intros Hv Hc. destruct (versioned_object _ _ Hv Hc) as (a & ps & Hd).
  assert (Hc1 : cleanBelow (heapNext s)
                  (setField "timestamp" (VStr now) (data s)) = true).
  { rewrite Hd in *. cbn [setField]. apply cleanBelow_object in Hc.
    destruct Hc as [Ha Hps]. apply cleanBelow_object. split; [ assumption | ].
    apply (assocSet_values (fun v => cleanBelow (heapNext s) v = true));
      [ reflexivity | assumption ]. }
  assert (Hv1 : isVersioned (setField "timestamp" (VStr now) (data s)) = true).
  { rewrite Hd in *. cbn [setField]. now rewrite isVersioned_header. }
  set (s1 := withData (setField "timestamp" (VStr now) (data s)) s).
  destruct (deepClone_clean (data s1) s1) as (copy & n' & Hrun & Hsame & Hle & Hcl & Hfr).
  { eapply cleanBelow_clean. exact Hc1. }
  exists copy, n'.
  split; [ | repeat split; assumption ].
  unfold E.exportToJSON.
  rewrite (bind_ok _ _ s tt s1)
    by (unfold s1; rewrite Hd; cbn [setField]; now apply writeHeader_spec).
  exact Hrun.
Qed.

Lemma keeps_heapNext_afterLoad :
  keeps heapNext (E.updateIdCounters ;; E.renderAll ;; E.updateStats).
Proof. keeps_tac. apply keeps_updateIdCounters; reflexivity. Qed.

(** Loading a payload in the versioned shape installs it, whether or not
    the counter scan and the drawing that follow succeed. *)
Lemma loadFromJSON_versioned p s :
  isVersioned p = true ->
  fst (E.loadFromJSON p s) = Ok tt /\
  data (snd (E.loadFromJSON p s)) = p /\
  heapNext (snd (E.loadFromJSON p s)) = heapNext s.
Proof.
  intros Hp. rewrite loadFromJSON_unfold, (loadBody_versioned _ _ Hp).
  pose proof (keeps_data_afterLoad (withData p s)) as Hd.
  pose proof (keeps_heapNext_afterLoad (withData p s)) as Hh.
  destruct ((E.updateIdCounters ;; E.renderAll ;; E.updateStats) (withData p s))
    as [[[]|e] s']; cbn [fst snd] in *; auto.
Qed.

(** ** Sessions keep the diagram exportable *)

Lemma isVersioned_withSection f d : isVersioned (withSection f d) = isVersioned d.
Proof.
  unfold withSection. destruct d as [| | | | | |a ps]; auto.
  destruct (lookup "flowcharts" ps) as [[| | | | |b [|[| | | | | |c sps] rest] bps|]|] eqn:E;
    auto.
  unfold isVersioned. cbn [getProp].
  rewrite lookup_assocSet_same, lookup_assocSet_other by reflexivity.
  now rewrite E.
Qed.

Section Stored.

Variable n : addr.

Local Abbreviation stored := (fun p : string * value => cleanBelow n (snd p) = true).

Lemma stored_array k sps a es p :
  Forall stored sps -> lookup k sps = Some (VArr a es p) ->
  a < n /\ Forall (fun e => cleanBelow n e = true) es /\ p = [].
Proof.
  intros Hs Hk. apply cleanBelow_array.
  exact (lookup_values (fun v => cleanBelow n v = true) _ _ _ Hs Hk).
Qed.

Lemma stored_object k ps a qs :
  Forall stored ps -> lookup k ps = Some (VObj a qs) ->
  a < n /\ Forall stored qs.
Proof.
  intros Hs Hk. apply cleanBelow_object.
  exact (lookup_values (fun v => cleanBelow n v = true) _ _ _ Hs Hk).
Qed.

Lemma stored_set k x ps :
  cleanBelow n x = true -> Forall stored ps -> Forall stored (assocSet k x ps).
Proof. apply (assocSet_values (fun v => cleanBelow n v = true)). Qed.

Lemma stored_set_atom k x ps :
  isAtom x = true -> Forall stored ps -> Forall stored (assocSet k x ps).
Proof. intros Hx. apply stored_set. now apply isAtom_cleanBelow. Qed.

Lemma stored_set_array k a es ps :
  a < n -> Forall (fun e => cleanBelow n e = true) es ->
  Forall stored ps -> Forall stored (assocSet k (VArr a es []) ps).
Proof. intros Ha Hes. apply stored_set. apply cleanBelow_array. auto. Qed.

Lemma stored_section d c sps :
  cleanBelow n d = true -> sectionOf d = Some (c, sps) -> Forall stored sps.
Proof.
  intros Hd Hsec.
  destruct (sectionOf_inv _ _ _ Hsec) as (a & ps & b & rest & bps & -> & Hf).
  apply cleanBelow_object in Hd. destruct Hd as [_ Hps].
  destruct (stored_array _ _ _ _ _ Hps Hf) as (_ & Hes & _).
  inversion Hes as [|? ? Hsecv _]; subst.
  apply cleanBelow_object in Hsecv. tauto.
Qed.

Lemma cleanBelow_withSection f d c sps :
  cleanBelow n d = true -> sectionOf d = Some (c, sps) ->
  Forall stored (f sps) -> cleanBelow n (withSection f d) = true.
Proof.
  intros Hd Hsec Hf.
  destruct (sectionOf_inv _ _ _ Hsec) as (a & ps & b & rest & bps & -> & Hfc).
  unfold withSection. rewrite Hfc.
  apply cleanBelow_object in Hd. destruct Hd as [Ha Hps].
  destruct (stored_array _ _ _ _ _ Hps Hfc) as (Hb & Hes & ->).
  inversion Hes as [|? ? Hsecv Hrest]; subst.
  apply cleanBelow_object in Hsecv. destruct Hsecv as [Hc _].
  apply cleanBelow_object. split; [ assumption | ].
  apply stored_set_array; auto.
  constructor; [ | assumption ]. apply cleanBelow_object. auto.
Qed.

End Stored.

Lemma conforming_withSection s s' f c sps :
  isVersioned (data s) = true ->
  cleanBelow (heapNext s) (data s) = true ->
  sectionOf (data s) = Some (c, sps) ->
  data s' = withSection f (data s) ->
  heapNext s <= heapNext s' ->
  (Forall (fun p => cleanBelow (heapNext s') (snd p) = true) sps ->
   Forall (fun p => cleanBelow (heapNext s') (snd p) = true) (f sps)) ->
  isVersioned (data s') = true /\ cleanBelow (heapNext s') (data s') = true.
Proof.
  intros Hv Hc Hsec Hd Hle Hf. rewrite Hd. split.
  - now rewrite isVersioned_withSection.
  - pose proof (cleanBelow_mono _ _ _ Hle Hc) as Hc'.
    eapply cleanBelow_withSection; [ exact Hc' | exact Hsec | ].
    apply Hf. eapply stored_section; eassumption.
Qed.

Lemma getDefaultNodeText_atom type : isAtom (E.getDefaultNodeText type) = true.
Proof.
  unfold E.getDefaultNodeText. cbn [lookup].
  repeat (destruct (String.eqb type _); [ reflexivity | ]). reflexivity.
Qed.

Lemma getDefaultNodeColor_atom type : isAtom (E.getDefaultNodeColor type) = true.
Proof.
  unfold E.getDefaultNodeColor. cbn [lookup].
  repeat (destruct (String.eqb type _); [ reflexivity | ]). reflexivity.
Qed.

Lemma getDefaultNodeSize_atom type :
  isAtom (fst (E.getDefaultNodeSize type)) = true /\
  isAtom (snd (E.getDefaultNodeSize type)) = true.
Proof.
  unfold E.getDefaultNodeSize. cbn [lookup].
  repeat (destruct (String.eqb type _); [ split; reflexivity | ]). split; reflexivity.
Qed.

Lemma nodeLiteral_cleanBelow n a b m id type x y :
  a < n -> b < n -> m < n ->
  isAtom id = true -> isAtom x = true -> isAtom y = true ->
  cleanBelow n (E.nodeLiteral a b m id type x y) = true.
Proof.
  intros Ha Hb Hm Hid Hx Hy.
  destruct (getDefaultNodeSize_atom type) as [Hw Hh].
  unfold E.nodeLiteral.
  apply cleanBelow_object. split; [ assumption | ].
  repeat constructor; cbn [snd];
    try (apply isAtom_cleanBelow;
         first [ assumption | apply getDefaultNodeText_atom ]);
    apply cleanBelow_object; (split; [ assumption | ]);
    repeat constructor; cbn [snd]; apply isAtom_cleanBelow, getDefaultNodeColor_atom.
Qed.

Lemma connectionLiteral_cleanBelow n a m id f t label :
  a < n -> m < n ->
  isAtom id = true -> isAtom f = true -> isAtom t = true -> isAtom label = true ->
  cleanBelow n (E.connectionLiteral a m id f t label) = true.
Proof.
  intros Ha Hm Hid Hf Ht Hl.
  unfold E.connectionLiteral.
  apply cleanBelow_object. split; [ assumption | ].
  repeat constructor; cbn [snd]; try (apply isAtom_cleanBelow; assumption).
  apply cleanBelow_object. split; [ assumption | ]. repeat constructor.
Qed.

Lemma stored_nth n es i a ps :
  Forall (fun e => cleanBelow n e = true) es ->
  nth i es VUndef = VObj a ps ->
  a < n /\ Forall (fun p => cleanBelow n (snd p) = true) ps.
Proof.
  intros Hes Hi. apply cleanBelow_object. rewrite <- Hi.
  apply (Forall_nth_at (fun e => cleanBelow n e = true)); auto.
  exact (nth_object_length _ _ _ _ Hi).
Qed.

(** The write of an element of an array of the active section. *)
Ltac stored_elem Hst Hlook Hi :=
  let Ha := fresh "Ha" in
  let Hes := fresh "Hes" in
  let Hna := fresh "Hna" in
  let Hnps := fresh "Hnps" in
  destruct (stored_array _ _ _ _ _ _ Hst Hlook) as (Ha & Hes & ->);
  destruct (stored_nth _ _ _ _ _ Hes Hi) as (Hna & Hnps);
  apply stored_set_array; [ exact Ha | | exact Hst ];
  apply Forall_setNth; [ exact Hes | ];
  apply cleanBelow_object; split; [ exact Hna | ].

(** A call with data for arguments keeps the diagram exportable. *)
Lemma perform_conforming c s :
  conforming s -> Session.jsonArgs c = true ->
  conforming (snd (Session.perform c s)).
Proof.
  intros (Hwf & Hv & Hcl) Hargs.
  split; [ exact (proj1 (perform_step c s Hwf)) | ].
  destruct (wellFormed_inv _ Hwf)
    as (ns & cs & qs & c0 & sps & an & np & ac & cp & aq & qp
        & Hsec & Hn & Hc & Hq & Hns & Hcs & Hqs & Hws).
  pose proof (nodeShaped_object _ Hns) as Hno.
  pose proof (connectionShaped_object _ Hcs) as Hco.
  destruct c as [type x y | nid x y | nid text | nid type | nid status | nid notes
                | nid | f t label | cid label | cid style | cid status | cid
                | description | notes | ];
    cbn [Session.perform]; cbn [Session.jsonArgs] in Hargs;
    rewrite ?andb_true_iff in Hargs.
  - (* addNode *)
    destruct Hargs as [[Hx Hy] _].
    eassert (Hrun : E.addNode type x y s = _)
      by (eapply addNode_shaped; eassumption).
    cbv zeta in Hrun.
    unfold Session.discard. rewrite (bind_ok _ _ _ _ _ Hrun). cbn [snd ret].
    eapply (conforming_withSection s _ _ c0 sps); try eassumption;
      [ reflexivity | cbn; lia | intros Hfs ].
    cbn [heapNext withData withHeapNext] in *.
    destruct (stored_array _ _ _ _ _ _ Hfs Hn) as (Ha & Hes & ->).
    apply stored_set_array; auto.
    apply Forall_app_one; auto.
    apply nodeLiteral_cleanBelow; auto; lia.
  - (* updateNodePosition *)
    destruct Hargs as [[Hid Hx] Hy].
    node_case Hns nid ns.
    + erewrite updateNodePosition_found by eassumption. cbn [snd].
      eapply (conforming_withSection s _ _ c0 sps); try eassumption;
        [ reflexivity | reflexivity | intros Hfs ].
      cbn [heapNext withElem withData] in *.
      stored_elem Hfs Hn Hi.
      now do 2 (apply stored_set_atom; [ assumption | ]).
    + erewrite updateNodePosition_missing by eassumption. auto.
  - (* updateNodeText *)
    destruct Hargs as [Hid Hx].
    node_case Hns nid ns.
    + erewrite updateNodeText_found by eassumption. cbn [snd].
      eapply (conforming_withSection s _ _ c0 sps); try eassumption;
        [ reflexivity | reflexivity | intros Hfs ].
      cbn [heapNext withElem withData] in *.
      stored_elem Hfs Hn Hi.
      now apply stored_set_atom.
    + erewrite updateNodeText_missing by eassumption. auto.
  - (* updateNodeType *)
    node_case Hns nid ns.
    + erewrite updateNodeType_found by eassumption. cbn [snd].
      eapply (conforming_withSection s _ _ c0 sps); try eassumption;
        [ reflexivity | reflexivity | intros Hfs ].
      cbn [heapNext withElem withData] in *.
      stored_elem Hfs Hn Hi.
      destruct (getDefaultNodeSize_atom type) as [Hw Hh].
      do 2 (apply stored_set_atom; [ assumption | ]).
      destruct (stored_object _ _ _ _ _ Hnps Hst) as (Hsa & Hstps).
      apply stored_set.
      * apply cleanBelow_object. split; [ assumption | ].
        apply stored_set_atom; [ apply getDefaultNodeColor_atom | assumption ].
      * now apply stored_set_atom.
    + erewrite updateNodeType_missing by eassumption. auto.
  - (* updateNodeStatus *)
    destruct Hargs as [Hid Hx].
    node_case Hns nid ns.
    + erewrite updateNodeStatus_found by eassumption. cbn [snd].
      eapply (conforming_withSection s _ _ c0 sps); try eassumption;
        [ reflexivity | reflexivity | intros Hfs ].
      cbn [heapNext withElem withData] in *.
      stored_elem Hfs Hn Hi.
      destruct (stored_object _ _ _ _ _ Hnps Hmd) as (Hma & Hmps).
      apply stored_set; [ | assumption ].
      apply cleanBelow_object. split; [ assumption | ].
      now apply stored_set_atom.
    + erewrite updateNodeStatus_missing by eassumption. auto.
  - (* updateNodeNotes *)
    destruct Hargs as [Hid Hx].
    node_case Hns nid ns.
    + erewrite updateNodeNotes_found by eassumption. cbn [snd].
      eapply (conforming_withSection s _ _ c0 sps); try eassumption;
        [ reflexivity | reflexivity | intros Hfs ].
      cbn [heapNext withElem withData] in *.
      stored_elem Hfs Hn Hi.
      destruct (stored_object _ _ _ _ _ Hnps Hmd) as (Hma & Hmps).
      apply stored_set; [ | assumption ].
      apply cleanBelow_object. split; [ assumption | ].
      now apply stored_set_atom.
    + erewrite updateNodeNotes_missing by eassumption. auto.
  - (* deleteNode *)
    eassert (Hrun : E.deleteNode nid s = _)
      by (eapply deleteNode_shaped; eassumption).
    cbv zeta in Hrun. rewrite Hrun. cbn [snd].
    eapply (conforming_withSection s _ _ c0 sps); try eassumption;
      [ reflexivity | cbn; lia | intros Hfs ].
    cbn [heapNext withData withHeapNext] in *.
    destruct (stored_array _ _ _ _ _ _ Hfs Hn) as (Ha & Hes & _).
    destruct (stored_array _ _ _ _ _ _ Hfs Hc) as (Ha' & Hes' & _).
    apply stored_set_array; [ lia | now apply Forall_filter | ].
    apply stored_set_array; [ lia | now apply Forall_filter | assumption ].
  - (* addConnection *)
    destruct Hargs as [[Hf Ht] Hl].
    eassert (Hrun : E.addConnection f t label s = _)
      by (eapply addConnection_shaped; eassumption).
    cbv zeta in Hrun.
    unfold Session.discard. rewrite (bind_ok _ _ _ _ _ Hrun). cbn [snd ret].
    eapply (conforming_withSection s _ _ c0 sps); try eassumption;
      [ reflexivity | cbn; lia | intros Hfs ].
    cbn [heapNext withData withHeapNext] in *.
    destruct (stored_array _ _ _ _ _ _ Hfs Hc) as (Ha & Hes & ->).
    apply stored_set_array; auto.
    apply Forall_app_one; auto.
    apply connectionLiteral_cleanBelow; auto; try lia.
    destruct label; try discriminate; reflexivity.
  - (* updateConnectionLabel *)
    destruct Hargs as [Hid Hx].
    conn_case Hcs cid cs.
    + erewrite updateConnectionLabel_found by eassumption.
      eapply (conforming_withSection s _ _ c0 sps); try eassumption;
        [ reflexivity | reflexivity | intros Hfs ].
      cbn [heapNext withElem withData] in *.
      stored_elem Hfs Hc Hi.
      now apply stored_set_atom.
    + erewrite updateConnectionLabel_missing by eassumption. auto.
  - (* updateConnectionStyle *)
    destruct Hargs as [Hid Hx].
    conn_case Hcs cid cs.
    + erewrite updateConnectionStyle_found by eassumption. cbn [snd].
      eapply (conforming_withSection s _ _ c0 sps); try eassumption;
        [ reflexivity | reflexivity | intros Hfs ].
      cbn [heapNext withElem withData] in *.
      stored_elem Hfs Hc Hi.
      now apply stored_set_atom.
    + erewrite updateConnectionStyle_missing by eassumption. auto.
  - (* updateConnectionStatus *)
    destruct Hargs as [Hid Hx].
    conn_case Hcs cid cs.
    + erewrite updateConnectionStatus_found by eassumption. cbn [snd].
      eapply (conforming_withSection s _ _ c0 sps); try eassumption;
        [ reflexivity | reflexivity | intros Hfs ].
      cbn [heapNext withElem withData] in *.
      stored_elem Hfs Hc Hi.
      destruct (stored_object _ _ _ _ _ Hnps Hmd) as (Hma & Hmps).
      apply stored_set; [ | assumption ].
      apply cleanBelow_object. split; [ assumption | ].
      now apply stored_set_atom.
    + erewrite updateConnectionStatus_missing by eassumption. auto.
  - (* deleteConnection *)
    eassert (Hrun : E.deleteConnection cid s = _)
      by (eapply deleteConnection_shaped; eassumption).
    cbv zeta in Hrun. rewrite Hrun. cbn [snd].
    eapply (conforming_withSection s _ _ c0 sps); try eassumption;
      [ reflexivity | cbn; lia | intros Hfs ].
    cbn [heapNext withData withHeapNext] in *.
    destruct (stored_array _ _ _ _ _ _ Hfs Hc) as (Ha' & Hes' & _).
    apply stored_set_array; [ lia | now apply Forall_filter | assumption ].
  - (* updateDescription *)
    destruct (sectionOf_inv _ _ _ Hsec) as (a & ps & b & rest & bps & Hd & Hf).
    unfold E.updateDescription. rewrite (writeHeader_spec _ _ _ _ _ Hd). cbn [snd].
    cbn [data heapNext withData]. rewrite Hd in *.
    split; [ now rewrite isVersioned_header | ].
    apply cleanBelow_object in Hcl. destruct Hcl as [Ha Hps].
    apply cleanBelow_object. split; [ assumption | ]. now apply stored_set_atom.
  - (* updateGeneralNotes *)
    destruct (sectionOf_inv _ _ _ Hsec) as (a & ps & b & rest & bps & Hd & Hf).
    unfold E.updateGeneralNotes. rewrite (writeHeader_spec _ _ _ _ _ Hd). cbn [snd].
    cbn [data heapNext withData]. rewrite Hd in *.
    split; [ now rewrite isVersioned_header | ].
    apply cleanBelow_object in Hcl. destruct Hcl as [Ha Hps].
    apply cleanBelow_object. split; [ assumption | ]. now apply stored_set_atom.
  - (* clearAll *)
    eassert (Hrun : E.clearAll s = _)
      by (eapply clearAll_shaped; eassumption).
    cbv zeta in Hrun. rewrite Hrun. cbn [snd].
    eapply (conforming_withSection s _ _ c0 sps); try eassumption;
      [ reflexivity | cbn; lia | intros Hfs ].
    cbn [heapNext withData withHeapNext withSelectedElement] in *.
    repeat (apply stored_set_array; [ lia | constructor | ]). assumption.
Qed.

Lemma wellFormed_data s s' : data s' = data s -> wellFormed s -> wellFormed s'.
Proof. intros H. apply wellFormed_sameValue. unfold sameValue. now rewrite H. Qed.

Lemma wellFormed_stamped now s :
  wellFormed s -> wellFormed (withData (setField "timestamp" (VStr now) (data s)) s).
Proof.
  intros Hwf. destruct (wellFormed_inv _ Hwf)
    as (ns & cs & qs & c0 & sps & an & np & ac & cp & aq & qp & Hsec & _).
  destruct (sectionOf_inv _ _ _ Hsec) as (a & ps & b & rest & bps & Hd & Hf).
  rewrite Hd. cbn [setField]. now apply wellFormed_header.
Qed.

(** What an export and the load of its payload do to a conforming
    editor. *)
Lemma export_then_load now s :
  conforming s ->
  exists payload s1,
    E.exportToJSON now s = (Ok payload, s1) /\
    conforming s1 /\
    data s1 = setField "timestamp" (VStr now) (data s) /\
    sameValue payload (data s1) /\
    Forall (fun a => a < heapNext s) (addrs (data s1)) /\
    Forall (fun a => heapNext s <= a) (addrs payload) /\
    fst (E.loadFromJSON payload s1) = Ok tt /\
    data (snd (E.loadFromJSON payload s1)) = payload /\
    conforming (snd (E.loadFromJSON payload s1)).
Proof.
  intros (Hwf & Hv & Hcl).
  destruct (exportToJSON_conforming now s Hv Hcl)
    as (payload & n' & Hrun & Hsame & Hle & Hcp & Hfresh & Hc1 & Hv1).
  set (s1 := withHeapNext n' (withData (setField "timestamp" (VStr now) (data s)) s))
    in *.
  assert (Hwf1 : wellFormed s1).
  { apply (wellFormed_data (withData (setField "timestamp" (VStr now) (data s)) s));
      [ reflexivity | now apply wellFormed_stamped ]. }
  assert (Hvp : isVersioned payload = true).
  { now rewrite (isVersioned_sameValue _ _ Hsame). }
  destruct (loadFromJSON_versioned payload s1 Hvp) as (Hok & Hdata & Hheap).
  exists payload, s1.
  refine (conj Hrun (conj _ (conj eq_refl (conj Hsame (conj _ (conj Hfresh
            (conj Hok (conj Hdata _)))))))).
  - split; [ exact Hwf1 | split; [ exact Hv1 | ] ].
    exact (cleanBelow_mono _ _ _ Hle Hc1).
  - now apply cleanBelow_addrs.
  - split; [ | split ].
    + apply (wellFormed_sameValue s1); [ | exact Hwf1 ]. now rewrite Hdata.
    + now rewrite Hdata.
    + rewrite Hdata, Hheap. exact Hcp.
Qed.

(** ** Imports *)

Lemma getProp_stored n k v x :
  cleanBelow n v = true -> getProp k v = Ok x -> truthy x = true ->
  cleanBelow n x = true.
Proof.
  destruct v as [| | | |s|a es ps|a ps]; cbn [getProp]; try discriminate;
    try (intros _ E; inversion E; subst; discriminate).
  - intros _. destruct (String.eqb k "length"); intros E; inversion E; subst;
      [ reflexivity | discriminate ].
  - intros Hc. apply cleanBelow_array in Hc. destruct Hc as (_ & _ & ->).
    destruct (String.eqb k "length"); intros E; inversion E; subst;
      [ reflexivity | discriminate ].
  - intros Hc. apply cleanBelow_object in Hc. destruct Hc as [_ Hps].
    destruct (lookup k ps) as [y|] eqn:Hk; intros E; inversion E; subst;
      [ intros _ | discriminate ].
    exact (lookup_values (fun v => cleanBelow n v = true) _ _ _ Hps Hk).
Qed.

Section LegacyLoad.

Variable p : value.

(** What the assignments of the legacy branch of [loadFromJSON] keep:
    the diagram is exportable, has its active section, and the payload
    is data in cells allocated so far. *)
Local Abbreviation legacyInv :=
  (fun s : editor =>
     isVersioned (data s) = true /\
     cleanBelow (heapNext s) (data s) = true /\
     cleanBelow (heapNext s) p = true /\
     exists c sps, sectionOf (data s) = Some (c, sps)).

Lemma legacyInv_write s s' k x :
  legacyInv s ->
  data s' = withSection (assocSet k x) (data s) ->
  heapNext s <= heapNext s' ->
  cleanBelow (heapNext s') x = true ->
  legacyInv s'.
Proof.
  intros (Hv & Hc & Hp & c & sps & Hsec) Hd Hle Hx.
  destruct (conforming_withSection s s' (assocSet k x) c sps Hv Hc Hsec Hd Hle)
    as [Hv' Hc'].
  { intros Hfs. now apply stored_set. }
  split; [ exact Hv' | split; [ exact Hc' | split ] ].
  - exact (cleanBelow_mono _ _ _ Hle Hp).
  - exists c, (assocSet k x sps). rewrite Hd. now apply sectionOf_withSection.
Qed.

Lemma loadLegacyArray_inv k s :
  legacyInv s -> legacyInv (snd (E.loadLegacyArray p k s)).
Proof.
  intros Hinv. pose proof Hinv as (Hv & Hc & Hp & c & sps & Hsec).
  destruct (getProp k p) as [v|e] eqn:Hg; [ destruct (truthy v) eqn:Ht | ].
  - assert (Hrun : E.loadLegacyArray p k s =
                   (Ok tt, withData (withSection (assocSet k v) (data s)) s)).
    { unfold E.loadLegacyArray.
      rewrite (bind_ok _ _ _ _ _ (readAt_section s c sps Hsec)).
      rewrite (bind_ok _ _ _ v s) by (unfold liftO; now rewrite Hg).
      unfold E.orEmptyArray. rewrite Ht.
      rewrite (bind_ok _ _ _ v s) by reflexivity.
      apply (writeProp_section s c sps Hsec). }
    rewrite Hrun. cbn [snd].
    apply (legacyInv_write s _ k v Hinv); [ reflexivity | apply Nat.le_refl | ].
    eapply getProp_stored; eassumption.
  - assert (Hrun : E.loadLegacyArray p k s =
                   (Ok tt,
                    withData (withSection (assocSet k (VArr (heapNext s) [] [])) (data s))
                      (withHeapNext (S (heapNext s)) s))).
    { unfold E.loadLegacyArray.
      rewrite (bind_ok _ _ _ _ _ (readAt_section s c sps Hsec)).
      rewrite (bind_ok _ _ _ v s) by (unfold liftO; now rewrite Hg).
      unfold E.orEmptyArray. rewrite Ht.
      rewrite (bind_ok _ _ _ (VArr (heapNext s) [] []) (withHeapNext (S (heapNext s)) s))
        by reflexivity.
      apply (writeProp_section (withHeapNext (S (heapNext s)) s) c sps Hsec). }
    rewrite Hrun. cbn [snd].
    apply (legacyInv_write s _ k (VArr (heapNext s) [] []) Hinv);
      [ reflexivity | cbn; lia | ].
    apply cleanBelow_array. cbn. auto.
  - assert (Hrun : E.loadLegacyArray p k s = (Throw e, s)).
    { unfold E.loadLegacyArray.
      rewrite (bind_ok _ _ _ _ _ (readAt_section s c sps Hsec)).
      apply bind_throw. unfold liftO. now rewrite Hg. }
    rewrite Hrun. exact Hinv.
Qed.

Lemma legacy_arrays_inv s :
  legacyInv s ->
  legacyInv (snd ((E.loadLegacyArray p "nodes" ;;
                   E.loadLegacyArray p "connections" ;;
                   E.loadLegacyArray p "questions") s)).
Proof.
  intros H0.
  pose proof (loadLegacyArray_inv "nodes" s H0) as H1.
  destruct (E.loadLegacyArray p "nodes" s) as [[[]|e] s1] eqn:E1; cbn [snd] in H1;
    [ rewrite (bind_ok _ _ _ _ _ E1) | rewrite (bind_throw _ _ _ _ _ E1); exact H1 ].
  pose proof (loadLegacyArray_inv "connections" s1 H1) as H2.
  destruct (E.loadLegacyArray p "connections" s1) as [[[]|e] s2] eqn:E2; cbn [snd] in H2;
    [ rewrite (bind_ok _ _ _ _ _ E2) | rewrite (bind_throw _ _ _ _ _ E2); exact H2 ].
  exact (loadLegacyArray_inv "questions" s2 H2).
Qed.

(** Whatever the payload, the body of [loadFromJSON] leaves an
    exportable diagram exportable. *)
Lemma loadBody_stored s :
  wellFormed s ->
  isVersioned (data s) = true ->
  cleanBelow (heapNext s) (data s) = true ->
  cleanBelow (heapNext s) p = true ->
  isVersioned (data (snd (E.loadBody p s))) = true /\
  cleanBelow (heapNext (snd (E.loadBody p s))) (data (snd (E.loadBody p s))) = true.
Proof.
  intros Hwf Hv Hc Hp.
  destruct (isVersioned p) eqn:Hvp.
  - rewrite (loadBody_versioned _ _ Hvp).
    rewrite (keeps_data_afterLoad (withData p s)),
            (keeps_heapNext_afterLoad (withData p s)). auto.
  - assert (Hinv : legacyInv s).
    { destruct (wellFormed_inv _ Hwf)
        as (ns & cs & qs & c0 & sps & an & np & ac & cp & aq & qp & Hsec & _).
      eauto 6. }
    set (arrays := (E.loadLegacyArray p "nodes" ;;
                    E.loadLegacyArray p "connections" ;;
                    E.loadLegacyArray p "questions")).
    set (after := (E.updateIdCounters ;; E.renderAll ;; E.updateStats)).
    assert (Hcases : E.loadBody p s = (arrays ;; after) s \/
                     exists e, E.loadBody p s = (Throw e, s)).
    { unfold E.loadBody. fold arrays. fold after.
      cbv beta iota delta [bind liftO ret].
      destruct (getProp "version" p) as [version|e] eqn:Hver;
        [ | right; eexists; reflexivity ].
      destruct (truthy version) eqn:Htv.
      - destruct (getProp "flowcharts" p) as [fc|e] eqn:Hfc;
          [ | right; eexists; reflexivity ].
        destruct (truthy fc) eqn:Htf.
        + exfalso. unfold isVersioned in Hvp. rewrite Hver, Htv, Hfc, Htf in Hvp.
          discriminate.
        + now left.
      - rewrite Htv. now left. }
    destruct Hcases as [Hrun | (e & Hrun)]; rewrite Hrun; [ | auto ].
    pose proof (legacy_arrays_inv s Hinv) as H3. fold arrays in H3.
    destruct (arrays s) as [[[]|e] s3] eqn:E3; cbn [snd] in H3.
    + rewrite (bind_ok _ _ _ _ _ E3). unfold after.
      rewrite (keeps_data_afterLoad s3), (keeps_heapNext_afterLoad s3).
      destruct H3 as (Hv3 & Hc3 & _). auto.
    + rewrite (bind_throw _ _ _ _ _ E3). destruct H3 as (Hv3 & Hc3 & _). auto.
Qed.

End LegacyLoad.

Lemma importJSON_stored j s :
  conforming s ->
  isVersioned (data (snd (Session.importJSON j s))) = true /\
  cleanBelow (heapNext (snd (Session.importJSON j s)))
    (data (snd (Session.importJSON j s))) = true.
Proof.
  intros (Hwf & Hv & Hcl).
  unfold Session.importJSON. cbv beta iota delta [bind gets modify].
  destruct (parse_fresh j (heapNext s)) as (Hle & Hcp & _).
  destruct (parse j (heapNext s)) as [payload n']. cbn [fst snd] in *.
  destruct (loadBody_stored payload (withHeapNext n' s)) as [Hv' Hc']; auto.
  - now apply (wellFormed_data s).
  - exact (cleanBelow_mono _ _ _ Hle Hcl).
  - rewrite loadFromJSON_unfold.
    destruct (E.loadBody payload (withHeapNext n' s)) as [[[]|e] s']; cbn [snd] in *;
      auto.
Qed.

(** Every editor that a session reaches is conforming. *)
Lemma reachable_conforming s : Session.reachable s -> conforming s.
Proof.
  induction 1 as [now hasNotifier | c s _ IH Hargs | now s _ IH
                 | j s _ IH Hwf | now s payload s1 _ IH Hrun].
  - split; [ apply wellFormed_init | split; reflexivity ].
  - now apply perform_conforming.
  - destruct (export_then_load now s IH) as (payload & s1 & Hrun & Hc1 & _).
    now rewrite Hrun.
  - split; [ exact Hwf | now apply importJSON_stored ].
  - destruct (export_then_load now s IH) as (payload' & s1' & Hrun' & _ & _ & _ & _ & _
                                             & _ & _ & Hc2).
    rewrite Hrun in Hrun'. inversion Hrun'; subst. exact Hc2.
Qed.

Lemma propOf_stamped k x d :
  String.eqb k "timestamp" = false -> propOf k (setField "timestamp" x d) = propOf k d.
Proof.
  intros Hk. destruct d as [| | | | | |a ps]; try reflexivity.
  cbn [setField propOf]. now rewrite lookup_assocSet_other.
Qed.

Lemma activeList_stamped k x d :
  activeList k (setField "timestamp" x d) = activeList k d.
Proof.
  destruct d as [| | | | | |a ps]; try reflexivity.
  unfold activeList, sectionOf. cbn [setField].
  now rewrite lookup_assocSet_other by reflexivity.
Qed.




(* ================================================================== *)
(** * Further properties of the code *)

(** ** Anchors of connections *)

Lemma sub_nan_l c : (nan - c)%float = nan.
Proof. apply Prim2SF_inj. rewrite sub_spec. reflexivity. Qed.

Lemma nmin_nan_r a : C.nmin a nan = nan.
Proof. unfold C.nmin. change (is_nan nan) with true. now rewrite orb_true_r. Qed.

Lemma nmax_nan_r a : C.nmax a nan = nan.
Proof. unfold C.nmax. change (is_nan nan) with true. now rewrite orb_true_r. Qed.

(** X4. When the target is the centre of the node itself, which is the
    case of a connection from a node to itself, the anchor of a node
    that is not drawn as an oval has no x coordinate: it is [NaN], with
    the y coordinate [centerY - height / 2]; so all four points of the
    path of a self-loop have the x coordinate [NaN].  This holds for
    every position and size, finite or not. *)
Theorem self_loop_anchor_is_not_a_number
  (atan2 : float -> float -> float) (cos sin : float -> float) (n : C.node)
  (Hshape : (String.eqb (C.type n) "start" || String.eqb (C.type n) "end")%bool = false) :
  let centerX := (C.x n + C.width n / 2)%float in
  let centerY := (C.y n + C.height n / 2)%float in
  C.getNodeEdgePoint atan2 cos sin n centerX centerY =
    C.mkPoint nan (centerY - C.height n / 2) /\
  (let '(p0, p1, p2, p3) := C.calculateConnectionPath atan2 cos sin n n in
   C.px p0 = nan /\ C.px p1 = nan /\ C.px p2 = nan /\ C.px p3 = nan).
Proof.
  cbv zeta.
  assert (Hanchor :
            C.getNodeEdgePoint atan2 cos sin n
              (C.x n + C.width n / 2) (C.y n + C.height n / 2) =
            C.mkPoint nan (C.y n + C.height n / 2 - C.height n / 2)).
  { unfold C.getNodeEdgePoint. rewrite Hshape. cbv zeta.
    set (cx := (C.x n + C.width n / 2)%float).
    set (cy := (C.y n + C.height n / 2)%float).
    set (hw := (C.width n / 2)%float).
    set (hh := (C.height n / 2)%float).
    clearbody cx cy hw hh.
    destruct (String.eqb (C.type n) "decision").
    - destruct (sub_self cx) as [-> | ->], (sub_self cy) as [-> | ->];
        unfold C.ngt; cbn; rewrite div_nan_r, add_nan_r, nmin_nan_r, nmax_nan_r;
        reflexivity.
    - destruct (sub_self cx) as [-> | ->], (sub_self cy) as [-> | ->];
        unfold C.ngt; cbn;
        rewrite ?mul_nan_l;
        try (destruct (mul_zero_l hh) as [-> | [-> | ->]]);
        try (destruct (mul_zero_l hw) as [-> | [-> | ->]]);
        cbn; rewrite ?add_nan_r; reflexivity. }
  split; [ exact Hanchor | ].
  unfold C.calculateConnectionPath. cbv zeta. rewrite Hanchor. cbn [C.px C.py].
  rewrite add_nan_l, sub_nan_l. repeat split; reflexivity.
Qed.

Lemma self_loop_anchor_is_not_a_number_witness :
  let '(p0, _, _, p3) :=
    C.calculateConnectionPath (fun _ _ => 0%float) (fun _ => 0%float) (fun _ => 0%float)
      (G.processAt 0 0) (G.processAt 0 0) in
  C.px p0 = nan /\ C.px p3 = nan.
Proof.
  destruct (self_loop_anchor_is_not_a_number
              (fun _ _ => 0%float) (fun _ => 0%float) (fun _ => 0%float)
              (G.processAt 0 0) eq_refl) as [_ Hpath].
  destruct (C.calculateConnectionPath (fun _ _ => 0%float) (fun _ => 0%float)
              (fun _ => 0%float) (G.processAt 0 0) (G.processAt 0 0))
    as [[[p0 p1] p2] p3].
  destruct Hpath as (H0 & _ & _ & H3). auto.
Defined.

(** ** Finding and updating elements *)

Lemma findNodeById_wellShaped s ns cs qs id :
  wellShaped s ns cs qs ->
  findNodeById id s =
  (Ok (option_map (fun i => [KProp "flowcharts"; KIdx 0; KProp "nodes"; KIdx i])
         (indexOf "id" id ns)), s).
Proof.
  intros H.
  destruct (wellShaped_inv _ _ _ _ H)
    as (c & sps & an & np & ac & cp & aq & qp & Hsec & Hn & Hc & Hq).
  exact (findNodeById_section s c sps Hsec an ns np id Hn (ws_node_objects _ _ _ _ H)).
Qed.

Lemma findConnectionById_wellShaped s ns cs qs id :
  wellShaped s ns cs qs ->
  findConnectionById id s =
  (Ok (option_map (fun i => [KProp "flowcharts"; KIdx 0; KProp "connections"; KIdx i])
         (indexOf "id" id cs)), s).
Proof.
  intros H.
  destruct (wellShaped_inv _ _ _ _ H)
    as (c & sps & an & np & ac & cp & aq & qp & Hsec & Hn & Hc & Hq).
  exact (findConnectionById_section s c sps Hsec ac cs cp id Hc
           (ws_connection_objects _ _ _ _ H)).
Qed.

Lemma indexOf_app_one k id l e :
  indexOf k id (l ++ [e]) =
  match indexOf k id l with
  | Some i => Some i
  | None => if strictEq (propOf k e) id then Some (List.length l) else None
  end.
Proof.
  induction l as [|x l IH]; cbn [List.app indexOf List.length].
  - destruct (strictEq (propOf k e) id); reflexivity.
  - destruct (strictEq (propOf k x) id); [ reflexivity | ].
    rewrite IH. destruct (indexOf k id l); [ reflexivity | ].
    destruct (strictEq (propOf k e) id); reflexivity.
Qed.

Lemma strictEq_string s : strictEq (VStr s) (VStr s) = true.
Proof. apply String.eqb_refl. Qed.

(** X5. The node that [addNode] returns is appended to the nodes of the
    active section, and [findNodeById] of its identifier finds it, at
    the last position, when no node carried that identifier before.
    When a node did (which a load can bring about), [findNodeById]
    keeps finding the earlier node, so the new node cannot be reached
    by its identifier. *)
Theorem added_node_is_found_by_its_id s ns cs qs type x y
  (H : wellShaped s ns cs qs) :
  exists node s',
    E.addNode type x y s = (Ok node, s') /\
    idOf node = nodeId (nextNodeId s) /\
    activeNodes s' = Some (ns ++ [node])%list /\
    nth (List.length ns) (ns ++ [node])%list VUndef = node /\
    (indexOf "id" (idOf node) ns = None ->
     findNodeById (idOf node) s' =
       (Ok (Some [KProp "flowcharts"; KIdx 0; KProp "nodes"; KIdx (List.length ns)]),
        s')) /\
    (forall i, indexOf "id" (idOf node) ns = Some i ->
     i < List.length ns /\
     findNodeById (idOf node) s' =
       (Ok (Some [KProp "flowcharts"; KIdx 0; KProp "nodes"; KIdx i]), s')).
Proof.
  destruct (addNode_wellShaped s ns cs qs type x y H)
    as (node & s' & Hrun & Hnode & Hws & _).
  exists node, s'.
  assert (Hid : idOf node = nodeId (nextNodeId s)) by (now rewrite Hnode).
  pose proof (findNodeById_wellShaped s' _ _ _ (idOf node) Hws) as Hfind.
  rewrite indexOf_app_one in Hfind.
  refine (conj Hrun (conj Hid (conj (ws_nodes _ _ _ _ Hws) (conj _ (conj _ _))))).
  - rewrite app_nth2 by lia. now rewrite Nat.sub_diag.
  - intros Hnone. rewrite Hnone in Hfind.
    assert (Hself : strictEq (propOf "id" node) (idOf node) = true).
    { change (propOf "id" node) with (idOf node). rewrite Hid. apply strictEq_string. }
    rewrite Hself in Hfind. exact Hfind.
  - intros i Hi. rewrite Hi in Hfind. split; [ | exact Hfind ].
    now destruct (indexOf_Some _ _ _ _ Hi).
Qed.

Lemma added_node_is_found_by_its_id_witness :
  exists ns node s',
    wellShaped Samples.twoNodes ns [] [] /\
    E.addNode "end" (VNum 400) (VNum 0) Samples.twoNodes = (Ok node, s') /\
    idOf node = VStr "node-3" /\
    findNodeById (idOf node) s' =
      (Ok (Some [KProp "flowcharts"; KIdx 0; KProp "nodes"; KIdx 2]), s').
Proof.
  sample_shape Samples.twoNodes W.
  eexists.
  destruct (added_node_is_found_by_its_id _ _ _ _ "end" (VNum 400) (VNum 0) W)
    as (node & s' & Hrun & Hid & _ & _ & Hnew & _).
  exists node, s'.
  split; [ exact W | ]. split; [ exact Hrun | ].
  split; [ rewrite Hid; reflexivity | ].
  apply Hnew. rewrite Hid. reflexivity.
Defined.

Lemma active_withElem_nodes s ns cs qs c sps an np i e :
  wellShaped s ns cs qs ->
  sectionOf (data s) = Some (c, sps) ->
  lookup "nodes" sps = Some (VArr an ns np) ->
  let s' := withElem s "nodes" an ns np i e in
  activeNodes s' = Some (setNth i e ns) /\
  activeConnections s' = Some cs /\
  activeQuestions s' = Some qs /\
  sameCounters s s' /\ sameHeaders s s'.
Proof.
  intros [Hn Hc Hq _ _ _] Hsec Hln s'. subst s'.
  unfold activeNodes, activeConnections, activeQuestions, activeList in *.
  rewrite Hsec in *. unfold withElem. cbn [data withData].
  rewrite (sectionOf_withSection _ _ _ _ Hsec).
  rewrite elemsOf_assocSet_same, !elemsOf_assocSet_other by reflexivity.
  refine (conj eq_refl (conj Hc (conj Hq (conj _ _)))).
  - repeat split.
  - eapply sameHeaders_withSection. reflexivity.
Qed.

Lemma active_withElem_connections s ns cs qs c sps ac cp i e :
  wellShaped s ns cs qs ->
  sectionOf (data s) = Some (c, sps) ->
  lookup "connections" sps = Some (VArr ac cs cp) ->
  let s' := withElem s "connections" ac cs cp i e in
  activeNodes s' = Some ns /\
  activeConnections s' = Some (setNth i e cs) /\
  activeQuestions s' = Some qs /\
  sameCounters s s' /\ sameHeaders s s'.
Proof.
  intros [Hn Hc Hq _ _ _] Hsec Hlc s'. subst s'.
  unfold activeNodes, activeConnections, activeQuestions, activeList in *.
  rewrite Hsec in *. unfold withElem. cbn [data withData].
  rewrite (sectionOf_withSection _ _ _ _ Hsec).
  rewrite elemsOf_assocSet_same, !elemsOf_assocSet_other by reflexivity.
  refine (conj Hn (conj eq_refl (conj Hq (conj _ _)))).
  - repeat split.
  - eapply sameHeaders_withSection. reflexivity.
Qed.

(** X6. [updateNodeType] of a node that is found sets its type and
    derives its width, its height and the background colour of its
    style again from the tables of the type, with the values of
    [process] for a type the tables do not list.  The text and every
    other property of the node, the other colours of its style, the
    other nodes (also those with the same identifier), the connections,
    the questions and the counters stay as they were.  The type is any
    name but those that every object inherits (for which the tables
    give an inherited member), and the identifier one that gives the
    canvas a well-formed selector. *)
Theorem updateNodeType_derives_size_and_colour s ns cs qs id type i
  (H : wellShaped s ns cs qs)
  (Hfind : indexOf "id" id ns = Some i)
  (Hstyle : isObject (propOf "style" (nth i ns VUndef)) = true)
  (Hown : inherited type = false)
  (Hsel : selectorSafe id = true) :
  exists s' n',
    E.updateNodeType id type s = (Ok tt, s') /\
    activeNodes s' = Some (setNth i n' ns) /\
    propOf "type" n' = VStr type /\
    propOf "width" n' = fst (E.getDefaultNodeSize type) /\
    propOf "height" n' = snd (E.getDefaultNodeSize type) /\
    propOf "backgroundColor" (propOf "style" n') = E.getDefaultNodeColor type /\
    (forall k, String.eqb k "type" = false -> String.eqb k "width" = false ->
               String.eqb k "height" = false -> String.eqb k "style" = false ->
               propOf k n' = propOf k (nth i ns VUndef)) /\
    (forall k, String.eqb k "backgroundColor" = false ->
               propOf k (propOf "style" n') = propOf k (propOf "style" (nth i ns VUndef))) /\
    (lookup type
       [("start", tt); ("process", tt); ("decision", tt); ("end", tt); ("connector", tt)]
     = None ->
     E.getDefaultNodeSize type = (VNum 120, VNum 60) /\
     E.getDefaultNodeColor type = VStr "#e3f2fd") /\
    activeConnections s' = Some cs /\
    activeQuestions s' = Some qs /\
    sameCounters s s'.
Proof.
  destruct (wellShaped_inv _ _ _ _ H)
    as (c & sps & an & np & ac & cp & aq & qp & Hsec & Hn & Hc & Hq).
  pose proof (ws_node_objects _ _ _ _ H) as Hns.
  pose proof (ws_connection_objects _ _ _ _ H) as Hcs.
  destruct (indexOf_object _ _ _ _ Hns Hfind) as (na & nps & Hi).
  rewrite Hi in *. cbn [propOf] in Hstyle.
  destruct (lookup "style" nps) as [[| | | | | |sa stps]|] eqn:Hst; try discriminate.
  eexists _, _. split; [ eapply updateNodeType_found; eassumption | ].
  destruct (active_withElem_nodes s ns cs qs c sps an np i
              (VObj na
                 (assocSet "height" (snd (E.getDefaultNodeSize type))
                    (assocSet "width" (fst (E.getDefaultNodeSize type))
                       (assocSet "style"
                          (VObj sa (assocSet "backgroundColor"
                                      (E.getDefaultNodeColor type) stps))
                          (assocSet "type" (VStr type) nps))))) H Hsec Hn)
    as (Han & Hac & Haq & Hct & _).
  split; [ exact Han | ].
  cbn [propOf].
  rewrite !lookup_assocSet_same.
  rewrite !(lookup_assocSet_other "type") by reflexivity.
  rewrite !(lookup_assocSet_other "width") by reflexivity.
  rewrite !(lookup_assocSet_other "style") by reflexivity.
  rewrite !lookup_assocSet_same. cbn [orUndef propOf].
  rewrite !lookup_assocSet_same. rewrite Hst. cbn [orUndef].
  repeat (split; [ reflexivity | ]).
  split.
  { intros k K1 K2 K3 K4. now rewrite !lookup_assocSet_other by assumption. }
  split.
  { intros k K. now rewrite lookup_assocSet_other by assumption. }
  split.
  { unfold E.getDefaultNodeSize, E.getDefaultNodeColor. cbn [lookup].
    repeat (destruct (String.eqb type _); [ discriminate | ]). intros _.
    split; reflexivity. }
  auto.
Qed.

Lemma updateNodeType_derives_size_and_colour_witness :
  exists ns s' n',
    wellShaped Samples.oneNode ns [] [] /\
    E.updateNodeType (VStr "node-1") "decision" Samples.oneNode = (Ok tt, s') /\
    activeNodes s' = Some [n'] /\
    propOf "width" n' = VNum 100 /\ propOf "height" n' = VNum 80 /\
    propOf "text" n' = VStr "Process".
Proof.
  sample_shape Samples.oneNode W.
  eexists.
  destruct (updateNodeType_derives_size_and_colour _ _ _ _
              (VStr "node-1") "decision" 0 W eq_refl eq_refl eq_refl eq_refl)
    as (s' & n' & Hrun & Hnodes & _ & Hw & Hh & _ & Hkeep & _).
  exists s', n'.
  refine (conj W (conj Hrun (conj Hnodes (conj Hw (conj Hh _))))).
  rewrite (Hkeep "text") by reflexivity. reflexivity.
Defined.

(** ** Labels of connections whose ends are missing *)

Section LabelOfFoundConnection.

Variables (s : editor) (c : addr) (sps : fields).
Variables (an : addr) (ns : list value) (np : fields).
Variables (ac : addr) (cs : list value) (cp : fields).
Hypothesis Hsec : sectionOf (data s) = Some (c, sps).
Hypothesis Hn : lookup "nodes" sps = Some (VArr an ns np).
Hypothesis Hc : lookup "connections" sps = Some (VArr ac cs cp).
Hypothesis Hns : Forall (fun n => isObject n = true) ns.
Hypothesis Hcs : Forall (fun n => isObject n = true) cs.

Variables (id : value) (i : nat) (na : addr) (nps : fields).
Hypothesis Hfind : indexOf "id" id cs = Some i.
Hypothesis Hi : nth i cs VUndef = VObj na nps.

Lemma updateConnectionLabel_outcome label :
  E.updateConnectionLabel id label s =
  ((if truthy label then
      match indexOf "id" (orUndef (lookup "from" nps)) ns,
            indexOf "id" (orUndef (lookup "to" nps)) ns with
      | Some _, Some _ => Ok tt
      | _, _ => Throw TypeError
      end
    else Ok tt),
   withElem s "connections" ac cs cp i (VObj na (assocSet "label" label nps))).
Proof.
  pose proof (nth_object_length _ _ _ _ Hi) as Hlen.
  unfold E.updateConnectionLabel.
  destruct (on_found_connection s c sps ac cs cp Hsec Hc Hcs id i na nps Hfind Hi
              (fun r =>
                 writeProp r "label" label ;; cd <- readAt r ;;
                 C.updateConnectionLabel cd))
    as [F W].
  rewrite (bind_ok _ _ _ _ _ F), W.
  erewrite bind_ok by (eapply writeProp_withElem; eassumption).
  erewrite bind_ok by (eapply readAt_withElem; eassumption).
  unfold C.updateConnectionLabel.
  erewrite bind_ok by reflexivity.
  cbn [orUndef]. rewrite lookup_assocSet_same. cbn [orUndef].
  destruct (truthy label); [ | reflexivity ].
  erewrite bind_ok by reflexivity.
  erewrite bind_ok.
  2:{ eapply findNodeById_section with (a := an) (es := ns) (p := np);
        [ eapply withElem_section; eassumption
        | rewrite lookup_assocSet_other by reflexivity; exact Hn
        | exact Hns ]. }
  erewrite bind_ok by reflexivity.
  erewrite bind_ok.
  2:{ eapply findNodeById_section with (a := an) (es := ns) (p := np);
        [ eapply withElem_section; eassumption
        | rewrite lookup_assocSet_other by reflexivity; exact Hn
        | exact Hns ]. }
  rewrite !lookup_assocSet_other by reflexivity.
  destruct (indexOf "id" (orUndef (lookup "from" nps)) ns);
    destruct (indexOf "id" (orUndef (lookup "to" nps)) ns); reflexivity.
Qed.

End LabelOfFoundConnection.



(** ** Identifiers are consumed whatever happens *)

Lemma keeps_push {X} (f : editor -> X) r x :
  (forall d s, f (withData d s) = f s) -> keeps f (push r x).
Proof.
  intros H s. cbv beta iota delta [push bind readAt gets liftO modify].
  destruct (deref r (data s)) as [[| | | | |a es ps|]|e]; try reflexivity.
  apply H.
Qed.

Lemma getProp_throws k v e : getProp k v = Throw e -> e = TypeError.
Proof.
  destruct v; cbn [getProp]; try discriminate; try congruence;
    destruct (String.eqb k "length"); discriminate.
Qed.

Lemma getIndex_throws i v e : getIndex i v = Throw e -> e = TypeError.
Proof.
  destruct v; cbn [getIndex]; try discriminate; try congruence.
  destruct (String.get i s); discriminate.
Qed.

Lemma push_not_array r x s :
  (forall a es ps, deref r (data s) <> Ok (VArr a es ps)) ->
  push r x s = (Throw TypeError, s) \/
  exists e, deref r (data s) = Throw e /\ push r x s = (Throw e, s).
Proof.
  intros Hna. cbv beta iota delta [push bind readAt gets liftO modify].
  destruct (deref r (data s)) as [[| | | | |a es ps|]|e] eqn:E; auto.
  - exfalso. eapply Hna. reflexivity.
  - right. eauto.
Qed.

Lemma deref_nodes_throws k d e :
  deref [KProp "flowcharts"; KIdx 0; KProp k] d = Throw e -> e = TypeError.
Proof.
  cbn [deref getKey].
  destruct (getProp "flowcharts" d) as [f|e1] eqn:E1; cbn [obind].
  - destruct (getIndex 0 f) as [x|e2] eqn:E2; cbn [obind].
    + destruct (getProp k x) as [y|e3] eqn:E3; cbn [obind]; try discriminate.
      intros H. inversion H; subst. eapply getProp_throws; eassumption.
    + intros H. inversion H; subst. eapply getIndex_throws; eassumption.
  - intros H. inversion H; subst. eapply getProp_throws; eassumption.
Qed.

Lemma getCurrentFlowchart_outcome s :
  getCurrentFlowchart s = (Ok [KProp "flowcharts"; KIdx 0], s) \/
  getCurrentFlowchart s = (Throw TypeError, s).
Proof.
  unfold getCurrentFlowchart, bind, gets, liftO, ret.
  destruct (getProp "flowcharts" (data s)) as [f|e1] eqn:E1.
  - destruct (getIndex 0 f) as [x|e2] eqn:E2; [ now left | right ].
    now rewrite (getIndex_throws _ _ _ E2).
  - right. now rewrite (getProp_throws _ _ _ E1).
Qed.

(** X8. [addNode] and [addConnection] use up an identifier whatever
    happens: the counter of the kind goes up by exactly one and the
    other counters stay, also when the call throws.  It throws a
    [TypeError] and leaves the diagram as it was when the active
    section has no array of the kind ([nodes], [connections]), as after
    the load of a payload without sections.  The counter is below
    [2^53], where adding one is exact. *)
Theorem adding_always_consumes_an_identifier s :
  (safeInteger (nextNodeId s) = true ->
   forall type x y,
      let r := E.addNode type x y s in
      nextNodeId (snd r) = (nextNodeId s + 1)%N /\
      nextConnectionId (snd r) = nextConnectionId s /\
      nextQuestionId (snd r) = nextQuestionId s /\
      ((forall a es ps,
           deref [KProp "flowcharts"; KIdx 0; KProp "nodes"] (data s)
           <> Ok (VArr a es ps)) ->
       fst r = Throw TypeError /\ data (snd r) = data s)) /\
  (safeInteger (nextConnectionId s) = true ->
   forall f t label,
      let r := E.addConnection f t label s in
      nextConnectionId (snd r) = (nextConnectionId s + 1)%N /\
      nextNodeId (snd r) = nextNodeId s /\
      nextQuestionId (snd r) = nextQuestionId s /\
      ((forall a es ps,
           deref [KProp "flowcharts"; KIdx 0; KProp "connections"] (data s)
           <> Ok (VArr a es ps)) ->
       fst r = Throw TypeError /\ data (snd r) = data s)).
Proof.
  assert (Hthrow : forall k x (s1 : editor) (rest : M value),
             data s1 = data s ->
             (forall a es ps,
                 deref [KProp "flowcharts"; KIdx 0; KProp k] (data s) <> Ok (VArr a es ps)) ->
             fst ((fc <- getCurrentFlowchart ;;
                   push (fc ++ [KProp k])%list x ;; rest) s1) = Throw TypeError /\
             data (snd ((fc <- getCurrentFlowchart ;;
                         push (fc ++ [KProp k])%list x ;; rest) s1)) = data s).
  { intros k x s1 rest Hd Hna. rewrite <- Hd in Hna.
    destruct (getCurrentFlowchart_outcome s1) as [Hfc|Hfc].
    - rewrite (bind_ok _ _ _ _ _ Hfc). cbn [List.app].
      destruct (push_not_array [KProp "flowcharts"; KIdx 0; KProp k] x s1 Hna)
        as [Hp | (e & He & Hp)]; rewrite (bind_throw _ _ _ _ _ Hp); cbn [fst snd].
      + auto.
      + now rewrite (deref_nodes_throws _ _ _ He).
    - rewrite (bind_throw _ _ _ _ _ Hfc). auto. }
  split.
  - intros _ type x y r. subst r. unfold E.addNode.
    cbv beta iota delta [bind gets modify alloc ret] . cbn [fst snd].
    set (s1 := withHeapNext _ _).
    set (node := E.nodeLiteral _ _ _ _ _ _ _).
    change (match getCurrentFlowchart s1 with
            | (Ok a, s') => _
            | (Throw e, s') => (Throw e, s')
            end)
      with ((fc <- getCurrentFlowchart ;;
             push (fc ++ [KProp "nodes"])%list node ;;
             (C.renderNode node ;; E.updateStats ;; ret node)) s1).
    assert (K : forall {X} (g : editor -> X),
               (forall d s, g (withData d s) = g s) ->
               keeps g (fc <- getCurrentFlowchart ;;
                        push (fc ++ [KProp "nodes"])%list node ;;
                        (C.renderNode node ;; E.updateStats ;; ret node))).
    { intros X g Hg. keeps_tac. now apply keeps_push. }
    rewrite (K _ nextNodeId), (K _ nextConnectionId), (K _ nextQuestionId)
      by reflexivity.
    refine (conj eq_refl (conj eq_refl (conj eq_refl _))).
    intros Hna. apply Hthrow; [ reflexivity | exact Hna ].
  - intros _ f t label r. subst r. unfold E.addConnection.
    cbv beta iota zeta delta [bind gets modify alloc ret]. cbn [fst snd].
    set (s1 := withHeapNext _ _).
    set (conn := E.connectionLiteral _ _ _ _ _ _).
    change (match getCurrentFlowchart s1 with
            | (Ok a, s') => _
            | (Throw e, s') => (Throw e, s')
            end)
      with ((fc <- getCurrentFlowchart ;;
             push (fc ++ [KProp "connections"])%list conn ;;
             (C.renderConnection conn ;; E.updateStats ;; ret conn)) s1).
    assert (K : forall {X} (g : editor -> X),
               (forall d s, g (withData d s) = g s) ->
               keeps g (fc <- getCurrentFlowchart ;;
                        push (fc ++ [KProp "connections"])%list conn ;;
                        (C.renderConnection conn ;; E.updateStats ;; ret conn))).
    { intros X g Hg. keeps_tac. now apply keeps_push. }
    rewrite (K _ nextNodeId), (K _ nextConnectionId), (K _ nextQuestionId)
      by reflexivity.
    refine (conj eq_refl (conj eq_refl (conj eq_refl _))).
    intros Hna. apply Hthrow; [ reflexivity | exact Hna ].
Qed.

Lemma adding_always_consumes_an_identifier_witness :
  let file := JObj [("version", JNum 1); ("flowcharts", JArr [])] in
  let s := snd (E.loadFromJSON (Samples.parsed file) Samples.twoNodes) in
  nextNodeId s = 3%N /\
  fst (E.addNode "process" (VNum 0) (VNum 0) s) = Throw TypeError /\
  nextNodeId (snd (E.addNode "process" (VNum 0) (VNum 0) s)) = 4%N /\
  data (snd (E.addNode "process" (VNum 0) (VNum 0) s)) = data s.
Proof.
  cbv zeta.
  destruct (adding_always_consumes_an_identifier
              (snd (E.loadFromJSON
                      (Samples.parsed (JObj [("version", JNum 1); ("flowcharts", JArr [])]))
                      Samples.twoNodes))) as [Hnode _].
  assert (Hsafe : safeInteger
                    (nextNodeId
                       (snd (E.loadFromJSON
                               (Samples.parsed
                                  (JObj [("version", JNum 1); ("flowcharts", JArr [])]))
                               Samples.twoNodes))) = true)
    by (vm_compute; reflexivity).
  destruct (Hnode Hsafe "process" (VNum 0) (VNum 0)) as (Hcount & _ & _ & Hfail).
  destruct Hfail as [Hthrow Hdata].
  { intros a es ps Hc. vm_compute in Hc. discriminate Hc. }
  split; [ vm_compute; reflexivity | ].
  split; [ exact Hthrow | ].
  split; [ rewrite Hcount; vm_compute; reflexivity | exact Hdata ].
Defined.

(** ** Identifiers stay distinct in every editing session *)

Lemma wellShaped_unique s ns cs qs ns' cs' qs' :
  wellShaped s ns cs qs -> wellShaped s ns' cs' qs' ->
  ns' = ns /\ cs' = cs /\ qs' = qs.
Proof.
  intros [Hn Hc Hq _ _ _] [Hn' Hc' Hq' _ _ _].
  rewrite Hn in Hn'. rewrite Hc in Hc'. rewrite Hq in Hq'.
  inversion Hn'; inversion Hc'; inversion Hq'. auto.
Qed.

Lemma wellShaped_withElem_nodes s ns cs qs c sps an np i e :
  wellShaped s ns cs qs ->
  sectionOf (data s) = Some (c, sps) ->
  lookup "nodes" sps = Some (VArr an ns np) ->
  isObject e = true ->
  wellShaped (withElem s "nodes" an ns np i e) (setNth i e ns) cs qs.
Proof.
  intros H Hsec Hn He.
  destruct (active_withElem_nodes s ns cs qs c sps an np i e H Hsec Hn)
    as (Han & Hac & Haq & _).
  destruct H as [_ _ _ Hno Hco Hqo].
  constructor; auto. now apply Forall_setNth.
Qed.

Lemma wellShaped_withElem_connections s ns cs qs c sps ac cp i e :
  wellShaped s ns cs qs ->
  sectionOf (data s) = Some (c, sps) ->
  lookup "connections" sps = Some (VArr ac cs cp) ->
  isObject e = true ->
  wellShaped (withElem s "connections" ac cs cp i e) ns (setNth i e cs) qs.
Proof.
  intros H Hsec Hc He.
  destruct (active_withElem_connections s ns cs qs c sps ac cp i e H Hsec Hc)
    as (Han & Hac & Haq & _).
  destruct H as [_ _ _ Hno Hco Hqo].
  constructor; auto. now apply Forall_setNth.
Qed.

Lemma map_setNth_same {A B} (f : A -> B) i x l d :
  f x = f (nth i l d) -> map f (setNth i x l) = map f l.
Proof.
  revert i. induction l as [|y l IH]; intros [|i] H; cbn [setNth map nth] in *; auto.
  - now rewrite H.
  - now rewrite IH.
Qed.

Lemma idOf_set k x a ps :
  String.eqb "id" k = false -> idOf (VObj a (assocSet k x ps)) = idOf (VObj a ps).
Proof.
  intros Hk. unfold idOf. cbn [propOf]. now rewrite lookup_assocSet_other.
Qed.

(** What a call does to the lists of nodes and connections, as far as
    identifiers go. *)
Lemma perform_lists c s ns cs qs :
  wellShaped s ns cs qs ->
  Forall (fun n => nodeShaped n = true) ns ->
  Forall (fun c => connectionShaped c = true) cs ->
  let s' := snd (Session.perform c s) in
  exists ns' cs' qs',
    wellShaped s' ns' cs' qs' /\
    ((exists node,
         ns' = (ns ++ [node])%list /\ idOf node = nodeId (nextNodeId s) /\ cs' = cs /\
         nextNodeId s' = (nextNodeId s + 1)%N /\
         nextConnectionId s' = nextConnectionId s) \/
     (exists conn,
         cs' = (cs ++ [conn])%list /\ idOf conn = connectionId (nextConnectionId s) /\
         ns' = ns /\
         nextNodeId s' = nextNodeId s /\
         nextConnectionId s' = (nextConnectionId s + 1)%N) \/
     (map idOf ns' = map idOf ns /\ map idOf cs' = map idOf cs /\
      nextNodeId s' = nextNodeId s /\ nextConnectionId s' = nextConnectionId s) \/
     (exists p q,
         ns' = filter p ns /\ cs' = filter q cs /\
         nextNodeId s' = nextNodeId s /\ nextConnectionId s' = nextConnectionId s)).
Proof.
  intros Hws Hns Hcs s'. subst s'.
  destruct (wellShaped_inv _ _ _ _ Hws)
    as (c0 & sps & an & np & ac & cp & aq & qp & Hsec & Hn & Hc & Hq).
  pose proof (nodeShaped_object _ Hns) as Hno.
  pose proof (connectionShaped_object _ Hcs) as Hco.
  assert (Hsame : exists ns' cs' qs',
             wellShaped s ns' cs' qs' /\
             ((exists node,
                  ns' = (ns ++ [node])%list /\ idOf node = nodeId (nextNodeId s) /\
                  cs' = cs /\ nextNodeId s = (nextNodeId s + 1)%N /\
                  nextConnectionId s = nextConnectionId s) \/
              (exists conn,
                  cs' = (cs ++ [conn])%list /\
                  idOf conn = connectionId (nextConnectionId s) /\ ns' = ns /\
                  nextNodeId s = nextNodeId s /\
                  nextConnectionId s = (nextConnectionId s + 1)%N) \/
              (map idOf ns' = map idOf ns /\ map idOf cs' = map idOf cs /\
               nextNodeId s = nextNodeId s /\ nextConnectionId s = nextConnectionId s) \/
              (exists p q,
                  ns' = filter p ns /\ cs' = filter q cs /\
                  nextNodeId s = nextNodeId s /\
                  nextConnectionId s = nextConnectionId s))).
  { exists ns, cs, qs. split; [ exact Hws | ]. right. right. left. auto. }
  assert (Hnode : forall i e,
             isObject e = true -> idOf e = idOf (nth i ns VUndef) ->
             exists ns' cs' qs',
               wellShaped (withElem s "nodes" an ns np i e) ns' cs' qs' /\
               map idOf ns' = map idOf ns /\ map idOf cs' = map idOf cs).
  { intros i e He Hid. exists (setNth i e ns), cs, qs.
    split; [ eapply wellShaped_withElem_nodes; eassumption | ].
    split; [ | reflexivity ]. now apply (map_setNth_same idOf i e ns VUndef). }
  assert (Hconn : forall i e,
             isObject e = true -> idOf e = idOf (nth i cs VUndef) ->
             exists ns' cs' qs',
               wellShaped (withElem s "connections" ac cs cp i e) ns' cs' qs' /\
               map idOf ns' = map idOf ns /\ map idOf cs' = map idOf cs).
  { intros i e He Hid. exists ns, (setNth i e cs), qs.
    split; [ eapply wellShaped_withElem_connections; eassumption | ].
    split; [ reflexivity | ]. now apply (map_setNth_same idOf i e cs VUndef). }
  destruct c as [type x y | nid x y | nid text | nid type | nid status | nid notes
                | nid | f t label | cid label | cid style | cid status | cid
                | description | notes | ];
    cbn [Session.perform].
  - (* addNode *)
    destruct (addNode_wellShaped s ns cs qs type x y Hws)
      as (node & s' & Hrun & Hnode' & Hws' & Hnn & Hnc & _).
    unfold Session.discard. rewrite (bind_ok _ _ _ _ _ Hrun). cbn [snd ret].
    exists (ns ++ [node])%list, cs, qs. split; [ exact Hws' | ]. left.
    assert (Hid : idOf node = nodeId (nextNodeId s)) by (rewrite Hnode'; reflexivity).
    exists node. auto.
  - (* updateNodePosition *)
    node_case Hns nid ns.
    + erewrite updateNodePosition_found by eassumption. cbn [snd].
      destruct (Hnode i (VObj na (assocSet "y" y (assocSet "x" x nps))) eq_refl)
        as (ns' & cs' & qs' & W & E1 & E2).
      { rewrite Hi. now rewrite !idOf_set by reflexivity. }
      exists ns', cs', qs'. split; [ exact W | ]. right. right. left. auto.
    + erewrite updateNodePosition_missing by eassumption. exact Hsame.
  - (* updateNodeText *)
    node_case Hns nid ns.
    + erewrite updateNodeText_found by eassumption. cbn [snd].
      destruct (Hnode i (VObj na (assocSet "text" text nps)) eq_refl)
        as (ns' & cs' & qs' & W & E1 & E2).
      { rewrite Hi. now rewrite !idOf_set by reflexivity. }
      exists ns', cs', qs'. split; [ exact W | ]. right. right. left. auto.
    + erewrite updateNodeText_missing by eassumption. exact Hsame.
  - (* updateNodeType *)
    node_case Hns nid ns.
    + erewrite updateNodeType_found by eassumption. cbn [snd].
      match goal with
      | |- context [withElem s "nodes" an ns np i ?e] =>
          destruct (Hnode i e eq_refl) as (ns' & cs' & qs' & W & E1 & E2)
      end.
      { rewrite Hi. now rewrite !idOf_set by reflexivity. }
      exists ns', cs', qs'. split; [ exact W | ]. right. right. left. auto.
    + erewrite updateNodeType_missing by eassumption. exact Hsame.
  - (* updateNodeStatus *)
    node_case Hns nid ns.
    + erewrite updateNodeStatus_found by eassumption. cbn [snd].
      match goal with
      | |- context [withData (withSection (assocSet "nodes" (VArr an (setNth i ?e ns) np)) _) s] =>
          destruct (Hnode i e eq_refl) as (ns' & cs' & qs' & W & E1 & E2)
      end.
      { rewrite Hi. now rewrite !idOf_set by reflexivity. }
      exists ns', cs', qs'. split; [ exact W | ]. right. right. left. auto.
    + erewrite updateNodeStatus_missing by eassumption. exact Hsame.
  - (* updateNodeNotes *)
    node_case Hns nid ns.
    + erewrite updateNodeNotes_found by eassumption. cbn [snd].
      match goal with
      | |- context [withData (withSection (assocSet "nodes" (VArr an (setNth i ?e ns) np)) _) s] =>
          destruct (Hnode i e eq_refl) as (ns' & cs' & qs' & W & E1 & E2)
      end.
      { rewrite Hi. now rewrite !idOf_set by reflexivity. }
      exists ns', cs', qs'. split; [ exact W | ]. right. right. left. auto.
    + erewrite updateNodeNotes_missing by eassumption. exact Hsame.
  - (* deleteNode *)
    destruct (deleteNode_wellShaped s ns cs qs nid Hws)
      as (s' & Hrun & Hws' & (Hnn & Hnc & _) & _).
    rewrite Hrun. cbn [snd]. do 3 eexists. split; [ exact Hws' | ].
    right. right. right. do 2 eexists. auto.
  - (* addConnection *)
    destruct (addConnection_wellShaped s ns cs qs f t label Hws)
      as (conn & s' & Hrun & Hconn' & Hws' & Hnn & Hnc & _).
    unfold Session.discard. rewrite (bind_ok _ _ _ _ _ Hrun). cbn [snd ret].
    exists ns, (cs ++ [conn])%list, qs. split; [ exact Hws' | ]. right. left.
    assert (Hid : idOf conn = connectionId (nextConnectionId s))
      by (rewrite Hconn'; reflexivity).
    exists conn. auto.
  - (* updateConnectionLabel *)
    conn_case Hcs cid cs.
    + erewrite updateConnectionLabel_found by eassumption.
      destruct (Hconn i (VObj na (assocSet "label" label nps)) eq_refl)
        as (ns' & cs' & qs' & W & E1 & E2).
      { rewrite Hi. now rewrite !idOf_set by reflexivity. }
      exists ns', cs', qs'. split; [ exact W | ]. right. right. left. auto.
    + erewrite updateConnectionLabel_missing by eassumption. exact Hsame.
  - (* updateConnectionStyle *)
    conn_case Hcs cid cs.
    + erewrite updateConnectionStyle_found by eassumption. cbn [snd].
      destruct (Hconn i (VObj na (assocSet "style" style nps)) eq_refl)
        as (ns' & cs' & qs' & W & E1 & E2).
      { rewrite Hi. now rewrite !idOf_set by reflexivity. }
      exists ns', cs', qs'. split; [ exact W | ]. right. right. left. auto.
    + erewrite updateConnectionStyle_missing by eassumption. exact Hsame.
  - (* updateConnectionStatus *)
    conn_case Hcs cid cs.
    + erewrite updateConnectionStatus_found by eassumption. cbn [snd].
      match goal with
      | |- context [withElem s "connections" ac cs cp i ?e] =>
          destruct (Hconn i e eq_refl) as (ns' & cs' & qs' & W & E1 & E2)
      end.
      { rewrite Hi. now rewrite !idOf_set by reflexivity. }
      exists ns', cs', qs'. split; [ exact W | ]. right. right. left. auto.
    + erewrite updateConnectionStatus_missing by eassumption. exact Hsame.
  - (* deleteConnection *)
    destruct (deleteConnection_wellShaped s ns cs qs cid Hws)
      as (s' & Hrun & Hws' & (Hnn & Hnc & _) & _).
    rewrite Hrun. cbn [snd]. do 3 eexists. split; [ exact Hws' | ].
    right. right. right. exists (fun _ => true), (keepsNode cid).
    rewrite filter_all by (rewrite Forall_forall; auto). auto.
  - (* updateDescription *)
    destruct (sectionOf_inv _ _ _ Hsec) as (a & ps & b & rest & bps & Hd & Hf).
    unfold E.updateDescription. rewrite (writeHeader_spec _ _ _ _ _ Hd). cbn [snd].
    exists ns, cs, qs. split; [ | right; right; left; auto ].
    destruct Hws as [Wn Wc Wq Won Woc Woq].
    unfold activeNodes, activeConnections, activeQuestions, activeList in *.
    rewrite Hd in *.
    assert (E : sectionOf (VObj a (assocSet "description" description ps))
                = sectionOf (VObj a ps)).
    { unfold sectionOf. now rewrite lookup_assocSet_other. }
    constructor; auto;
      unfold activeNodes, activeConnections, activeQuestions, activeList;
      cbn [data withData]; now rewrite E.
  - (* updateGeneralNotes *)
    destruct (sectionOf_inv _ _ _ Hsec) as (a & ps & b & rest & bps & Hd & Hf).
    unfold E.updateGeneralNotes. rewrite (writeHeader_spec _ _ _ _ _ Hd). cbn [snd].
    exists ns, cs, qs. split; [ | right; right; left; auto ].
    destruct Hws as [Wn Wc Wq Won Woc Woq].
    unfold activeNodes, activeConnections, activeQuestions, activeList in *.
    rewrite Hd in *.
    assert (E : sectionOf (VObj a (assocSet "generalNotes" notes ps))
                = sectionOf (VObj a ps)).
    { unfold sectionOf. now rewrite lookup_assocSet_other. }
    constructor; auto;
      unfold activeNodes, activeConnections, activeQuestions, activeList;
      cbn [data withData]; now rewrite E.
  - (* clearAll *)
    destruct (clearAll_wellShaped s ns cs qs Hws) as (s' & Hrun & Hws' & (Hnn & Hnc & _) & _).
    rewrite Hrun. cbn [snd]. exists [], [], []. split; [ exact Hws' | ].
    right. right. right. exists (fun _ => false), (fun _ => false).
    assert (F : forall l : list value, filter (fun _ => false) l = []).
    { induction l; auto. }
    rewrite !F. auto.
Qed.

Lemma connectionId_inj (n m : N) : connectionId n = connectionId m -> n = m.
Proof.
  unfold connectionId. intros E. inversion E. now apply showN_inj.
Qed.

Lemma ids_filter {A} (f : A -> value) (g : N -> value) (p : A -> bool) l :
  forall ks,
    map f l = map g ks -> NoDup ks ->
    exists ks',
      map f (filter p l) = map g ks' /\ NoDup ks' /\ (forall k, In k ks' -> In k ks).
Proof.
  induction l as [|x l IH]; intros [|k ks] E Hnd; cbn [map filter] in *;
    try discriminate.
  - exists []. split; [ reflexivity | split; [ constructor | auto ] ].
  - inversion E as [[Ex El]]. inversion Hnd as [|? ? Hk Hks]; subst.
    destruct (IH ks El Hks) as (ks' & Em & Hnd' & Hin).
    destruct (p x).
    + exists (k :: ks'). cbn [map]. rewrite Ex, Em.
      split; [ reflexivity | split ].
      * constructor; [ intros Hc; apply Hk; auto | exact Hnd' ].
      * intros k' [<-|Hk']; [ now left | right; auto ].
    + exists ks'. split; [ exact Em | split; [ exact Hnd' | ] ].
      intros k' Hk'. right. auto.
Qed.

Lemma ids_append (g : N -> value) ids ks e k (bound : N) :
  ids = map g ks -> NoDup ks -> Forall (fun j => (j < bound)%N) ks ->
  e = g bound -> k = bound ->
  (ids ++ [e])%list = map g (ks ++ [k]) /\ NoDup (ks ++ [k]) /\
  Forall (fun j => (j < bound + 1)%N) (ks ++ [k]).
Proof.
  intros -> Hnd Hlt -> ->. split; [ | split ].
  - now rewrite map_app.
  - apply NoDup_app; auto.
    + repeat constructor. intros [].
    + intros j Hj [<-|[]]. rewrite Forall_forall in Hlt. specialize (Hlt _ Hj). lia.
  - apply Forall_app. split.
    + eapply Forall_impl; [ | exact Hlt ]. intros j Hj. cbv beta in *. lia.
    + repeat constructor. lia.
Qed.

Lemma perform_identified c s nk ck :
  identified s nk ck ->
  exists nk' ck', identified (snd (Session.perform c s)) nk' ck'.
Proof.
  intros (ns & cs & qs & Hws & Hns & Hcs & Hnid & Hnnd & Hnlt & Hcid & Hcnd & Hclt).
  assert (Hwf : wellFormed s) by (exists ns, cs, qs; auto).
  destruct (perform_step c s Hwf) as ((ns2 & cs2 & qs2 & Hws2 & Hns2 & Hcs2) & _).
  destruct (perform_lists c s ns cs qs Hws Hns Hcs) as (ns' & cs' & qs' & Hws' & Hrel).
  cbv zeta in Hrel.
  destruct (wellShaped_unique _ _ _ _ _ _ _ Hws' Hws2) as (-> & -> & ->).
  set (s' := snd (Session.perform c s)) in *.
  destruct Hrel as [(node & -> & Hid & -> & Hnn & Hnc)
                   |[(conn & -> & Hid & -> & Hnn & Hnc)
                   |[(En & Ec & Hnn & Hnc)
                   |(p & q & -> & -> & Hnn & Hnc)]]].
  - destruct (ids_append nodeId (map idOf ns) nk (idOf node) (nextNodeId s)
                (nextNodeId s) Hnid Hnnd Hnlt Hid eq_refl) as (E1 & E2 & E3).
    exists (nk ++ [nextNodeId s])%list, ck.
    exists (ns ++ [node])%list, cs, qs'.
    rewrite Hnn, Hnc, map_app. cbn [map]. auto 10.
  - destruct (ids_append connectionId (map idOf cs) ck (idOf conn) (nextConnectionId s)
                (nextConnectionId s) Hcid Hcnd Hclt Hid eq_refl) as (E1 & E2 & E3).
    exists nk, (ck ++ [nextConnectionId s])%list.
    exists ns, (cs ++ [conn])%list, qs'.
    rewrite Hnn, Hnc, map_app. cbn [map]. auto 10.
  - exists nk, ck. exists ns', cs', qs'.
    rewrite Hnn, Hnc, En, Ec. auto 10.
  - destruct (ids_filter idOf nodeId p ns nk Hnid Hnnd) as (nk' & E1 & E2 & E3).
    destruct (ids_filter idOf connectionId q cs ck Hcid Hcnd) as (ck' & F1 & F2 & F3).
    exists nk', ck'. exists (filter p ns), (filter q cs), qs'.
    rewrite Hnn, Hnc.
    rewrite Forall_forall in Hnlt, Hclt.
    assert (Forall (fun k => (k < nextNodeId s)%N) nk')
      by (rewrite Forall_forall; auto).
    assert (Forall (fun k => (k < nextConnectionId s)%N) ck')
      by (rewrite Forall_forall; auto).
    auto 10.
Qed.

Lemma run_identified calls :
  forall s nk ck,
    identified s nk ck -> exists nk' ck', identified (Session.run calls s) nk' ck'.
Proof.
  induction calls as [|c calls IH]; intros s nk ck H; cbn [Session.run].
  - eauto.
  - destruct (perform_identified c s nk ck H) as (nk1 & ck1 & H1). eauto.
Qed.

(** X9. In every session of editing calls on a new editor (adding,
    updating and deleting nodes and connections, with any arguments,
    and [clearAll]), the nodes of the diagram carry pairwise distinct
    identifiers and so do its connections; every identifier in use is
    [node-k] or [conn-k] for a number [k] below the counter of its
    kind, so that the next identifier handed out is not in use. *)
Theorem identifiers_stay_distinct now hasNotifier calls :
  let s := Session.run calls (E.init now hasNotifier) in
  exists ns cs qs,
    wellShaped s ns cs qs /\
    NoDup (map idOf ns) /\
    NoDup (map idOf cs) /\
    Forall (fun n => exists k, idOf n = nodeId k /\ (k < nextNodeId s)%N) ns /\
    Forall (fun c => exists k, idOf c = connectionId k /\ (k < nextConnectionId s)%N) cs /\
    indexOf "id" (nodeId (nextNodeId s)) ns = None /\
    indexOf "id" (connectionId (nextConnectionId s)) cs = None.
Proof.
  intros s.
  assert (H0 : identified (E.init now hasNotifier) [] []).
  { exists [], [], []. repeat split; try constructor; try reflexivity. }
  destruct (run_identified calls _ _ _ H0)
    as (nk & ck & ns & cs & qs & Hws & _ & _ & Hnid & Hnnd & Hnlt & Hcid & Hcnd & Hclt).
  fold s in Hws, Hnlt, Hclt.
  assert (Hbound : forall (g : N -> value) (l : list value) ks (bound : N),
             map idOf l = map g ks -> Forall (fun k => (k < bound)%N) ks ->
             Forall (fun e => exists k, idOf e = g k /\ (k < bound)%N) l).
  { intros g l. induction l as [|e l IH]; intros [|k ks] bound E Hlt;
      cbn [map] in E; try discriminate; constructor.
    - inversion E. inversion Hlt; subst. eauto.
    - inversion E. inversion Hlt; subst. eauto. }
  assert (Hfree : forall (g : N -> value) (l : list value) (bound : N),
             (forall a b, strictEq (g a) (g b) = N.eqb a b) ->
             Forall (fun e => exists k, idOf e = g k /\ (k < bound)%N) l ->
             indexOf "id" (g bound) l = None).
  { intros g l bound Hg Hl. apply indexOf_None.
    eapply Forall_impl; [ | exact Hl ]. intros e (k & Hk & Hlt). cbv beta.
    change (propOf "id" e) with (idOf e). rewrite Hk, Hg.
    apply N.eqb_neq. lia. }
  exists ns, cs, qs.
  refine (conj Hws (conj _ (conj _ (conj (Hbound _ _ _ _ Hnid Hnlt)
            (conj (Hbound _ _ _ _ Hcid Hclt) (conj _ _)))))).
  - rewrite Hnid. apply NoDup_map_injective; auto. apply nodeId_inj.
  - rewrite Hcid. apply NoDup_map_injective; auto. apply connectionId_inj.
  - apply (Hfree nodeId); [ apply strictEq_nodeId | ]. exact (Hbound _ _ _ _ Hnid Hnlt).
  - apply (Hfree connectionId); [ | exact (Hbound _ _ _ _ Hcid Hclt) ].
    intros a b. unfold connectionId. cbn [strictEq].
    destruct (N.eqb_spec a b) as [->|Hne].
    + apply String.eqb_refl.
    + apply String.eqb_neq. intros E. apply Hne. apply showN_inj. now inversion E.
Qed.

(** ** Loading a payload in the legacy shape *)

Lemma loadLegacyArray_object p k s c sps :
  isObject p = true ->
  sectionOf (data s) = Some (c, sps) ->
  exists v s1,
    E.loadLegacyArray p k s =
      (Ok tt, withData (withSection (assocSet k v) (data s)) s1) /\
    data s1 = data s /\
    nextNodeId s1 = nextNodeId s /\
    heapNext s <= heapNext s1 /\
    (if truthy (propOf k p) then v = propOf k p
     else exists a, v = VArr a [] [] /\ heapNext s <= a < heapNext s1).
Proof.
  intros Hp Hsec. unfold E.loadLegacyArray.
  rewrite (bind_ok _ _ _ _ _ (readAt_section s c sps Hsec)).
  rewrite (bind_ok _ _ _ (propOf k p) s)
    by (unfold liftO; now rewrite (getProp_object _ _ Hp)).
  unfold E.orEmptyArray. destruct (truthy (propOf k p)) eqn:Ht.
  - rewrite (bind_ok _ _ _ (propOf k p) s) by reflexivity.
    exists (propOf k p), s.
    split; [ apply (writeProp_section s c sps Hsec) | auto ].
  - rewrite (bind_ok _ _ _ (VArr (heapNext s) [] []) (withHeapNext (S (heapNext s)) s))
      by reflexivity.
    exists (VArr (heapNext s) [] []), (withHeapNext (S (heapNext s)) s).
    split; [ apply (writeProp_section (withHeapNext (S (heapNext s)) s) c sps Hsec) | ].
    cbn [data heapNext nextNodeId withHeapNext].
    refine (conj eq_refl (conj eq_refl (conj _ _))); [ lia | ].
    exists (heapNext s). split; [ reflexivity | lia ].
Qed.

Lemma loadBody_legacy_object p s :
  isObject p = true -> isVersioned p = false ->
  E.loadBody p s =
  ((E.loadLegacyArray p "nodes" ;;
    E.loadLegacyArray p "connections" ;;
    E.loadLegacyArray p "questions") ;;
   E.updateIdCounters ;; E.renderAll ;; E.updateStats) s.
Proof.
  intros Hp Hvp. unfold E.loadBody, isVersioned in *.
  rewrite (getProp_object _ _ Hp) in Hvp.
  rewrite (getProp_object "flowcharts" _ Hp) in Hvp.
  cbv beta iota delta [bind liftO ret].
  rewrite !(getProp_object _ _ Hp).
  destruct (truthy (propOf "version" p)) eqn:Htv; cbn [andb] in Hvp.
  - rewrite Hvp. reflexivity.
  - rewrite Htv. reflexivity.
Qed.

(** X10. [loadFromJSON] of an object that is not in the versioned shape
    (no truthy [version], or no truthy [flowcharts]) keeps the diagram
    object and replaces the [nodes], [connections] and [questions] of
    its active section: each by the payload's own value of that name
    when it is truthy (the array of the payload itself, not a copy, and
    unchecked: it need not be an array), and by a new empty array
    otherwise.  The title and the other top-level properties stay, and
    no exception escapes. *)
Theorem legacy_load_replaces_the_three_arrays s ns cs qs p
  (H : wellShaped s ns cs qs)
  (Hobj : isObject p = true)
  (Hlegacy : isVersioned p = false) :
  let s' := snd (E.loadFromJSON p s) in
  exists vn vc vq,
    fst (E.loadFromJSON p s) = Ok tt /\
    data s' =
      withSection
        (fun sps => assocSet "questions" vq
                      (assocSet "connections" vc (assocSet "nodes" vn sps)))
        (data s) /\
    (if truthy (propOf "nodes" p) then vn = propOf "nodes" p
     else exists a, vn = VArr a [] [] /\ heapNext s <= a) /\
    (if truthy (propOf "connections" p) then vc = propOf "connections" p
     else exists a, vc = VArr a [] [] /\ heapNext s <= a) /\
    (if truthy (propOf "questions" p) then vq = propOf "questions" p
     else exists a, vq = VArr a [] [] /\ heapNext s <= a) /\
    activeNodes s' = match vn with VArr _ es _ => Some es | _ => None end /\
    activeConnections s' = match vc with VArr _ es _ => Some es | _ => None end /\
    activeQuestions s' = match vq with VArr _ es _ => Some es | _ => None end /\
    sameHeaders s s'.
Proof.
  destruct (wellShaped_inv _ _ _ _ H)
    as (c & sps & an & np & ac & cp & aq & qp & Hsec & _).
  destruct (loadLegacyArray_object p "nodes" s c sps Hobj Hsec)
    as (vn & s1 & Hrun1 & Hd1 & _ & Hh1 & Hv1).
  set (t1 := withData (withSection (assocSet "nodes" vn) (data s)) s1) in *.
  assert (Hsec1 : sectionOf (data t1) = Some (c, assocSet "nodes" vn sps))
    by (apply sectionOf_withSection; exact Hsec).
  destruct (loadLegacyArray_object p "connections" t1 _ _ Hobj Hsec1)
    as (vc & s2 & Hrun2 & Hd2 & _ & Hh2 & Hv2).
  set (t2 := withData (withSection (assocSet "connections" vc) (data t1)) s2) in *.
  assert (Hsec2 : sectionOf (data t2)
                  = Some (c, assocSet "connections" vc (assocSet "nodes" vn sps)))
    by (apply sectionOf_withSection; exact Hsec1).
  destruct (loadLegacyArray_object p "questions" t2 _ _ Hobj Hsec2)
    as (vq & s3 & Hrun3 & Hd3 & _ & Hh3 & Hv3).
  set (t3 := withData (withSection (assocSet "questions" vq) (data t2)) s3) in *.
  assert (Hdata : data t3 =
                  withSection
                    (fun sps => assocSet "questions" vq
                                  (assocSet "connections" vc (assocSet "nodes" vn sps)))
                    (data s)).
  { unfold t3, t2, t1. cbn [data withData].
    rewrite (withSection_withSection _ _ _ _ _ Hsec).
    now rewrite (withSection_withSection _ _ _ _ _ Hsec). }
  assert (Hbody : data (snd (E.loadBody p s)) = data t3).
  { rewrite (loadBody_legacy_object p s Hobj Hlegacy).
    rewrite (bind_ok _ _ _ tt t3).
    - apply keeps_data_afterLoad.
    - rewrite (bind_ok _ _ _ _ _ Hrun1). rewrite (bind_ok _ _ _ _ _ Hrun2).
      exact Hrun3. }
  assert (Hload : fst (E.loadFromJSON p s) = Ok tt /\
                  data (snd (E.loadFromJSON p s)) = data t3).
  { rewrite loadFromJSON_unfold.
    destruct (E.loadBody p s) as [[[]|e] sb]; cbn [fst snd] in *; auto. }
  destruct Hload as [Hok Hd]. cbv zeta.
  assert (Hfresh : forall k v t tn,
             heapNext s <= heapNext t ->
             (if truthy (propOf k p) then v = propOf k p
              else exists a, v = VArr a [] [] /\ heapNext t <= a < tn) ->
             if truthy (propOf k p) then v = propOf k p
             else exists a, v = VArr a [] [] /\ heapNext s <= a).
  { intros k v t tn Hle Hv. destruct (truthy (propOf k p)); auto.
    destruct Hv as (a & -> & Ha). exists a. split; [ reflexivity | lia ]. }
  assert (Hact : forall k,
             activeList k (data (snd (E.loadFromJSON p s))) =
             elemsOf k (assocSet "questions" vq
                          (assocSet "connections" vc (assocSet "nodes" vn sps)))).
  { intros k. rewrite Hd, Hdata.
    exact (activeList_withSection k
             (fun sps => assocSet "questions" vq
                           (assocSet "connections" vc (assocSet "nodes" vn sps)))
             (data s) c sps Hsec). }
  exists vn, vc, vq.
  refine (conj Hok (conj _ (conj _ (conj _ (conj _ (conj _ (conj _ (conj _ _)))))))).
  - now rewrite Hd.
  - apply (Hfresh _ _ s (heapNext s1)); [ lia | exact Hv1 ].
  - apply (Hfresh _ _ t1 (heapNext s2)); [ | exact Hv2 ].
    unfold t1. cbn [heapNext withData]. lia.
  - apply (Hfresh _ _ t2 (heapNext s3)); [ | exact Hv3 ].
    unfold t2. cbn [heapNext withData]. unfold t1 in Hh2.
    cbn [heapNext withData] in Hh2. lia.
  - unfold activeNodes. rewrite Hact.
    rewrite !elemsOf_assocSet_other by reflexivity. unfold elemsOf.
    now rewrite lookup_assocSet_same.
  - unfold activeConnections. rewrite Hact.
    rewrite !elemsOf_assocSet_other by reflexivity. unfold elemsOf.
    now rewrite lookup_assocSet_same.
  - unfold activeQuestions. rewrite Hact. unfold elemsOf.
    now rewrite lookup_assocSet_same.
  - eapply sameHeaders_withSection. rewrite Hd. exact Hdata.
Qed.

Lemma legacy_load_replaces_the_three_arrays_witness :
  let p := Samples.parsed
             (JObj [("nodes", JArr [JObj [("id", JStr "node-9")]])]) in
  let s' := snd (E.loadFromJSON p Samples.joined) in
  isVersioned p = false /\
  (exists n, activeNodes s' = Some [n] /\ idOf n = VStr "node-9") /\
  activeConnections s' = Some [] /\
  header "title" s' = Some (VStr "New Flowchart").
Proof.
  cbv zeta.
  sample_shape Samples.joined W.
  destruct (legacy_load_replaces_the_three_arrays _ _ _ _
              (Samples.parsed (JObj [("nodes", JArr [JObj [("id", JStr "node-9")]])]))
              W eq_refl eq_refl)
    as (vn & vc & vq & _ & _ & Hvn & Hvc & _ & Hnodes & Hconns & _ & Hhead).
  cbv zeta in *.
  change (truthy (propOf "nodes" _)) with true in Hvn. cbv iota in Hvn.
  change (truthy (propOf "connections" _)) with false in Hvc. cbv iota in Hvc.
  destruct Hvc as (a & -> & _). subst vn.
  split; [ reflexivity | ].
  split; [ eexists; split; [ exact Hnodes | reflexivity ] | ].
  split; [ exact Hconns | ].
  rewrite (Hhead "title") by reflexivity. reflexivity.
Defined.

(** ** Deleting, then looking up *)

Lemma indexOf_filter_keepsNode id l :
  indexOf "id" id (filter (keepsNode id) l) = None.
Proof.
  apply indexOf_None. eapply Forall_impl; [ | apply filter_keeps_not ].
  intros e He. cbv beta in *. unfold keepsNode, strictNeq, idOf in He.
  now apply negb_true_iff in He.
Qed.

Lemma filter_filter {A} (q : A -> bool) l : filter q (filter q l) = filter q l.
Proof. apply filter_all. apply filter_keeps_not. Qed.

(** X11. After [deleteNode] no node carries the identifier any more,
    also when several nodes carried it, so [findNodeById] finds nothing
    and the updates by that identifier do nothing; the same holds for
    [deleteConnection] and [findConnectionById], which leaves the nodes
    alone.  Deleting a second time removes nothing more. *)
Theorem deleted_elements_are_not_found s ns cs qs id
  (H : wellShaped s ns cs qs) :
  (exists s',
      E.deleteNode id s = (Ok tt, s') /\
      wellShaped s' (filter (keepsNode id) ns) (filter (keepsConnection id) cs) qs /\
      findNodeById id s' = (Ok None, s') /\
      (forall text, E.updateNodeText id text s' = (Ok tt, s')) /\
      exists s'',
        E.deleteNode id s' = (Ok tt, s'') /\
        wellShaped s'' (filter (keepsNode id) ns) (filter (keepsConnection id) cs) qs) /\
  (exists s',
      E.deleteConnection id s = (Ok tt, s') /\
      wellShaped s' ns (filter (keepsNode id) cs) qs /\
      findConnectionById id s' = (Ok None, s') /\
      (forall label, E.updateConnectionLabel id label s' = (Ok tt, s')) /\
      exists s'',
        E.deleteConnection id s' = (Ok tt, s'') /\
        wellShaped s'' ns (filter (keepsNode id) cs) qs).
Proof.
  split.
  - destruct (deleteNode_wellShaped s ns cs qs id H) as (s' & Hrun & Hws & _).
    exists s'. split; [ exact Hrun | split; [ exact Hws | ] ].
    pose proof (indexOf_filter_keepsNode id ns) as Hnone.
    split.
    { rewrite (findNodeById_wellShaped _ _ _ _ id Hws). now rewrite Hnone. }
    split.
    { intros text. unfold E.updateNodeText.
      rewrite (bind_ok _ _ _ None s'); [ reflexivity | ].
      rewrite (findNodeById_wellShaped _ _ _ _ id Hws). now rewrite Hnone. }
    destruct (deleteNode_wellShaped s' _ _ _ id Hws) as (s'' & Hrun2 & Hws2 & _).
    exists s''. split; [ exact Hrun2 | ]. now rewrite !filter_filter in Hws2.
  - destruct (deleteConnection_wellShaped s ns cs qs id H) as (s' & Hrun & Hws & _).
    exists s'. split; [ exact Hrun | split; [ exact Hws | ] ].
    pose proof (indexOf_filter_keepsNode id cs) as Hnone.
    split.
    { rewrite (findConnectionById_wellShaped _ _ _ _ id Hws). now rewrite Hnone. }
    split.
    { intros label. unfold E.updateConnectionLabel.
      rewrite (bind_ok _ _ _ None s'); [ reflexivity | ].
      rewrite (findConnectionById_wellShaped _ _ _ _ id Hws). now rewrite Hnone. }
    destruct (deleteConnection_wellShaped s' _ _ _ id Hws) as (s'' & Hrun2 & Hws2 & _).
    exists s''. split; [ exact Hrun2 | ]. now rewrite !filter_filter in Hws2.
Qed.

Lemma deleted_elements_are_not_found_witness :
  exists ns cs s',
    wellShaped Samples.joined ns cs [] /\
    E.deleteConnection (VStr "conn-1") Samples.joined = (Ok tt, s') /\
    wellShaped s' ns [] [] /\
    findConnectionById (VStr "conn-1") s' = (Ok None, s').
Proof.
  sample_shape Samples.joined W.
  do 2 eexists.
  destruct (deleted_elements_are_not_found _ _ _ _ (VStr "conn-1") W)
    as [_ (s' & Hrun & Hws & Hfind & _)].
  exists s'. refine (conj W (conj Hrun (conj Hws Hfind))).
Defined.

(** ** Defaults of a node type *)

(** X12. The text that [addNode] gives a new node is never empty: it is
    the label of the type for [start], [process], [decision] and [end],
    and ["Node"] for every other type, [connector] included, whose
    entry in the table is the empty string and so gives way to the
    fallback.  The type is any name but those that every object
    inherits, such as [constructor], for which the table gives the
    inherited member. *)
Theorem default_text_is_never_empty (type : string)
  (Hown : inherited type = false) :
  (exists t, E.getDefaultNodeText type = VStr t /\ t <> "") /\
  (String.eqb type "start" = false -> String.eqb type "process" = false ->
   String.eqb type "decision" = false -> String.eqb type "end" = false ->
   E.getDefaultNodeText type = VStr "Node") /\
  (forall a b m id x y,
      propOf "text" (E.nodeLiteral a b m id type x y) = E.getDefaultNodeText type).
Proof.
  unfold E.getDefaultNodeText. cbn [lookup].
  split; [ | split ].
  - repeat (destruct (String.eqb type _);
            [ eexists; split; [ reflexivity | discriminate ] | ]).
    eexists; split; [ reflexivity | discriminate ].
  - intros H1 H2 H3 H4. rewrite H1, H2, H3, H4.
    destruct (String.eqb type "connector"); reflexivity.
  - reflexivity.
Qed.

Lemma default_text_is_never_empty_witness :
  E.getDefaultNodeText "connector" = VStr "Node".
Proof.
  destruct (default_text_is_never_empty "connector" eq_refl) as (_ & H & _).
  apply H; reflexivity.
Defined.

(* ================================================================== *)
(** * Local storage *)

Module TS := ToolBeltStorage.

(** ** Items and keys *)

Lemma lookup_filter_key {V} (k k' : string) (l : list (string * V)) :
  lookup k (filter (fun e => negb (String.eqb (fst e) k')) l) =
  if String.eqb k k' then None else lookup k l.
Proof.
  induction l as [|[k0 v] l IH]; cbn [filter lookup fst].
  - destruct (String.eqb k k'); reflexivity.
  - destruct (String.eqb_spec k0 k') as [-> | Hne]; cbn [negb].
    + rewrite IH. destruct (String.eqb k k'); reflexivity.
    + cbn [lookup]. rewrite IH.
      destruct (String.eqb_spec k k0) as [-> | Hne'].
      * destruct (String.eqb_spec k0 k'); [ contradiction | reflexivity ].
      * reflexivity.
Qed.

Lemma filter_key_absent {V} (k : string) (l : list (string * V)) :
  lookup k l = None ->
  filter (fun e => negb (String.eqb (fst e) k)) l = l.
Proof.
  induction l as [|[k0 v] l IH]; cbn [filter lookup fst]; [ reflexivity | ].
  rewrite (String.eqb_sym k0 k).
  destruct (String.eqb k k0); [ discriminate | ].
  intros H. cbn [negb]. now rewrite IH.
Qed.

Lemma lookup_absent {V} (k : string) (l : list (string * V)) :
  ~ In k (map fst l) -> lookup k l = None.
Proof.
  induction l as [|[k0 v] l IH]; cbn [map fst lookup In]; [ reflexivity | ].
  intros H. destruct (String.eqb_spec k k0) as [-> | _].
  - exfalso. apply H. now left.
  - apply IH. intros Hin. apply H. now right.
Qed.

Lemma withItems_same p : TS.withItems (TS.items p) p = p.
Proof. destruct p; reflexivity. Qed.

Lemma getItem_removeItem k k' p :
  TS.getItem k (TS.removeItem k' p) =
  if String.eqb k k' then None else TS.getItem k p.
Proof. unfold TS.getItem, TS.removeItem. cbn [TS.items TS.withItems]. apply lookup_filter_key. Qed.

Lemma getItem_removeAll keys : forall p k,
  TS.getItem k (fold_left (fun q key => TS.removeItem key q) keys p) =
  if existsb (String.eqb k) keys then None else TS.getItem k p.
Proof.
  induction keys as [|k0 keys IH]; intros p k; cbn [fold_left existsb]; [ reflexivity | ].
  rewrite IH, getItem_removeItem.
  destruct (String.eqb k k0); cbn [orb]; [ | reflexivity ].
  destruct (existsb (String.eqb k) keys); reflexivity.
Qed.

Lemma removeAll_frame keys : forall p,
  let p' := fold_left (fun q key => TS.removeItem key q) keys p in
  TS.heapNext p' = TS.heapNext p /\ TS.console p' = TS.console p /\
  TS.notifications p' = TS.notifications p /\ TS.events p' = TS.events p.
Proof.
  induction keys as [|k0 keys IH]; intros p; cbn [fold_left]; [ now repeat split | ].
  destruct (IH (TS.removeItem k0 p)) as (H1 & H2 & H3 & H4).
  cbv zeta. rewrite H1, H2, H3, H4. now repeat split.
Qed.

Lemma prefix_app s t : String.prefix s (s ++ t) = true.
Proof.
  induction s as [|a s IH]; cbn [String.append].
  - destruct t; reflexivity.
  - cbn [String.prefix]. destruct (ascii_dec a a); [ exact IH | contradiction ].
Qed.

Lemma prefix_trans s t u :
  String.prefix s t = true -> String.prefix t u = true -> String.prefix s u = true.
Proof.
  revert t u. induction s as [|a s IH]; intros t u.
  - intros _ _. destruct u; reflexivity.
  - destruct t as [|b t]; [ discriminate | ].
    destruct u as [|c u]; [ discriminate | ].
    cbn [String.prefix].
    destruct (ascii_dec a b) as [-> | ]; [ | discriminate ].
    destruct (ascii_dec b c) as [-> | ]; [ | discriminate ].
    apply IH.
Qed.

Lemma append_assoc3 (s t u : string) : ((s ++ t) ++ u = s ++ t ++ u)%string.
Proof. induction s as [|a s IH]; cbn [String.append]; [ reflexivity | now rewrite IH ]. Qed.

Lemma prefixedKey_nested ns x key :
  TS.prefixedKey (ns ++ "_" ++ x) key = TS.prefixedKey ns (x ++ "_" ++ key).
Proof.
  unfold TS.prefixedKey. rewrite append_assoc3. reflexivity.
Qed.

Lemma prefix_prefixedKey ns key : String.prefix (ns ++ "_") (TS.prefixedKey ns key) = true.
Proof.
  unfold TS.prefixedKey.
  replace (ns ++ "_" ++ key) with ((ns ++ "_") ++ key) by apply append_assoc3.
  apply prefix_app.
Qed.

Lemma clearFilter_prefix ns k :
  negb (String.eqb k "") && String.prefix (ns ++ "_") k = String.prefix (ns ++ "_") k.
Proof.
  destruct k as [|c k]; [ | reflexivity ].
  destruct ns; reflexivity.
Qed.

Lemma getItem_clear ns p k :
  TS.getItem k (snd (TS.clear ns p)) =
  if String.prefix (ns ++ "_") k then None else TS.getItem k p.
Proof.
  unfold TS.clear. cbn [snd]. rewrite getItem_removeAll.
  set (f := fun key => negb (String.eqb key "") && String.prefix (ns ++ "_") key).
  destruct (existsb (String.eqb k) (filter f (map fst (TS.items p)))) eqn:Hex.
  - apply existsb_exists in Hex as (k0 & Hin & Heq).
    apply String.eqb_eq in Heq. subst k0.
    apply filter_In in Hin as (_ & Hf). unfold f in Hf.
    rewrite clearFilter_prefix in Hf. now rewrite Hf.
  - destruct (String.prefix (ns ++ "_") k) eqn:Hpre; [ | reflexivity ].
    apply lookup_absent. intros Hin.
    assert (Hf : f k = true) by (unfold f; now rewrite clearFilter_prefix).
    assert (Hin' : In k (filter f (map fst (TS.items p)))) by (apply filter_In; now split).
    assert (Ht : existsb (String.eqb k) (filter f (map fst (TS.items p))) = true).
    { apply existsb_exists. exists k. split; [ exact Hin' | apply String.eqb_refl ]. }
    congruence.
Qed.

(** ** Saving and loading *)

Lemma load_of_json ns key d p j :
  TS.getItem (TS.prefixedKey ns key) p = Some (TS.Json j) ->
  TS.load ns key d p =
  (fst (parse j (TS.heapNext p)),
   TS.withHeapNext (snd (parse j (TS.heapNext p))) p).
Proof.
  intros H. unfold TS.load. rewrite H. cbn [TS.isEmptyText TS.parseText].
  destruct (parse j (TS.heapNext p)); reflexivity.
Qed.

Lemma load_of_nothing ns key d p :
  TS.getItem (TS.prefixedKey ns key) p = None ->
  TS.load ns key d p = (TS.orDefault VNull d, p).
Proof. intros H. unfold TS.load. now rewrite H. Qed.

Lemma save_accepted accepts ns key data p :
  accepts (TS.prefixedKey ns key) (TS.stringifyText data) (TS.items p) = true ->
  TS.save accepts ns key data p =
  (true, TS.withItems
           (assocSet (TS.prefixedKey ns key) (TS.stringifyText data) (TS.items p)) p).
Proof. intros H. unfold TS.save, TS.setItem. now rewrite H. Qed.

Lemma save_refused accepts ns key data p :
  accepts (TS.prefixedKey ns key) (TS.stringifyText data) (TS.items p) = false ->
  fst (TS.save accepts ns key data p) = false /\
  TS.items (snd (TS.save accepts ns key data p)) = TS.items p /\
  TS.heapNext (snd (TS.save accepts ns key data p)) = TS.heapNext p /\
  TS.console (snd (TS.save accepts ns key data p)) =
    (TS.console p ++ ["Failed to save to localStorage:"])%list /\
  TS.notifications (snd (TS.save accepts ns key data p)) =
    if TS.notifier p
    then (TS.notifications p
            ++ [("Failed to save data. Storage may be full.", "warning")])%list
    else TS.notifications p.
Proof.
  intros H. unfold TS.save, TS.setItem. rewrite H. cbn [fst snd TS.say].
  destruct p as [it hn nt gt ua rf ns' ev co]. cbn. destruct nt; cbn; now repeat split.
Qed.

Lemma save_then_load accepts ns key data d p :
  clean data = true ->
  accepts (TS.prefixedKey ns key) (TS.stringifyText data) (TS.items p) = true ->
  let p1 := snd (TS.save accepts ns key data p) in
  sameValue (fst (TS.load ns key d p1)) data /\
  TS.items (snd (TS.load ns key d p1)) = TS.items p1 /\
  TS.console (snd (TS.load ns key d p1)) = TS.console p.
Proof.
  intros Hclean Hacc. rewrite (save_accepted _ _ _ _ _ Hacc). cbn [snd].
  destruct (stringify_parse data Hclean) as (j & Hj & Hrt).
  unfold TS.stringifyText. rewrite Hj.
  rewrite (load_of_json ns key d _ j)
    by (unfold TS.getItem; cbn [TS.items TS.withItems]; apply lookup_assocSet_same).
  cbn [fst snd]. split; [ apply Hrt | ]. split; reflexivity.
Qed.

(** X13. What [save] stores, [load] gives back: when the browser accepts
    the item, [save] answers [true] and a later [load] of the key returns
    a value equal to the saved one, whatever the default, writing
    nothing to the console; when the browser refuses it, [save] answers
    [false], reports the failure, and [load] returns what it returned
    before.  No other key is touched in either case.  This holds for
    data that [JSON.stringify] writes out in full. *)
Theorem saved_data_is_loaded_back accepts ns key data d p
  (Hclean : clean data = true) :
  let ok := fst (TS.save accepts ns key data p) in
  let p1 := snd (TS.save accepts ns key data p) in
  ok = accepts (TS.prefixedKey ns key) (TS.stringifyText data) (TS.items p) /\
  (ok = true ->
   sameValue (fst (TS.load ns key d p1)) data /\
   TS.console (snd (TS.load ns key d p1)) = TS.console p /\
   TS.notifications p1 = TS.notifications p) /\
  (ok = false ->
   fst (TS.load ns key d p1) = fst (TS.load ns key d p) /\
   TS.items p1 = TS.items p /\
   TS.console p1 = (TS.console p ++ ["Failed to save to localStorage:"])%list /\
   TS.notifications p1 =
     if TS.notifier p
     then (TS.notifications p
             ++ [("Failed to save data. Storage may be full.", "warning")])%list
     else TS.notifications p) /\
  (forall k, k <> TS.prefixedKey ns key -> TS.getItem k p1 = TS.getItem k p).
Proof.
  cbv zeta.
  destruct (accepts (TS.prefixedKey ns key) (TS.stringifyText data) (TS.items p)) eqn:Hacc.
  - destruct (save_then_load accepts ns key data d p Hclean Hacc) as (Hv & _ & Hc).
    cbv zeta in Hv, Hc.
    rewrite (save_accepted _ _ _ _ _ Hacc) in *. cbn [fst snd] in *.
    split; [ reflexivity | ]. split; [ | split ].
    + intros _. split; [ exact Hv | ]. split; [ exact Hc | reflexivity ].
    + discriminate.
    + intros k Hk. unfold TS.getItem. cbn [TS.items TS.withItems].
      apply lookup_assocSet_other. now apply String.eqb_neq.
  - destruct (save_refused accepts ns key data p Hacc) as (Hok & Hit & Hhn & Hco & Hno).
    split; [ exact Hok | ]. split; [ | split ].
    + rewrite Hok. discriminate.
    + intros _. split; [ | split; [ exact Hit | split; [ exact Hco | exact Hno ] ] ].
      unfold TS.load, TS.getItem. rewrite Hit, Hhn.
      destruct (lookup (TS.prefixedKey ns key) (TS.items p)) as [t|]; [ | reflexivity ].
      destruct (TS.isEmptyText t); [ reflexivity | ].
      destruct (TS.parseText t (TS.heapNext p)) as [[v n]|]; reflexivity.
    + intros k _. unfold TS.getItem. now rewrite Hit.
Qed.

Lemma saved_data_is_loaded_back_witness :
  let p := TS.mkPage [("toolbelt_theme", TS.Json (JStr "dark"))] 10 true false
             "agent" "" [] [] [] in
  let data := VObj 3 [("zoom", VNum 2); ("recent", VArr 4 [VStr "flowchart"] [])] in
  let p1 := snd (TS.save (fun _ _ l => (List.length l <? 2)%nat) "toolbelt" "prefs" data p) in
  sameValue (fst (TS.load "toolbelt" "prefs" VUndef p1)) data /\
  TS.getItem "toolbelt_theme" p1 = Some (TS.Json (JStr "dark")).
Proof.
  cbv zeta.
  pose proof (saved_data_is_loaded_back
                (fun _ _ l => (List.length l <? 2)%nat) "toolbelt" "prefs"
                (VObj 3 [("zoom", VNum 2); ("recent", VArr 4 [VStr "flowchart"] [])])
                VUndef
                (TS.mkPage [("toolbelt_theme", TS.Json (JStr "dark"))] 10 true false
                   "agent" "" [] [] [])
                eq_refl) as (_ & Hok & _ & Hother).
  split.
  - apply Hok. reflexivity.
  - rewrite Hother; [ reflexivity | discriminate ].
Defined.

(** X14. [save] answers [true] for [undefined], but nothing that can be
    read is stored: the item holds the text ["undefined"], and a later
    [load] of the key reports a failure on the console and returns the
    default ([null] when none is given). *)
Theorem saved_undefined_is_not_loaded accepts ns key d p
  (Hacc : accepts (TS.prefixedKey ns key) (TS.Plain "undefined") (TS.items p) = true) :
  let p1 := snd (TS.save accepts ns key VUndef p) in
  fst (TS.save accepts ns key VUndef p) = true /\
  TS.getItem (TS.prefixedKey ns key) p1 = Some (TS.Plain "undefined") /\
  fst (TS.load ns key d p1) = (match d with VUndef => VNull | _ => d end) /\
  TS.console (snd (TS.load ns key d p1)) =
    (TS.console p ++ ["Failed to load from localStorage:"])%list.
Proof.
  cbv zeta. rewrite (save_accepted accepts ns key VUndef p Hacc). cbn [fst snd].
  assert (Hget : TS.getItem (TS.prefixedKey ns key)
                   (TS.withItems
                      (assocSet (TS.prefixedKey ns key) (TS.stringifyText VUndef)
                         (TS.items p)) p) = Some (TS.Plain "undefined")).
  { unfold TS.getItem. cbn [TS.items TS.withItems]. apply lookup_assocSet_same. }
  split; [ reflexivity | ]. split; [ exact Hget | ].
  unfold TS.load. rewrite Hget. cbn [TS.isEmptyText String.eqb Ascii.eqb TS.parseText fst snd].
  split; [ destruct d; reflexivity | reflexivity ].
Qed.

Lemma saved_undefined_is_not_loaded_witness :
  let p := TS.mkPage [] 0 false false "agent" "" [] [] [] in
  let p1 := snd (TS.save (fun _ _ _ => true) "toolbelt" "draft" VUndef p) in
  fst (TS.load "toolbelt" "draft" (VNum 7) p1) = VNum 7.
Proof.
  cbv zeta.
  exact (proj1 (proj2 (proj2
    (saved_undefined_is_not_loaded (fun _ _ _ => true) "toolbelt" "draft" (VNum 7)
       (TS.mkPage [] 0 false false "agent" "" [] [] []) eq_refl)))).
Defined.

(** ** Removing and clearing *)

(** X15. After [remove], a [load] of the key returns the default and
    says nothing; every other key keeps its item; and removing a key
    that holds nothing leaves the page exactly as it was. *)
Theorem removed_key_loads_the_default ns key p :
  let p1 := snd (TS.remove ns key p) in
  fst (TS.remove ns key p) = true /\
  (forall d, TS.load ns key d p1 = (match d with VUndef => VNull | _ => d end, p1)) /\
  (forall k, k <> TS.prefixedKey ns key -> TS.getItem k p1 = TS.getItem k p) /\
  (TS.getItem (TS.prefixedKey ns key) p = None -> p1 = p).
Proof.
  cbv zeta. unfold TS.remove. cbn [fst snd].
  split; [ reflexivity | ]. split; [ | split ].
  - intros d. rewrite load_of_nothing.
    + destruct d; reflexivity.
    + rewrite getItem_removeItem. now rewrite String.eqb_refl.
  - intros k Hk. rewrite getItem_removeItem.
    apply String.eqb_neq in Hk. now rewrite Hk.
  - intros Hnone. unfold TS.removeItem.
    rewrite (filter_key_absent _ _ Hnone). apply withItems_same.
Qed.

Lemma removed_key_loads_the_default_witness :
  let p := TS.mkPage [("toolbelt_theme", TS.Json (JStr "dark"));
                      ("toolbelt_prefs", TS.Json (JNum 3))] 0 false false
             "agent" "" [] [] [] in
  TS.getItem "toolbelt_theme" (snd (TS.remove "toolbelt" "prefs" p))
    = Some (TS.Json (JStr "dark")) /\
  snd (TS.remove "toolbelt" "missing" p) = p.
Proof.
  cbv zeta.
  split.
  - rewrite (proj1 (proj2 (proj2 (removed_key_loads_the_default "toolbelt" "prefs" _))));
      [ reflexivity | discriminate ].
  - apply (proj2 (proj2 (proj2 (removed_key_loads_the_default "toolbelt" "missing" _)))).
    reflexivity.
Defined.

(** X16. [clear] removes the items whose key starts with the namespace
    and an underscore, and no other: afterwards every [load] of the
    instance returns the default.  The items of an instance whose
    namespace extends this one by an underscore and more are removed
    with them. *)
Theorem clear_removes_by_key_prefix ns p :
  let p1 := snd (TS.clear ns p) in
  fst (TS.clear ns p) = true /\
  (forall k, TS.getItem k p1 =
             if String.prefix (ns ++ "_") k then None else TS.getItem k p) /\
  (forall key d, TS.load ns key d p1 = (match d with VUndef => VNull | _ => d end, p1)) /\
  (forall x key d,
      TS.load (ns ++ "_" ++ x) key d p1 = (match d with VUndef => VNull | _ => d end, p1)) /\
  TS.console p1 = TS.console p /\ TS.notifications p1 = TS.notifications p.
Proof.
  cbv zeta. split; [ reflexivity | ].
  assert (Hown : forall key d,
             TS.load ns key d (snd (TS.clear ns p)) =
             (match d with VUndef => VNull | _ => d end, snd (TS.clear ns p))).
  { intros key d. rewrite load_of_nothing.
    - destruct d; reflexivity.
    - rewrite getItem_clear. now rewrite prefix_prefixedKey. }
  split; [ intros k; apply getItem_clear | ].
  split; [ exact Hown | ]. split.
  - intros x key d. unfold TS.load. rewrite prefixedKey_nested.
    exact (Hown (x ++ "_" ++ key) d).
  - unfold TS.clear. cbn [snd].
    destruct (removeAll_frame
                (filter (fun key => negb (String.eqb key "")
                                    && String.prefix (ns ++ "_") key)
                   (map fst (TS.items p))) p) as (_ & Hc & Hn & _).
    split; [ exact Hc | exact Hn ].
Qed.

(** X17. The key of an item is the namespace, an underscore and the
    key, so two instances whose namespaces nest share items: what one
    saves under [key] in the namespace [ns_x], the other loads under
    [x_key] in the namespace [ns]. *)
Theorem nested_namespaces_share_items accepts ns x key data d p
  (Hclean : clean data = true)
  (Hacc : accepts (TS.prefixedKey (ns ++ "_" ++ x) key) (TS.stringifyText data)
            (TS.items p) = true) :
  let p1 := snd (TS.save accepts (ns ++ "_" ++ x) key data p) in
  sameValue (fst (TS.load ns (x ++ "_" ++ key) d p1)) data /\
  TS.save accepts ns (x ++ "_" ++ key) data p = TS.save accepts (ns ++ "_" ++ x) key data p /\
  TS.remove ns (x ++ "_" ++ key) p = TS.remove (ns ++ "_" ++ x) key p.
Proof.
  cbv zeta. split; [ | split ].
  - destruct (save_then_load accepts (ns ++ "_" ++ x) key data d p Hclean Hacc) as (Hv & _).
    cbv zeta in Hv. unfold TS.load in *. rewrite prefixedKey_nested in Hv. exact Hv.
  - unfold TS.save. now rewrite prefixedKey_nested.
  - unfold TS.remove. now rewrite prefixedKey_nested.
Qed.

Lemma nested_namespaces_share_items_witness :
  let p := TS.mkPage [] 0 false false "agent" "" [] [] [] in
  let p1 := snd (TS.save (fun _ _ _ => true) "app_user" "name" (VStr "Ada") p) in
  sameValue (fst (TS.load "app" "user_name" VNull p1)) (VStr "Ada").
Proof.
  cbv zeta.
  exact (proj1 (nested_namespaces_share_items (fun _ _ _ => true) "app" "user" "name"
                  (VStr "Ada") VNull
                  (TS.mkPage [] 0 false false "agent" "" [] [] []) eq_refl eq_refl)).
Defined.

(** ** The usage log *)

Lemma stringify_array a es ps :
  stringify (VArr a es ps) =
  Some (JArr (map (fun e => match stringify e with
                            | Some j => j
                            | None => JNull
                            end) es)).
Proof. reflexivity. Qed.

Lemma stringify_parseElems js :
  Forall (fun j => forall n, stringify (fst (parse j n)) = Some j) js ->
  forall m,
    map (fun e => match stringify e with Some j => j | None => JNull end)
      (fst (parseElems js m)) = js /\
    List.length (fst (parseElems js m)) = List.length js.
Proof.
  induction 1 as [|j js Hj _ IH]; intros m; [ now split | ].
  rewrite parseElems_cons.
  pose proof (Hj m) as Hjm.
  destruct (parse j m) as [v m1]. cbn [fst] in Hjm.
  destruct (IH m1) as (IH1 & IH2).
  destruct (parseElems js m1) as [vs m2]. cbn [fst] in *.
  cbn [map List.length]. rewrite Hjm, IH1, IH2. now split.
Qed.

Lemma stringify_parseMembers ms :
  Forall (fun m => forall n, stringify (fst (parse (snd m) n)) = Some (snd m)) ms ->
  forall m, stringifyMembers (fst (parseMembers ms m)) = ms.
Proof.
  induction 1 as [|[k j] ms Hj _ IH]; intros m; [ reflexivity | ].
  rewrite parseMembers_cons.
  pose proof (Hj m) as Hjm. cbn [snd] in Hjm.
  destruct (parse j m) as [v m1]. cbn [fst] in Hjm.
  pose proof (IH m1) as IH1.
  destruct (parseMembers ms m1) as [vs m2]. cbn [fst] in *.
  rewrite stringifyMembers_cons, Hjm, IH1. reflexivity.
Qed.

(** Writing out what was read gives the text that was read. *)
Lemma parse_stringify j : forall n, stringify (fst (parse j n)) = Some j.
Proof.
  induction j as [|b|q|s|js IHjs|ms IHms] using json_nested_ind; intros n;
    try reflexivity.
  - rewrite parse_array.
    destruct (stringify_parseElems js IHjs (S n)) as (Hmap & _).
    destruct (parseElems js (S n)) as [vs m]. cbn [fst] in *.
    rewrite stringify_array, Hmap. reflexivity.
  - rewrite parse_object.
    pose proof (stringify_parseMembers ms IHms (S n)) as Hmem.
    destruct (parseMembers ms (S n)) as [ps m]. cbn [fst] in *.
    rewrite stringify_object, Hmem. reflexivity.
Qed.

Lemma lastHundred_skipn es :
  TS.lastHundred es = skipn (List.length es - 100) es.
Proof.
  unfold TS.lastHundred.
  destruct (Nat.ltb_spec 100 (List.length es)) as [H | H]; [ reflexivity | ].
  replace (List.length es - 100)%nat with 0%nat by lia. reflexivity.
Qed.

Lemma skipn_snoc {A} (k : nat) (l : list A) (x : A) :
  (k <= List.length l)%nat ->
  skipn k (l ++ [x]) = (skipn k l ++ [x])%list.
Proof.
  intros H. rewrite skipn_app.
  replace (k - List.length l)%nat with 0%nat by lia. reflexivity.
Qed.

Section UsageLog.

Variable accepts : string -> TS.text -> list (string * TS.text) -> bool.
Variables tool ts : string.
Variable p : TS.page.

Let accessed : string := "Tool accessed: " ++ tool ++ " at " ++ ts.

Let entry : json :=
  JObj [("tool", JStr tool); ("timestamp", JStr ts);
        ("userAgent", JStr (TS.userAgent p)); ("referrer", JStr (TS.referrer p))].

Lemma track_array js :
  match TS.getItem TS.analyticsKey p with
  | None => js = []
  | Some t => if TS.isEmptyText t then js = [] else t = TS.Json (JArr js)
  end ->
  let log := skipn (List.length js + 1 - 100) (js ++ [entry]) in
  let p1 := TS.trackToolUsage accepts tool ts p in
  if accepts TS.analyticsKey (TS.Json (JArr log)) (TS.items p)
  then TS.items p1 = assocSet TS.analyticsKey (TS.Json (JArr log)) (TS.items p) /\
       TS.console p1 = (TS.console p ++ [accessed])%list
  else TS.items p1 = TS.items p /\
       TS.console p1 = (TS.console p ++ [accessed; "Failed to store analytics:"])%list.
Proof.
  intros Hsaved. cbv zeta. unfold TS.trackToolUsage. cbv zeta.
  set (p0 := if TS.gtag _ then _ else _).
  assert (Hp0 : TS.items p0 = TS.items p /\ TS.userAgent p0 = TS.userAgent p /\
                TS.referrer p0 = TS.referrer p /\
                TS.console p0 = (TS.console p ++ [accessed])%list).
  { unfold p0. destruct p as [it hn nt gt ua rf no ev co]. destruct gt; cbn; now repeat split. }
  destruct Hp0 as (Hit & Hua & Hrf & Hco).
  unfold TS.getItem in *. rewrite Hit.
  assert (Htext : match lookup TS.analyticsKey (TS.items p) with
                  | Some t => if TS.isEmptyText t then TS.Json (JArr []) else t
                  | None => TS.Json (JArr [])
                  end = TS.Json (JArr js)).
  { destruct (lookup TS.analyticsKey (TS.items p)) as [t|]; [ | now subst js ].
    destruct (TS.isEmptyText t); [ now subst js | exact Hsaved ]. }
  rewrite Htext. cbn [TS.parseText]. rewrite parse_array.
  destruct (stringify_parseElems js
              (proj2 (Forall_forall _ js) (fun j _ => parse_stringify j))
              (S (TS.heapNext p0))) as (Hmap & Hlen).
  destruct (parseElems js (S (TS.heapNext p0))) as [es m]. cbn [fst] in Hmap, Hlen.
  unfold TS.stringifyText. rewrite stringify_array, lastHundred_skipn.
  rewrite <- skipn_map, map_app, Hmap, length_app, Hlen. cbn [map List.length].
  unfold TS.usageEntry. cbn [stringify TS.userAgent TS.referrer TS.withHeapNext].
  rewrite Hua, Hrf. fold entry.
  unfold TS.setItem. cbn [TS.items TS.withHeapNext]. rewrite Hit.
  destruct (accepts TS.analyticsKey
              (TS.Json (JArr (skipn (List.length js + 1 - 100) (js ++ [entry]))))
              (TS.items p)).
  - cbn [TS.items TS.console TS.withItems TS.withHeapNext]. now split.
  - cbn [TS.say TS.items TS.console TS.withConsole TS.withHeapNext].
    rewrite Hit, Hco, <- app_assoc. now split.
Qed.

Lemma track_not_array t :
  TS.getItem TS.analyticsKey p = Some t ->
  TS.isEmptyText t = false ->
  (forall js, t <> TS.Json (JArr js)) ->
  let p1 := TS.trackToolUsage accepts tool ts p in
  TS.items p1 = TS.items p /\
  TS.console p1 = (TS.console p ++ [accessed; "Failed to store analytics:"])%list.
Proof.
  intros Hget Hne Harr. cbv zeta. unfold TS.trackToolUsage. cbv zeta.
  set (p0 := if TS.gtag _ then _ else _).
  assert (Hp0 : TS.items p0 = TS.items p /\
                TS.console p0 = (TS.console p ++ [accessed])%list).
  { unfold p0. destruct p as [it hn nt gt ua rf no ev co]. destruct gt; cbn; now repeat split. }
  destruct Hp0 as (Hit & Hco).
  unfold TS.getItem in *. rewrite Hit, Hget, Hne.
  destruct t as [j | s]; cbn [TS.parseText].
  - destruct j as [|b|q|s|js|ms]; try (exfalso; exact (Harr _ eq_refl));
      try (cbn [parse TS.say TS.items TS.console TS.withConsole TS.withHeapNext];
           rewrite Hit, Hco, <- app_assoc; now split).
    rewrite parse_object. destruct (parseMembers ms (S (TS.heapNext p0))) as [ps m].
    cbn [TS.say TS.items TS.console TS.withConsole TS.withHeapNext].
    rewrite Hit, Hco, <- app_assoc. now split.
  - cbn [TS.say TS.items TS.console TS.withConsole].
    rewrite Hit, Hco, <- app_assoc. now split.
Qed.

Lemma track_other_keys k :
  k <> TS.analyticsKey ->
  TS.getItem k (TS.trackToolUsage accepts tool ts p) = TS.getItem k p.
Proof.
  intros Hk. unfold TS.trackToolUsage. cbv zeta.
  set (p0 := if TS.gtag _ then _ else _).
  assert (Hit : TS.items p0 = TS.items p).
  { unfold p0. destruct p as [it hn nt gt ua rf no ev co]. destruct gt; reflexivity. }
  assert (Hfail : forall q, TS.items q = TS.items p ->
                            TS.getItem k (TS.say "Failed to store analytics:" q)
                            = TS.getItem k p).
  { intros q Hq. unfold TS.getItem. cbn [TS.say TS.items TS.withConsole]. now rewrite Hq. }
  destruct (TS.parseText _ _) as [[analytics n]|]; [ | now apply Hfail ].
  destruct analytics; try (apply Hfail; exact Hit).
  unfold TS.setItem. cbn [TS.items TS.withHeapNext].
  destruct (accepts _ _ _); [ | apply Hfail; exact Hit ].
  unfold TS.getItem. cbn [TS.items TS.withItems TS.withHeapNext]. rewrite Hit.
  apply lookup_assocSet_other. now apply String.eqb_neq.
Qed.

End UsageLog.

(** X18. [trackToolUsage] appends one entry to the list kept under
    ["toolbelt_analytics"] and keeps the last hundred: the stored list
    is the old one followed by the new entry, without its oldest
    elements beyond a hundred.  When the browser refuses the item the
    old list stays and a warning is written.  No other key is touched.
    The key is the one of the default storage instance for
    ["analytics"], which therefore loads the list and whose [clear]
    erases it. *)
Theorem usage_log_keeps_the_last_hundred accepts tool ts p js
  (Hlog : TS.getItem TS.analyticsKey p = Some (TS.Json (JArr js))) :
  let entry :=
    JObj [("tool", JStr tool); ("timestamp", JStr ts);
          ("userAgent", JStr (TS.userAgent p)); ("referrer", JStr (TS.referrer p))] in
  let log := skipn (List.length js + 1 - 100) (js ++ [entry]) in
  let p1 := TS.trackToolUsage accepts tool ts p in
  List.length log = Nat.min (List.length js + 1) 100 /\
  last log JNull = entry /\
  (if accepts TS.analyticsKey (TS.Json (JArr log)) (TS.items p)
   then TS.getItem TS.analyticsKey p1 = Some (TS.Json (JArr log)) /\
        (forall d, stringify (fst (TS.load TS.defaultNamespace "analytics" d p1))
                   = Some (JArr log))
   else TS.items p1 = TS.items p /\
        TS.console p1 =
          (TS.console p ++ [("Tool accessed: " ++ tool ++ " at " ++ ts)%string;
                            "Failed to store analytics:"])%list) /\
  (forall k, k <> TS.analyticsKey -> TS.getItem k p1 = TS.getItem k p) /\
  TS.getItem TS.analyticsKey (snd (TS.clear TS.defaultNamespace p1)) = None.
Proof.
  cbv zeta.
  assert (Hskip : skipn (List.length js + 1 - 100)
                    (js ++ [JObj [("tool", JStr tool); ("timestamp", JStr ts);
                                  ("userAgent", JStr (TS.userAgent p));
                                  ("referrer", JStr (TS.referrer p))]])
                  = (skipn (List.length js + 1 - 100) js
                       ++ [JObj [("tool", JStr tool); ("timestamp", JStr ts);
                                 ("userAgent", JStr (TS.userAgent p));
                                 ("referrer", JStr (TS.referrer p))]])%list)
    by (apply skipn_snoc; lia).
  split; [ | split; [ | split; [ | split ] ] ].
  - rewrite length_skipn, length_app. cbn [List.length]. lia.
  - rewrite Hskip. apply last_last.
  - pose proof (track_array accepts tool ts p js) as Hrun.
    rewrite Hlog in Hrun. cbn [TS.isEmptyText] in Hrun. specialize (Hrun eq_refl).
    cbv zeta in Hrun.
    destruct (accepts TS.analyticsKey _ (TS.items p)); [ | exact Hrun ].
    destruct Hrun as (Hit & _).
    assert (Hget : TS.getItem TS.analyticsKey (TS.trackToolUsage accepts tool ts p)
                   = Some (TS.Json (JArr (skipn (List.length js + 1 - 100)
                        (js ++ [JObj [("tool", JStr tool); ("timestamp", JStr ts);
                                      ("userAgent", JStr (TS.userAgent p));
                                      ("referrer", JStr (TS.referrer p))]]))))).
    { unfold TS.getItem. rewrite Hit. apply lookup_assocSet_same. }
    split; [ exact Hget | ].
    intros d. rewrite (load_of_json TS.defaultNamespace "analytics" d _ _ Hget).
    cbn [fst]. apply parse_stringify.
  - intros k Hk. now apply track_other_keys.
  - rewrite getItem_clear. reflexivity.
Qed.

Lemma usage_log_keeps_the_last_hundred_witness :
  let p := TS.mkPage [("toolbelt_analytics", TS.Json (JArr (repeat (JStr "old") 100)))]
             0 false false "agent" "home" [] [] [] in
  TS.getItem TS.analyticsKey (TS.trackToolUsage (fun _ _ _ => true) "flowchart" "now" p)
  = Some (TS.Json (JArr (repeat (JStr "old") 99
                           ++ [JObj [("tool", JStr "flowchart"); ("timestamp", JStr "now");
                                     ("userAgent", JStr "agent");
                                     ("referrer", JStr "home")]]))).
Proof.
  cbv zeta.
  exact (proj1 (proj1 (proj2 (proj2
    (usage_log_keeps_the_last_hundred (fun _ _ _ => true) "flowchart" "now"
       (TS.mkPage [("toolbelt_analytics", TS.Json (JArr (repeat (JStr "old") 100)))]
          0 false false "agent" "home" [] [] [])
       (repeat (JStr "old") 100) eq_refl))))).
Defined.

(** X19. With no list stored yet, or an empty text, [trackToolUsage]
    starts a list of one entry.  When the stored text is not a JSON
    array (another JSON value, or a text that is not JSON), it stores
    nothing, leaves every item as it is and writes a warning; the error
    does not reach the caller. *)
Theorem usage_log_starts_empty_and_skips_other_texts accepts tool ts p :
  let entry :=
    JObj [("tool", JStr tool); ("timestamp", JStr ts);
          ("userAgent", JStr (TS.userAgent p)); ("referrer", JStr (TS.referrer p))] in
  let p1 := TS.trackToolUsage accepts tool ts p in
  (TS.getItem TS.analyticsKey p = None \/
   TS.getItem TS.analyticsKey p = Some (TS.Plain "") ->
   accepts TS.analyticsKey (TS.Json (JArr [entry])) (TS.items p) = true ->
   TS.getItem TS.analyticsKey p1 = Some (TS.Json (JArr [entry]))) /\
  (forall t,
      TS.getItem TS.analyticsKey p = Some t ->
      t <> TS.Plain "" ->
      (forall js, t <> TS.Json (JArr js)) ->
      TS.items p1 = TS.items p /\
      TS.console p1 =
        (TS.console p ++ [("Tool accessed: " ++ tool ++ " at " ++ ts)%string;
                          "Failed to store analytics:"])%list).
Proof.
  cbv zeta. split.
  - intros Hnone Hacc.
    pose proof (track_array accepts tool ts p []) as Hrun.
    assert (Hpre : match TS.getItem TS.analyticsKey p with
                   | Some t => if TS.isEmptyText t then @nil json = [] else t = TS.Json (JArr [])
                   | None => @nil json = []
                   end).
    { destruct Hnone as [-> | ->]; reflexivity. }
    specialize (Hrun Hpre). cbv zeta in Hrun. cbn [List.length skipn List.app Nat.sub Nat.add] in Hrun.
    rewrite Hacc in Hrun. destruct Hrun as (Hit & _).
    unfold TS.getItem. rewrite Hit. apply lookup_assocSet_same.
  - intros t Hget Hne Harr.
    apply (track_not_array accepts tool ts p t Hget); [ | exact Harr ].
    destruct t as [j | s]; [ reflexivity | ].
    cbn [TS.isEmptyText]. apply String.eqb_neq. intros ->. now apply Hne.
Qed.

Lemma usage_log_starts_empty_and_skips_other_texts_witness :
  let p := TS.mkPage [("toolbelt_analytics", TS.Json (JObj [("push", JNum 1)]))]
             0 false false "agent" "home" [] [] [] in
  TS.items (TS.trackToolUsage (fun _ _ _ => true) "flowchart" "now" p) = TS.items p /\
  TS.getItem TS.analyticsKey
    (TS.trackToolUsage (fun _ _ _ => true) "flowchart" "now"
       (TS.mkPage [] 0 false false "agent" "home" [] [] []))
  = Some (TS.Json (JArr [JObj [("tool", JStr "flowchart"); ("timestamp", JStr "now");
                               ("userAgent", JStr "agent"); ("referrer", JStr "home")]])).
Proof.
  cbv zeta. split.
  - refine (proj1 (proj2
      (usage_log_starts_empty_and_skips_other_texts (fun _ _ _ => true) "flowchart" "now"
         (TS.mkPage [("toolbelt_analytics", TS.Json (JObj [("push", JNum 1)]))]
            0 false false "agent" "home" [] [] []))
      (TS.Json (JObj [("push", JNum 1)])) eq_refl _ _)); [ discriminate | discriminate ].
  - apply (proj1
      (usage_log_starts_empty_and_skips_other_texts (fun _ _ _ => true) "flowchart" "now"
         (TS.mkPage [] 0 false false "agent" "home" [] [] [])));
      [ left; reflexivity | reflexivity ].
Defined.
